(** * limlam_mocker: halo catalogue operations and halo-to-luminosity models

    A shallow embedding of [limlam_mocker/load_halos.py] and
    [limlam_mocker/halos_to_luminosity.py].

    Conventions of the embedding.
    - Python floats and numpy float arrays are idealised as real numbers
      ([R]) and lists of reals; there is no NaN and no rounding.
    - A [HaloCatalog] instance is the finite map of its instance attributes
      ([gmap string hval]): the code reads, tests ([hasattr]), writes
      ([setattr]) and enumerates ([dir]) attributes by name.
    - Calls that can fail return an [outcome]; mutation of the catalogue,
      of the parameter object and of the module global [sfr_interp_tab]
      is threaded through the memory [Mem] by the monad [Py].
    - numpy, scipy and astropy are outside the repository.  What their
      generators, tables and cosmology compute is collected in the record
      [Externals]; what their array primitives do is written out
      ([np_where], [np_argsort], [np_interp], [np_histogram], ...). *)

From stdpp Require Import base option list sorting strings gmap.
From Stdlib Require Import Ascii Reals Lra Lia ZArith Permutation Sorted.

Local Open Scope R_scope.

(** ** Outcomes of a Python call *)

Inductive exn : Type :=
| TypeError | ValueError | AttributeError | IndexError | UnboundLocalError.

Inductive outcome (A : Type) : Type :=
| Returns (a : A)
| Raises (e : exn)
| SysExit (msg : string).
Arguments Returns {A} a.
Arguments Raises {A} e.
Arguments SysExit {A} msg.

(** ** Comparisons of floats, as booleans *)

Definition Rltb (x y : R) : bool := if Rlt_dec x y then true else false.
Definition Rleb (x y : R) : bool := if Rle_dec x y then true else false.

#[export] Instance R_eq_dec : EqDecision R := Req_dec_T.
#[export] Instance R_lt_decision : RelDecision Rlt := Rlt_dec.
#[export] Instance R_le_decision : RelDecision Rle := Rle_dec.

(** ** Values *)

(** A numpy operand: a Python scalar or a one-dimensional float array. *)
Inductive ndval : Type :=
| NdScalar (x : R)
| NdArray (a : list R).

(** Broadcasting: element [i] of an operand. *)
Definition nd_at (v : ndval) (i : nat) : R :=
  match v with
  | NdScalar x => x
  | NdArray a => nth i a 0
  end.

Definition nd_map (f : R -> R) (v : ndval) : ndval :=
  match v with
  | NdScalar x => NdScalar (f x)
  | NdArray a => NdArray (map f a)
  end.

(** [np.any(v <= 0)] *)
Definition np_any_le0 (v : ndval) : bool :=
  match v with
  | NdScalar x => Rleb x 0
  | NdArray a => existsb (fun x => Rleb x 0) a
  end.

(** [astropy.cosmology.FlatLambdaCDM(H0, Om0, Ob0)] *)
Record Cosmology : Type := { H0 : R; Om0 : R; Ob0 : R }.

(** The value of an instance attribute of a halo catalogue. *)
Inductive hval : Type :=
| VArr (a : list R)            (* numpy float array, one entry per halo *)
| VFloat (x : R)               (* Python float *)
| VInt (n : Z)                 (* Python int *)
| VTuple (t : list R)          (* tuple or list of floats *)
| VMatrix (m : list (list R))  (* list of lists of floats *)
| VCosmo (c : Cosmology).

(** [class HaloCatalog]: the instance attributes by name *)
Abbreviation HaloCatalog := (gmap string hval).

(** ** What lies outside the repository *)

Record Externals : Type := {
  (** deviate number [i] of the legacy generator after [np.random.seed(s)] *)
  randn : Z -> nat -> R;
  (** sample [i] of
      [np.random.default_rng(seed).multivariate_normal([0,0], cov, size)] *)
  multivariate_normal : Z -> list (list R) -> nat -> R * R;
  (** [get_sfr_table(bad_extrapolation)]: the spline [ev] fitted to the
      tabulated star formation rates *)
  sfr_table_ev : bool -> R -> R -> R;
  (** [tools.freq_to_z(nu_rest, nu_obs)] *)
  freq_to_z : R -> R -> R;
  (** [cosmo.comoving_volume(z)], in Mpc^3 *)
  comoving_volume : Cosmology -> R -> R;
  (** The indices drawn by
      [np.random.default_rng(seed).choice(n, size, replace=False, p=p)]
      once the generator has accepted its arguments: [size] distinct
      indices below [n]. *)
  choice_draw : Z -> nat -> nat -> list R -> list nat;
  choice_draw_spec : forall seed n size p,
    length p = n ->
    Forall (fun x => 0 <= x) p ->
    Rabs (foldr Rplus 0 p - 1) <= / 2 ^ 26 ->
    (size <= length (filter (fun x => (0 < x)%R) p))%nat ->
    NoDup (choice_draw seed n size p)
    /\ length (choice_draw seed n size p) = size
    /\ Forall (fun i => (i < n)%nat) (choice_draw seed n size p);
}.

(** ** ScatterEngine *)

Section Scatter.
Context (W : Externals).

(** [np.random.seed(seed); np.random.lognormal(mu, sigma, n)]: the legacy
    generator returns [exp(mu + sigma * gauss)] per element. *)
Definition np_random_lognormal (seed : Z) (mu sigma : ndval) (n : nat)
  : list R :=
  map (fun i => exp (nd_at mu i + nd_at sigma i * randn W seed i)) (seq 0 n).

(** [np.where(data > 0, data*randscaling, data)] *)
Definition np_where_pos_scaled (data randscaling : list R) : list R :=
  zip_with (fun x s => if Rltb 0 x then x * s else x) data randscaling.

(** [add_log_normal_scatter(data, dex, seed)]: the array that the call
    returns.  Past the guard on [dex] numpy seeds the legacy generator with
    [seed*13579] and broadcasts [dex] to the shape of [data]; the callers
    below pass a seed it takes and a width that is a number or has the
    shape of [data], and [Mhalo_to_Ls], which passes the seed of the
    parameters, checks it with [np_random_seed]. *)
Definition add_log_normal_scatter (data : list R) (dex : ndval) (seed : Z)
  : list R :=
  if np_any_le0 dex then data
  else
    let sigma := nd_map (fun d => d * 2.302585) dex in
    let mu := nd_map (fun s => -0.5 * s ^ 2) sigma in
    let randscaling :=
      np_random_lognormal (seed * 13579)%Z mu sigma (length data) in
    np_where_pos_scaled data randscaling.

End Scatter.

(** ** Parameters and memory *)

(** [params.co_model_coeffs]: [None], a tuple of floats, a bare callable,
    or the tuple [(callable, sfr_calc[, sigma_sfr[, bad_extrapolation]])]
    read by the model [arbitrary]. *)
Inductive Coeffs : Type :=
| CNone
| CTuple (t : list R)
| CCallable (f : HaloCatalog -> list R)
| CArb (f : HaloCatalog -> list R) (sfr_calc : bool)
       (rest : option (R * option bool)).

(** [SimParameters].  An [option] marks an attribute that the code sets
    itself or reads under [try ... except AttributeError]; for
    [catalog_coeffs] the outer [None] is a missing attribute and
    [Some None] is Python's [None]. *)
Record SimParameters : Type := mkParams {
  model : string;
  co_model_coeffs : Coeffs;
  catalog_model : option string;
  catalog_coeffs : option (option (list R));
  codex : R;
  catdex : R;
  rho : R;
  lum_uncert_seed : option Z;
  save_scatterless_lums : option bool;
  min_mass : R;
  mass_cutoff : R;
  nu_rest : R;
  nu_i : R;
  nu_f : R;
  fov_x : R;
  fov_y : R;
  z_i : option R;
  z_f : option R;
  lcat_cutoff : R;
  goal_nobj : Z;
  obs_weight : string;
  vcat_seed : Z;
  verbose : bool;
}.

Definition set_catalog_coeffs (v : option (option (list R)))
  (p : SimParameters) : SimParameters :=
  mkParams (model p) (co_model_coeffs p) (catalog_model p) v
    (codex p) (catdex p) (rho p) (lum_uncert_seed p)
    (save_scatterless_lums p) (min_mass p) (mass_cutoff p) (nu_rest p)
    (nu_i p) (nu_f p) (fov_x p) (fov_y p) (z_i p) (z_f p) (lcat_cutoff p)
    (goal_nobj p) (obs_weight p) (vcat_seed p) (verbose p).

Definition set_catdex (v : R) (p : SimParameters) : SimParameters :=
  mkParams (model p) (co_model_coeffs p) (catalog_model p)
    (catalog_coeffs p) (codex p) v (rho p) (lum_uncert_seed p)
    (save_scatterless_lums p) (min_mass p) (mass_cutoff p) (nu_rest p)
    (nu_i p) (nu_f p) (fov_x p) (fov_y p) (z_i p) (z_f p) (lcat_cutoff p)
    (goal_nobj p) (obs_weight p) (vcat_seed p) (verbose p).

Definition set_lum_uncert_seed (v : option Z) (p : SimParameters)
  : SimParameters :=
  mkParams (model p) (co_model_coeffs p) (catalog_model p)
    (catalog_coeffs p) (codex p) (catdex p) (rho p) v
    (save_scatterless_lums p) (min_mass p) (mass_cutoff p) (nu_rest p)
    (nu_i p) (nu_f p) (fov_x p) (fov_y p) (z_i p) (z_f p) (lcat_cutoff p)
    (goal_nobj p) (obs_weight p) (vcat_seed p) (verbose p).

Definition set_z_window (zi zf : option R) (p : SimParameters)
  : SimParameters :=
  mkParams (model p) (co_model_coeffs p) (catalog_model p)
    (catalog_coeffs p) (codex p) (catdex p) (rho p) (lum_uncert_seed p)
    (save_scatterless_lums p) (min_mass p) (mass_cutoff p) (nu_rest p)
    (nu_i p) (nu_f p) (fov_x p) (fov_y p) zi zf (lcat_cutoff p)
    (goal_nobj p) (obs_weight p) (vcat_seed p) (verbose p).

(** The objects a call can mutate: the catalogue, the parameter object and
    the module global [sfr_interp_tab] ([None] until the table is built). *)
Record Mem : Type := mkMem {
  halos : HaloCatalog;
  params : SimParameters;
  sfr_interp_tab : option (R -> R -> R);
}.

(** ** The monad of Python calls *)

Definition Py (A : Type) : Type := Mem -> outcome A * Mem.

Definition ret {A : Type} (a : A) : Py A := fun m => (Returns a, m).

Definition bind {A B : Type} (c : Py A) (k : A -> Py B) : Py B := fun m =>
  match c m with
  | (Returns a, m') => k a m'
  | (Raises e, m') => (Raises e, m')
  | (SysExit msg, m') => (SysExit msg, m')
  end.

Declare Scope py_scope.
Delimit Scope py_scope with py.
Notation "x ← y ; z" := (bind y (fun x => z))
  (at level 20, y at level 100, z at level 200, only parsing) : py_scope.
Notation "' x ← y ; z" := (bind y (fun x => z))
  (at level 20, x pattern, y at level 100, z at level 200, only parsing)
  : py_scope.
Notation "x ;; z" := (bind x (fun _ => z))
  (at level 100, z at level 200, only parsing, right associativity) : py_scope.
Local Open Scope py_scope.

Definition raise {A : Type} (e : exn) : Py A := fun m => (Raises e, m).
Definition sys_exit {A : Type} (msg : string) : Py A :=
  fun m => (SysExit msg, m).

(** [np.random.seed(seed)]: the legacy generator takes a seed between [0]
    and [2**32 - 1] and refuses any other. *)
Definition np_random_seed (seed : Z) : Py unit :=
  if bool_decide (0 <= seed < 2 ^ 32)%Z then ret tt else raise ValueError.

(** [np.random.default_rng(seed)]: a negative seed is refused. *)
Definition default_rng (seed : Z) : Py unit :=
  if bool_decide (0 <= seed)%Z then ret tt else raise ValueError.

Definition get_halos : Py HaloCatalog := fun m => (Returns (halos m), m).
Definition get_params : Py SimParameters := fun m => (Returns (params m), m).
Definition put_halos (h : HaloCatalog) : Py unit :=
  fun m => (Returns tt, mkMem h (params m) (sfr_interp_tab m)).
Definition put_params (p : SimParameters) : Py unit :=
  fun m => (Returns tt, mkMem (halos m) p (sfr_interp_tab m)).

(** [hasattr(halos, name)] *)
Definition hasattr (name : string) : Py bool :=
  h ← get_halos; ret (bool_decide (is_Some (h !! name))).

(** [setattr(halos, name, v)] *)
Definition setattr (name : string) (v : hval) : Py unit :=
  h ← get_halos; put_halos (<[name := v]> h).

(** [getattr(halos, name)] where the code goes on to use a float array *)
Definition attr_array (h : HaloCatalog) (name : string)
  : outcome (list R) :=
  match h !! name with
  | Some (VArr a) => Returns a
  | Some _ => Raises TypeError
  | None => Raises AttributeError
  end.

Definition lift {A : Type} (o : outcome A) : Py A := fun m => (o, m).

Definition getattr_array (name : string) : Py (list R) :=
  h ← get_halos; lift (attr_array h name).

(** ** Array primitives of numpy used by the models *)

(** [x ** y] on floats *)
Definition np_power (x y : R) : R := Rpower x y.

(** [np.log10] of a positive float.  At zero and below numpy gives
    [-inf] and [nan], which the reals do not have: [halomassfunction] and
    [observation_cull], whose outcome depends on them, test the sign of
    the argument before they take its logarithm. *)
Definition np_log10 (x : R) : R := ln x / ln 10.

(** An elementwise binary operation; operands of different length do not
    broadcast (broadcasting of length-one arrays is not modelled). *)
Definition np_zip_with (f : R -> R -> R) (a b : list R) : Py (list R) :=
  if bool_decide (length a = length b) then ret (zip_with f a b)
  else raise ValueError.

(** [x0, ..., x(n-1) = coeffs], with the defaults taken for [None] *)
Definition unpack_coeffs (n : nat) (defaults : list R) (coeffs : Coeffs)
  : Py (list R) :=
  match coeffs with
  | CNone => ret defaults
  | CTuple t => if bool_decide (length t = n) then ret t else raise ValueError
  | CCallable _ | CArb _ _ _ => raise TypeError
  end.

(** ** SfrTable and LcoModelRegistry *)

Section Models.
Context (W : Externals).

Definition get_sfr_table (bad_extrapolation : bool) : R -> R -> R :=
  sfr_table_ev W bad_extrapolation.

(** [global sfr_interp_tab; if sfr_interp_tab is None: sfr_interp_tab =
    get_sfr_table(bad_extrapolation)] *)
Definition global_sfr_interp_tab (bad_extrapolation : bool)
  : Py (R -> R -> R) :=
  fun m =>
    match sfr_interp_tab m with
    | Some t => (Returns t, m)
    | None =>
        let t := get_sfr_table bad_extrapolation in
        (Returns t, mkMem (halos m) (params m) (Some t))
    end.

Definition Mhalo_to_sfr_Behroozi (sigma_sfr : R) (bad_extrapolation : bool)
  : Py (list R) :=
  sfr_interp_tab ← global_sfr_interp_tab bad_extrapolation;
  M ← getattr_array "M";
  redshift ← getattr_array "redshift";
  sfr ← np_zip_with
          (fun m z => sfr_interp_tab (np_log10 m) (np_log10 (z + 1)))
          M redshift;
  if Rltb 0 sigma_sfr
  then ret (add_log_normal_scatter W sfr (NdScalar sigma_sfr) 1)
  else ret sfr.

(** [if not hasattr(halos,'sfr'): halos.sfr = Mhalo_to_sfr_Behroozi(...)] *)
Definition sfr_if_missing (sigma_sfr : R) : Py unit :=
  has ← hasattr "sfr";
  if has then ret tt
  else sfr ← Mhalo_to_sfr_Behroozi sigma_sfr false; setattr "sfr" (VArr sfr).

Definition Mhalo_to_Lco_Li (coeffs : Coeffs) (scatter : bool) : Py ndval :=
  c ← unpack_coeffs 6 [0.0; 1.37; -1.74; 0.3; 0.3; 1.0] coeffs;
  let log_delta_mf := nth 0 c 0 in
  let alpha := nth 1 c 0 in
  let beta := nth 2 c 0 in
  let sigma_sfr := nth 3 c 0 in
  let sigma_lco := nth 4 c 0 in
  let scale := nth 5 c 0 in
  let delta_mf := np_power 10 log_delta_mf in
  sfr_if_missing sigma_sfr;;
  sfr ← getattr_array "sfr";
  let lir := map (fun s => s * 1e10 / delta_mf) sfr in
  let alphainv := 1 / alpha in
  let Lcop :=
    map (fun l => np_power l alphainv * np_power 10 (- beta * alphainv)) lir in
  let Lco := map (fun l => 4.9e-5 * l * scale) Lcop in
  if scatter
  then ret (NdArray (add_log_normal_scatter W Lco (NdScalar sigma_lco) 2))
  else ret (NdArray Lco).

Definition Mhalo_to_Lco_Li_sigmasc (coeffs : Coeffs) (scatter : bool)
  : Py ndval :=
  c ← unpack_coeffs 4 [0.0; 1.37; -1.74; 0.3] coeffs;
  let log_delta_mf := nth 0 c 0 in
  let alpha := nth 1 c 0 in
  let beta := nth 2 c 0 in
  let sigma_sc := nth 3 c 0 in
  let delta_mf := np_power 10 log_delta_mf in
  sfr_if_missing 0;;
  sfr ← getattr_array "sfr";
  let lir := map (fun s => s * 1e10 / delta_mf) sfr in
  let alphainv := 1 / alpha in
  let Lcop :=
    map (fun l => np_power l alphainv * np_power 10 (- beta * alphainv)) lir in
  let Lco := map (fun l => 4.9e-5 * l) Lcop in
  if scatter
  then ret (NdArray (add_log_normal_scatter W Lco (NdScalar sigma_sc) 2))
  else ret (NdArray Lco).

Definition Mhalo_to_Lco_Padmanabhan (coeffs : Coeffs) (scatter : bool)
  : Py ndval :=
  c ← unpack_coeffs 9
        [4.17e12; -1.17; 0.0033; 0.04; 0.95; 0.48; 0.66; -0.33; 1] coeffs;
  let m10 := nth 0 c 0 in
  let m11 := nth 1 c 0 in
  let n10 := nth 2 c 0 in
  let n11 := nth 3 c 0 in
  let b10 := nth 4 c 0 in
  let b11 := nth 5 c 0 in
  let y10 := nth 6 c 0 in
  let y11 := nth 7 c 0 in
  let fduty := nth 8 c 0 in
  z ← getattr_array "redshift";
  hm ← getattr_array "M";
  Lco ← np_zip_with (fun hm z =>
           let m1 := np_power 10 (np_log10 m10 + m11 * z / (z + 1)) in
           let n := n10 + n11 * z / (z + 1) in
           let b := b10 + b11 * z / (z + 1) in
           let y := y10 + y11 * z / (z + 1) in
           let Lprime :=
             2 * n * hm / (np_power (hm / m1) (- b) + np_power (hm / m1) y) in
           4.9e-5 * Lprime * fduty) hm z;
  ret (NdArray Lco).

(** The double power law in halo mass shared by [fiuducial] and by the
    catalogue test models: [4.9e-5 * C / ((Mh/M)**A + (Mh/M)**B)]. *)
Definition double_power_law (A B logC logM : R) (Mh : R) : R :=
  let C := np_power 10 logC in
  let M := np_power 10 logM in
  let Lprime := C / (np_power (Mh / M) A + np_power (Mh / M) B) in
  4.9e-5 * Lprime.

Definition Mhalo_to_Lco_fiuducial (coeffs : Coeffs) (scatter : bool)
  : Py ndval :=
  c ← unpack_coeffs 5 [-2.85; -0.42; 10.63; 12.3; 0.42] coeffs;
  let A := nth 0 c 0 in
  let B := nth 1 c 0 in
  let logC := nth 2 c 0 in
  let logM := nth 3 c 0 in
  let sigma := nth 4 c 0 in
  Mh ← getattr_array "M";
  let Lco := map (double_power_law A B logC logM) Mh in
  if scatter
  then ret (NdArray (add_log_normal_scatter W Lco (NdScalar sigma) 3))
  else ret (NdArray Lco).

Definition Mhalo_to_Lco_Yang (coeffs : Coeffs) (scatter : bool) : Py ndval :=
  match coeffs with
  | CNone =>
      z ← getattr_array "redshift";
      Mh ← getattr_array "M";
      Lco ← np_zip_with (fun Mh z =>
               let logM1 := 12.13 - 0.1678 * z in
               let logN := -6.855 + 0.2366 * z - 0.05013 * z ^ 2 in
               let alpha := 1.642 + 0.1663 * z - 0.03238 * z ^ 2 in
               let beta := 1.77 * exp (-1 / 2.72) - 0.00827 in
               let M1 := np_power 10 logM1 in
               let N := np_power 10 logN in
               let Lco :=
                 2 * N * Mh
                 / (np_power (Mh / M1) (- alpha) + np_power (Mh / M1) (- beta))
               in
               let logM2 := 11.73 + 0.6634 * z in
               let gamma := 1.37 - 0.190 * z + 0.0215 * z ^ 2 in
               let M2 := np_power 10 logM2 in
               let fduty := 1 / (1 + np_power (Mh / M2) gamma) in
               Lco * fduty) Mh z;
      let sigmaco := map (fun z => 0.357 - 0.0701 * z + 0.00621 * z ^ 2) z in
      if scatter
      then ret (NdArray (add_log_normal_scatter W Lco (NdArray sigmaco) 4))
      else ret (NdArray Lco)
  | _ => ret (NdScalar 0)
  end.

Definition Mhalo_to_Lco_arbitrary (coeffs : Coeffs) (scatter : bool)
  : Py ndval :=
  match coeffs with
  | CCallable lco_func =>
      sfr ← Mhalo_to_sfr_Behroozi 0.3 false;
      setattr "sfr" (VArr sfr);;
      h ← get_halos; ret (NdArray (lco_func h))
  | CArb lco_func sfr_calc rest =>
      let sigma_sfr := from_option fst 0.3 rest in
      let bad_extrapolation := from_option (fun r => default false r.2) false rest in
      (if sfr_calc
       then sfr ← Mhalo_to_sfr_Behroozi sigma_sfr bad_extrapolation;
            setattr "sfr" (VArr sfr)
       else ret tt);;
      h ← get_halos; ret (NdArray (lco_func h))
  | CNone => raise TypeError
  | CTuple t =>
      (* a tuple of floats: the unpacking of [coeffs[:2]] needs two entries,
         the second is tested for truth, and the first is not callable *)
      if bool_decide (length t < 2)%nat then raise ValueError
      else
        let sigma_sfr := if bool_decide (2 < length t)%nat then nth 2 t 0 else 0.3 in
        let bad_extrapolation :=
          if bool_decide (3 < length t)%nat
          then negb (bool_decide (nth 3 t 0 = 0)) else false in
        (if bool_decide (nth 1 t 0 = 0) then ret tt
         else sfr ← Mhalo_to_sfr_Behroozi sigma_sfr bad_extrapolation;
              setattr "sfr" (VArr sfr));;
        raise TypeError
  end.

(** The string of a line feed and of a tab, for the messages of [sys.exit] *)
Definition nl : string := String "010"%char EmptyString.
Definition ht : string := String "009"%char EmptyString.

(** The local [dict] of [Mhalo_to_Lco] *)
Definition Lco_dict : gmap string (Coeffs -> bool -> Py ndval) :=
  <["Li" := Mhalo_to_Lco_Li]>
  (<["Li_sc" := Mhalo_to_Lco_Li_sigmasc]>
  (<["Padmanabhan" := Mhalo_to_Lco_Padmanabhan]>
  (<["fiuducial" := Mhalo_to_Lco_fiuducial]>
  (<["Yang" := Mhalo_to_Lco_Yang]>
  (<["arbitrary" := Mhalo_to_Lco_arbitrary]> ∅))))).

Definition Lco_exit_message (model : string) : string :=
  nl +:+ nl +:+ ht +:+ "Your model, " +:+ model
  +:+ ", does not seem to exist" +:+ nl +:+ ht +:+ ht
  +:+ "Please check src/halos_to_luminosity.py to add it" +:+ nl +:+ nl.

Definition Mhalo_to_Lco (scatter : bool) : Py ndval :=
  p ← get_params;
  match Lco_dict !! model p with
  | Some f => f (co_model_coeffs p) scatter
  | None => sys_exit (Lco_exit_message (model p))
  end.

End Models.

(** ** More array primitives: grids, histograms, interpolation *)

Definition sum_list (l : list R) : R := foldr Rplus 0 l.

(** [np.linspace(start, stop, num)] *)
Definition np_linspace (start stop : R) (num : nat) : list R :=
  let step := (stop - start) / INR (num - 1) in
  map (fun i => INR i * step + start) (seq 0 num).

(** [np.logspace(start, stop, num)] *)
Definition np_logspace (start stop : R) (num : nat) : list R :=
  map (np_power 10) (np_linspace start stop num).

(** [a[1:] - a[:-1]] *)
Definition np_diff (a : list R) : list R :=
  zip_with Rminus (drop 1 a) (take (length a - 1) a).

(** [np.flip] *)
Definition np_flip (a : list R) : list R := reverse a.

(** [[np.sum(a[i:]) for i, _ in enumerate(cents)]] *)
Definition tail_sums (cents a : list R) : list R :=
  map (fun i => sum_list (drop i a)) (seq 0 (length cents)).

Definition list_min (x : R) (l : list R) : R := foldr Rmin x l.
Definition list_max (x : R) (l : list R) : R := foldr Rmax x l.

(** The edges of [np.histogram(a, bins)]: [bins + 1] equally spaced points
    over [(a.min(), a.max())], widened by a half on each side when the two
    coincide, and over [(0, 1)] for an empty array. *)
Definition histogram_edges (a : list R) (bins : nat) : list R :=
  match a with
  | [] => np_linspace 0 1 (bins + 1)
  | x :: l =>
      let lo := list_min x l in
      let hi := list_max x l in
      if bool_decide (lo = hi)
      then np_linspace (lo - 0.5) (hi + 0.5) (bins + 1)
      else np_linspace lo hi (bins + 1)
  end.

(** The counts of [np.histogram]: bin [i] holds the values in
    [[edges[i], edges[i+1])], and the last bin also its right edge. *)
Definition histogram_counts (a edges : list R) (bins : nat) : list nat :=
  map (fun i =>
         let lo := nth i edges 0 in
         let hi := nth (S i) edges 0 in
         length (filter (fun x =>
                   Rleb lo x
                   && (if bool_decide (S i = bins) then Rleb x hi
                       else Rltb x hi)) a))
      (seq 0 bins).

Definition np_histogram (a : list R) (bins : nat) : list nat * list R :=
  let edges := histogram_edges a bins in
  (histogram_counts a edges bins, edges).

(** The linear piece of [np.interp] that holds [x], for [xp[0] <= x]: the
    first [j] with [x < xp[j+1]]; past the last sample point the value is
    [fp[-1]].  (numpy finds [j] by bisection, which is this [j] when [xp]
    increases, as its documentation requires.) *)
Fixpoint interp_pieces (x : R) (xp fp : list R) : R :=
  match xp, fp with
  | x0 :: xp', f0 :: fp' =>
      match xp', fp' with
      | x1 :: _, f1 :: _ =>
          if Rltb x x1 then (f1 - f0) / (x1 - x0) * (x - x0) + f0
          else interp_pieces x xp' fp'
      | _, _ => f0
      end
  | _, _ => 0
  end.

(** [np.interp(x, xp, fp)] at one point, with [left = fp[0]] *)
Definition interp_at (xp fp : list R) (x : R) : R :=
  match xp, fp with
  | x0 :: _, f0 :: _ => if Rltb x x0 then f0 else interp_pieces x xp fp
  | _, _ => 0
  end.

(** [np.interp(x, xp, fp)]: a [ValueError] for no sample point or for
    [xp] and [fp] of different length *)
Definition np_interp (x xp fp : list R) : Py (list R) :=
  if bool_decide (xp = []) || negb (bool_decide (length xp = length fp))
  then raise ValueError
  else ret (map (interp_at xp fp) x).

(** ** AbundanceMatcher and LcatModelRegistry *)

(** What a catalogue model returns: the tuple [(Lcat, params)], whose
    second component is the parameter object of the memory, or a bare
    array. *)
Inductive catret : Type :=
| RetPair (Lcat : list R) (p : SimParameters)
| RetBare (Lcat : list R).

Section Catalog.
Context (W : Externals).

(** [schechter(L, coeffs)] *)
Definition schechter (L : list R) (coeffs : list R) : Py (list R) :=
  match coeffs with
  | [Lstar; phistar; alpha; _; _] =>
      ret (map (fun L =>
                  (phistar / Lstar) * np_power (L / Lstar) alpha
                  * exp (- L / Lstar)) L)
  | _ => raise ValueError
  end.

(** The attribute [halos.cosmo] *)
Definition getattr_cosmo : Py Cosmology :=
  h ← get_halos;
  match h !! "cosmo" with
  | Some (VCosmo c) => ret c
  | Some _ => raise AttributeError
  | None => raise AttributeError
  end.

(** An attribute of [params] that [cull] sets *)
Definition param_set (v : option R) : Py R :=
  match v with
  | Some x => ret x
  | None => raise AttributeError
  end.

Definition halomassfunction : Py (list R * list R) :=
  M ← getattr_array "M";
  (* [np.log10] of a mass that is zero or negative is [-inf] or [nan], and
     [np.histogram] refuses a range that is not finite *)
  if existsb (fun Mh => Rleb Mh 0) M then raise ValueError else
  let '(N, logMprime) := np_histogram (map np_log10 M) 500 in
  let dlogMprime := np_diff logMprime in
  let logMprimecents :=
    zip_with (fun e d => e + d / 2)
      (take (length logMprime - 1) logMprime) dlogMprime in
  cosmo ← getattr_cosmo;
  p ← get_params;
  z_f ← param_set (z_f p);
  z_i ← param_set (z_i p);
  let volumeslice := comoving_volume W cosmo z_f - comoving_volume W cosmo z_i in
  (* [.to(u.Mpc**3)]: a square degree is [(pi/180)**2] steradian *)
  let vol :=
    volumeslice / (4 * PI) * (fov_x p * fov_y p * (PI / 180) ^ 2) in
  let dndlogM := map (fun n => INR n / vol) N in
  let dndlogMdlogM := zip_with Rmult dndlogM dlogMprime in
  let intnM := tail_sums logMprimecents dndlogMdlogM in
  ret (logMprimecents, intnM).

(** [coeffs[-2]] and [coeffs[-1]] *)
Definition last_two (coeffs : list R) : Py (R * R) :=
  match reverse coeffs with
  | c1 :: c2 :: _ => ret (c2, c1)
  | _ => raise IndexError
  end.

Definition abundancematch (function : list R -> list R -> Py (list R))
  (coeffs : list R) : Py catret :=
  '(Lmin, Lmax) ← last_two coeffs;
  let logLprime := map np_log10 (np_logspace Lmin Lmax 101) in
  let dlogLprime := np_diff logLprime in
  let dLprime := np_diff (map (np_power 10) logLprime) in
  let logLprimecents :=
    zip_with (fun l d => l + d / 2)
      (take (length logLprime - 1) logLprime) dlogLprime in
  phiLarr ← function (map (np_power 10) logLprimecents) coeffs;
  let phiLdL := zip_with Rmult phiLarr dLprime in
  let intL := tail_sums logLprimecents phiLdL in
  '(logMprimecents, intnM) ← halomassfunction;
  M ← getattr_array "M";
  intMforM ← np_interp (map np_log10 M) logMprimecents intnM;
  LforintM ← np_interp intMforM (np_flip intL) (np_flip logLprimecents);
  let Lcat := map (fun l => np_power 10 l / 3.826e33) LforintM in
  setattr "Lcat" (VArr Lcat);;
  p ← get_params;
  ret (RetPair Lcat p).

(** [params.catdex = v] *)
Definition set_params_catdex (v : R) : Py unit :=
  p ← get_params; put_params (set_catdex v p).

Definition Mhalo_to_LLya_Chung : Py catret :=
  let sigma_sfr := 0.3 in
  sfr_if_missing W sigma_sfr;;
  z ← getattr_array "redshift";
  sfr ← getattr_array "sfr";
  Llya ← np_zip_with (fun z sfr =>
            let fesc :=
              np_power (1 + exp (-1.6 * z + 5)) (-0.5)
              * (0.18 + 0.82 / (1 + 0.8 * np_power sfr 0.875)) ^ 2 in
            1.6e42 * sfr * fesc / 3.826e33) z sfr;
  set_params_catdex sigma_sfr;;
  p ← get_params;
  ret (RetPair Llya p).

(** [if not params.catalog_coeffs: params.catalog_coeffs = defaults] *)
Definition default_catalog_coeffs (defaults : list R) : Py (list R) :=
  p ← get_params;
  match catalog_coeffs p with
  | None => raise AttributeError
  | Some (Some (c :: t)) => ret (c :: t)
  | Some None | Some (Some []) =>
      put_params (set_catalog_coeffs (Some (Some defaults)) p);;
      ret defaults
  end.

Definition Mhalo_to_Lcatalog_schechter : Py catret :=
  coeffs ← default_catalog_coeffs [0.849e43; 3.9e-4; -1.8; 39; 45];
  abundancematch schechter coeffs.

Definition Mhalo_to_Lcatalog_schechter_amp : Py catret :=
  coeffs ← default_catalog_coeffs [1; 0.849e43; 3.9e-4; -1.8; 39; 45];
  r ← abundancematch schechter (drop 1 coeffs);
  match r with
  | RetPair Llya _ =>
      (* [Llya *= coeffs[0]] scales the array that [halos.Lcat] holds too *)
      let Llya := map (fun l => l * nth 0 coeffs 0) Llya in
      setattr "Lcat" (VArr Llya);;
      p ← get_params;
      ret (RetPair Llya p)
  | RetBare _ => raise ValueError
  end.

(** The coefficients of the two test models: [params.catalog_coeffs], or
    the defaults for [None] or a missing attribute; they are recorded on
    the catalogue once they are unpacked. *)
Definition test_model_coeffs (defaults : list R) : Py (list R) :=
  p ← get_params;
  match catalog_coeffs p with
  | None | Some None =>
      setattr "catalog_coeffs" (VTuple defaults);; ret defaults
  | Some (Some coeffs) =>
      if bool_decide (length coeffs = 5%nat)
      then setattr "catalog_coeffs" (VTuple coeffs);; ret coeffs
      else raise ValueError
  end.

Definition Mhalo_to_Lcatalog_test1 : Py catret :=
  c ← test_model_coeffs [-2; -0.5; 11; 13; 0.5];
  let A := nth 0 c 0 in
  let B := nth 1 c 0 in
  let logC := nth 2 c 0 in
  let logM := nth 3 c 0 in
  let sigma := nth 4 c 0 in
  Mh ← getattr_array "M";
  let Lcatalog := map (double_power_law A B logC logM) Mh in
  set_params_catdex sigma;;
  p ← get_params;
  ret (RetPair Lcatalog p).

Definition Mhalo_to_Lcatalog_test2 : Py catret :=
  c ← test_model_coeffs [0.5; 2; 11; 12; 0.5];
  let A := nth 0 c 0 in
  let B := nth 1 c 0 in
  let logC := nth 2 c 0 in
  let logM := nth 3 c 0 in
  let sigma := nth 4 c 0 in
  Mh ← getattr_array "M";
  let Lcatalog := map (double_power_law A B logC logM) Mh in
  set_params_catdex sigma;;
  ret (RetBare Lcatalog).

(** The local [dict] of [Mhalo_to_Lcatalog] *)
Definition Lcat_dict : gmap string (Py catret) :=
  <["lya_chung" := Mhalo_to_LLya_Chung]>
  (<["schechter" := Mhalo_to_Lcatalog_schechter]>
  (<["schechter_amp" := Mhalo_to_Lcatalog_schechter_amp]>
  (<["default" := Mhalo_to_Lcatalog_test1]>
  (<["test2" := Mhalo_to_Lcatalog_test2]> ∅)))).

Definition Lcat_exit_message (model : string) : string :=
  nl +:+ nl +:+ ht +:+ "Your catalog model, " +:+ model
  +:+ ", does not seem to exist" +:+ nl +:+ ht +:+ ht
  +:+ "Please check src/halos_to_luminosity.py to add it" +:+ nl +:+ nl.

Definition Mhalo_to_Lcatalog : Py catret :=
  p ← get_params;
  match catalog_model p with
  | Some model =>
      match Lcat_dict !! model with
      | Some f => f
      | None => sys_exit (Lcat_exit_message model)
      end
  | None => raise TypeError   (* [str + None] *)
  end.

End Catalog.

(** ** Correlated scatter and the LuminosityPipeline *)

Section Pipeline.
Context (W : Externals).

Definition add_co_tracer_dependant_scatter (rho codex catdex : R) (seed : Z)
  : Py unit :=
  if Rleb codex 0 || Rleb catdex 0 then ret tt
  else
    default_rng seed;;
    let sigmaco := codex * 2.30285 in
    let muco := -0.5 * sigmaco ^ 2 in
    let sigmatr := catdex * 2.30285 in
    let mutr := -0.5 * sigmatr ^ 2 in
    let cov := [[sigmaco ^ 2; sigmaco * sigmatr * rho];
                [sigmaco * sigmatr * rho; sigmatr ^ 2]] in
    setattr "cov" (VMatrix cov);;
    Lco ← getattr_array "Lco";
    let draws := map (multivariate_normal W seed cov) (seq 0 (length Lco)) in
    let coscale := map fst draws in
    let trscale := map snd draws in
    let logscaleco := map (fun c => exp (c + muco)) coscale in
    let logscaletr := map (fun t => exp (t + mutr)) trscale in
    Lco' ← np_zip_with Rmult Lco logscaleco;
    setattr "Lco" (VArr Lco');;
    Lcat ← getattr_array "Lcat";
    Lcat' ← np_zip_with Rmult Lcat logscaletr;
    setattr "Lcat" (VArr Lcat').

(** The value stored for a luminosity that a CO model returned *)
Definition hval_of_ndval (v : ndval) : hval :=
  match v with
  | NdArray a => VArr a
  | NdScalar x => VFloat x
  end.

(** [halos.<dst> = copy.deepcopy(halos.<src>)] *)
Definition deepcopy_attr (dst src : string) : Py unit :=
  h ← get_halos;
  match h !! src with
  | Some v => setattr dst v
  | None => raise AttributeError
  end.

(** [halos.Lcat, params = <value returned by the catalogue model>]: a tuple
    unpacks into its two components; an array unpacks only when it has two
    entries, and then a float is bound to [params], whose attributes the
    next statement reads. *)
Definition unpack_Lcat_params (r : catret) : Py unit :=
  match r with
  | RetPair Lcat _ => setattr "Lcat" (VArr Lcat)
  | RetBare [l0; _] => setattr "Lcat" (VFloat l0);; raise AttributeError
  | RetBare _ => raise ValueError
  end.

Definition Mhalo_to_Ls : Py unit :=
  p ← get_params;
  (match lum_uncert_seed p with
   | Some _ => ret tt
   | None => put_params (set_lum_uncert_seed (Some 12345%Z) p)
   end);;
  Lco ← Mhalo_to_Lco W false;
  setattr "Lco" (hval_of_ndval Lco);;
  p ← get_params;
  let seed := default 12345%Z (lum_uncert_seed p) in
  let truthy_model :=
    match catalog_model p with
    | Some s => negb (bool_decide (s = ""))
    | None => false
    end in
  if truthy_model then
    r ← Mhalo_to_Lcatalog W;
    unpack_Lcat_params r;;
    p ← get_params;
    (if default false (save_scatterless_lums p)
     then deepcopy_attr "scatterless_Lco" "Lco";;
          deepcopy_attr "scatterless_Lcat" "Lcat"
     else ret tt);;
    add_co_tracer_dependant_scatter (rho p) (codex p) (catdex p) seed
  else
    (if default false (save_scatterless_lums p)
     then deepcopy_attr "scatterless_Lco" "Lco"
     else ret tt);;
    match Lco with
    | NdArray a =>
        (* the generator is seeded once the width has passed the guard *)
        (if Rleb (codex p) 0 then ret tt
         else np_random_seed (seed * 13579));;
        setattr "Lco"
          (VArr (add_log_normal_scatter W a (NdScalar (codex p)) seed))
    | NdScalar _ =>
        (* the seeding, then [data.shape] of a Python number *)
        if Rleb (codex p) 0 then ret tt
        else np_random_seed (seed * 13579);; raise AttributeError
    end.

End Pipeline.

(** ** HaloCatalogOps: the methods of [HaloCatalog] *)

(** The names that [dir(self)] lists besides the instance attributes and
    the names with a leading underscore: the methods of the class. *)
Definition HaloCatalog_methods : list string :=
  ["attrcut_subset"; "copy"; "cull"; "get_velocities"; "indexcut"; "load";
   "load_luminosities"; "masscut_subset"; "observation_cull";
   "offset_velocities"; "vmaxcut_subset"; "write_cat"].

Definition string_le (s1 s2 : string) : Prop := String.leb s1 s2 = true.

#[export] Instance string_le_dec : RelDecision string_le.
Proof. intros s1 s2; unfold string_le; apply _. Defined.

(** [dir(self)]: the names in alphabetical order, each once *)
Definition dir (self : HaloCatalog) : list string :=
  merge_sort string_le
    (remove_dups (HaloCatalog_methods ++ (map_to_list self).*1)).

(** [a[idx]] for an integer index array: an [IndexError] out of range *)
Definition np_take (a : list R) (idx : list nat) : option (list R) :=
  mapM (fun i => a !! i) idx.

(** [getattr(self, i)[idx]]: only an array can be subscripted by an index
    array; a method, a Python number, a tuple, a list or the cosmology
    raises [TypeError]. *)
Definition subscript (v : option hval) (idx : list nat) : outcome hval :=
  match v with
  | Some (VArr a) =>
      match np_take a idx with
      | Some a' => Returns (VArr a')
      | None => Raises IndexError
      end
  | _ => Raises TypeError
  end.

(** [i[0] == '_'] *)
Definition leading_underscore (i : string) : bool :=
  match i with
  | String c _ => bool_decide (c = "_"%char)
  | EmptyString => false
  end.

(** [len(self.M)] *)
Definition len_M (self : HaloCatalog) : outcome Z :=
  match self !! "M" with
  | Some (VArr a) => Returns (Z.of_nat (length a))
  | Some _ => Raises TypeError
  | None => Raises AttributeError
  end.

(** The loop of the in-place branch of [indexcut] and [attrcut_subset]:
    [[
      for i in dir(self):
          if i[0]=='_': continue
          try:
              setattr(self, i, getattr(self,i)[idx])
          except TypeError:
              pass
          self.nhalo = len(self.M)
    ]]
    The result is the outcome and the catalogue as the loop leaves it. *)
Fixpoint cut_in_place (idx : list nat) (names : list string)
  (self : HaloCatalog) : outcome unit * HaloCatalog :=
  match names with
  | [] => (Returns tt, self)
  | i :: names =>
      if leading_underscore i then cut_in_place idx names self
      else
        let attempt :=
          match subscript (self !! i) idx with
          | Returns v => Returns (<[i := v]> self)
          | Raises TypeError => Returns self
          | Raises e => Raises e
          | SysExit msg => SysExit msg
          end in
        match attempt with
        | Returns self =>
            match len_M self with
            | Returns n => cut_in_place idx names (<["nhalo" := VInt n]> self)
            | Raises e => (Raises e, self)
            | SysExit msg => (SysExit msg, self)
            end
        | Raises e => (Raises e, self)
        | SysExit msg => (SysExit msg, self)
        end
  end.

(** The loop of the copying branch:
    [[
      for i in dir(self):
          if i[0]=='_': continue
          try:
              setattr(subset, i, getattr(self,i)[idx])
          except TypeError:
              pass
    ]] *)
Fixpoint cut_copy (idx : list nat) (names : list string)
  (self subset : HaloCatalog) : outcome unit * HaloCatalog :=
  match names with
  | [] => (Returns tt, subset)
  | i :: names =>
      if leading_underscore i then cut_copy idx names self subset
      else
        match subscript (self !! i) idx with
        | Returns v => cut_copy idx names self (<[i := v]> subset)
        | Raises TypeError => cut_copy idx names self subset
        | Raises e => (Raises e, subset)
        | SysExit msg => (SysExit msg, subset)
        end
  end.

(** The body shared by [indexcut] and [attrcut_subset] once the index
    array is known.  The result is [Some subset] for the copy that the
    call returns and [None] for Python's [None]. *)
Definition cut (idx : list nat) (in_place : bool)
  : Py (option HaloCatalog) := fun m =>
  let self := halos m in
  if in_place then
    match cut_in_place idx (dir self) self with
    | (Returns _, self') =>
        (Returns None, mkMem self' (params m) (sfr_interp_tab m))
    | (Raises e, self') =>
        (Raises e, mkMem self' (params m) (sfr_interp_tab m))
    | (SysExit msg, self') =>
        (SysExit msg, mkMem self' (params m) (sfr_interp_tab m))
    end
  else
    match cut_copy idx (dir self) self self with
    | (Returns _, subset) =>
        match len_M subset with
        | Returns n => (Returns (Some (<["nhalo" := VInt n]> subset)), m)
        | Raises e => (Raises e, m)
        | SysExit msg => (SysExit msg, m)
        end
    | (Raises e, _) => (Raises e, m)
    | (SysExit msg, _) => (SysExit msg, m)
    end.

Definition indexcut (idx : list nat) (in_place : bool)
  : Py (option HaloCatalog) :=
  cut idx in_place.

(** [np.where(mask)[0]] for a mask given by its test at each position *)
Definition np_where (n : nat) (mask : nat -> bool) : list nat :=
  filter (fun i => mask i = true) (seq 0 n).

(** [attrcut_subset(attr, minval, maxval, params, in_place)].  [params] is
    a required positional parameter: a call that does not supply it
    ([None] here) raises [TypeError] when the arguments are bound, before
    the body runs. *)
Definition attrcut_subset (attr : string) (minval maxval : R)
  (params : option SimParameters) (in_place : bool)
  : Py (option HaloCatalog) :=
  match params with
  | None => raise TypeError
  | Some params =>
      a ← getattr_array attr;
      let keepidx :=
        np_where (length a)
          (fun i => Rltb minval (nth i a 0) && Rleb (nth i a 0) maxval) in
      cut keepidx in_place
  end.

Definition masscut_subset (min_mass max_mass : R) (in_place : bool)
  : Py (option HaloCatalog) :=
  if in_place
  then attrcut_subset "M" min_mass max_mass None true;; ret None
  else attrcut_subset "M" min_mass max_mass None false.

Definition vmaxcut_subset (min_vmax max_vmax : R) (in_place : bool)
  : Py (option HaloCatalog) :=
  if in_place
  then attrcut_subset "vmax" min_vmax max_vmax None true;; ret None
  else attrcut_subset "vmax" min_vmax max_vmax None false.

(** [np.argsort(a)]: the indices that sort [a] into non-decreasing order.
    (The order numpy gives to equal entries is not specified; this is one
    of them.) *)
Definition np_argsort (a : list R) : list nat :=
  merge_sort (fun i j => nth i a 0 <= nth j a 0) (seq 0 (length a)).

(** [np.nanmax(a)]: a [ValueError] for an empty array *)
Definition np_nanmax (a : list R) : Py R :=
  match a with
  | [] => raise ValueError
  | x :: l => ret (list_max x l)
  end.

(** [self.nhalo] *)
Definition getattr_nhalo : Py Z :=
  h ← get_halos;
  match h !! "nhalo" with
  | Some (VInt n) => ret n
  | Some _ => raise TypeError
  | None => raise AttributeError
  end.

Section Methods.
Context (W : Externals).

(** The test of [cull] at position [i] *)
Definition cull_mask (p : SimParameters) (z_i z_f : R)
  (M redshift ra dec : list R) (i : nat) : bool :=
  Rltb (min_mass p) (nth i M 0)
  && Rltb (nth i M 0) (mass_cutoff p)
  && Rleb z_i (nth i redshift 0)
  && Rleb (nth i redshift 0) z_f
  && Rleb (Rabs (nth i ra 0)) (fov_x p / 2)
  && Rleb (Rabs (nth i dec 0)) (fov_y p / 2).

(** The redshift window of [cull]: the limits in frequency converted, and
    exchanged when they are the wrong way round *)
Definition z_window (p : SimParameters) : R * R :=
  let z_i := freq_to_z W (nu_rest p) (nu_i p) in
  let z_f := freq_to_z W (nu_rest p) (nu_f p) in
  if Rltb z_f z_i then (z_f, z_i) else (z_i, z_f).

Definition cull : Py unit :=
  p ← get_params;
  let '(z_i, z_f) := z_window p in
  put_params (set_z_window (Some z_i) (Some z_f) p);;
  M ← getattr_array "M";
  redshift ← getattr_array "redshift";
  ra ← getattr_array "ra";
  dec ← getattr_array "dec";
  if bool_decide (length redshift = length M
                  /\ length ra = length M /\ length dec = length M)
  then
    let goodidx :=
      np_where (length M) (cull_mask p z_i z_f M redshift ra dec) in
    indexcut goodidx true;;
    M ← getattr_array "M";
    let sortidx := reverse (np_argsort M) in
    indexcut sortidx true;;
    ret tt
  else raise ValueError.

(** [rng.choice(a, size, replace=False, p=p)] for the generator seeded with
    [seed], [size > 0] and finite probabilities [p]: the arguments that
    numpy refuses with a [ValueError], then the draw. *)
Definition Generator_choice (seed a size : Z) (p : list R)
  : Py (list nat) :=
  let n := Z.to_nat a in
  let k := Z.to_nat size in
  if bool_decide (a <= 0)%Z then raise ValueError
  else if negb (bool_decide (length p = n)) then raise ValueError
  else if existsb (fun x => Rltb x 0) p then raise ValueError
  else if Rltb (/ 2 ^ 26) (Rabs (sum_list p - 1)) then raise ValueError
  else if bool_decide (n < k)%nat then raise ValueError
  else if bool_decide (length (filter (fun x => (0 < x)%R) p) < k)%nat
       then raise ValueError
  else ret (choice_draw W seed n k p).

(** The local [weights] of [observation_cull] when [rng.choice] is
    called: never assigned, an array with an entry that is [nan] or
    infinite, or an array of finite weights. *)
Inductive weights_val : Type :=
| Unbound
| NonFinite
| Weights (w : list R).

(** The two assignments of [weights]; any other setting of [obs_weight]
    leaves the local unbound.  A quotient by a sum that is zero, and the
    logarithm of a luminosity that is zero or negative, give entries that
    are not finite. *)
Definition observation_weights (obs_weight : string) : Py weights_val :=
  if bool_decide (obs_weight = "linear") then
    Lcat ← getattr_array "Lcat";
    let total := sum_list Lcat in
    if bool_decide (Lcat <> [] /\ total = 0) then ret NonFinite
    else ret (Weights (map (fun l => l / total) Lcat))
  else if bool_decide (obs_weight = "log") then
    Lcat ← getattr_array "Lcat";
    let total := sum_list (map np_log10 Lcat) in
    if existsb (fun l => Rleb l 0) Lcat then ret NonFinite
    else if bool_decide (Lcat <> [] /\ total = 0) then ret NonFinite
    else ret (Weights (map (fun l => np_log10 l / total) Lcat))
  else ret Unbound.

(** The statements of [observation_cull] under [if params.goal_nobj > 0],
    on the object that is cut: the generator is created first, and
    [self.nhalo] is read before [weights] when the arguments of
    [rng.choice] are evaluated. *)
Definition observation_draw (p : SimParameters) : Py unit :=
  default_rng (vcat_seed p);;
  weights ← observation_weights (obs_weight p);
  nhalo ← getattr_nhalo;
  match weights with
  | Unbound => raise UnboundLocalError
  | NonFinite => raise ValueError   (* refused by [rng.choice] *)
  | Weights w =>
      keepidx ← Generator_choice (vcat_seed p) nhalo (goal_nobj p) w;
      indexcut keepidx true;;
      ret tt
  end.

(** The statements of [observation_cull] on the object that is cut *)
Definition observation_cull_on_self : Py unit :=
  p ← get_params;
  Lcat ← getattr_array "Lcat";
  maxval ← np_nanmax Lcat;
  attrcut_subset "Lcat" (lcat_cutoff p) (maxval + 10) (Some p) true;;
  if bool_decide (0 < goal_nobj p)%Z then observation_draw p else ret tt.

(** [halos = self.copy()], the statements run on [halos], [self] kept *)
Definition on_copy (c : Py unit) : Py HaloCatalog := fun m =>
  match c m with
  | (Returns _, m') =>
      (Returns (halos m'), mkMem (halos m) (params m') (sfr_interp_tab m'))
  | (Raises e, m') =>
      (Raises e, mkMem (halos m) (params m') (sfr_interp_tab m'))
  | (SysExit msg, m') =>
      (SysExit msg, mkMem (halos m) (params m') (sfr_interp_tab m'))
  end.

(** [if params.verbose: print(... % self.nhalo)] *)
Definition report_nhalo : Py unit :=
  p ← get_params;
  if verbose p then getattr_nhalo;; ret tt else ret tt.

Definition observation_cull (in_place : bool) : Py (option HaloCatalog) :=
  if in_place
  then observation_cull_on_self;; report_nhalo;; ret None
  else halos ← on_copy observation_cull_on_self;
       report_nhalo;; ret (Some halos).

End Methods.

(** ** A world to run the code in

    One instance of [Externals]: every normal deviate is [0], the table of
    star formation rates is constantly [1], a frequency converts to
    [nu_rest / nu_obs - 1], the comoving volume out to [z] is [z], and the
    generator draws the first [size] indices of positive weight. *)

Definition first_positive (n size : nat) (p : list R) : list nat :=
  take size (filter (fun i => 0 < nth i p 0) (seq 0 n)).

Lemma filter_ext_elem {A} (P Q : A -> Prop) `{!forall x, Decision (P x)}
  `{!forall x, Decision (Q x)} (l : list A) :
  (forall x, x ∈ l -> (P x <-> Q x)) -> filter P l = filter Q l.
Proof.
  induction l as [|x l IH]; intros Hl; [done|].
  rewrite !filter_cons.
  rewrite IH by (intros y Hy; apply Hl; by right).
  pose proof (Hl x (list_elem_of_here x l)) as Hx.
  destruct (decide (P x)), (decide (Q x)); tauto.
Qed.

Lemma filter_index_length_from (P : R -> Prop) `{!forall x, Decision (P x)}
  (p : list R) (j : nat) :
  length (filter (fun i => P (nth (i - j) p 0)) (seq j (length p)))
  = length (filter P p).
Proof.
  revert j; induction p as [|x p IH]; intros j; [done|].
  cbn [length seq]. rewrite !filter_cons.
  replace (j - j)%nat with 0%nat by lia. cbn [nth].
  rewrite (filter_ext_elem _ (fun i => P (nth (i - S j) p 0))).
  - destruct (decide (P x)); cbn [length]; by rewrite (IH (S j)).
  - intros i Hi. apply elem_of_seq in Hi.
    replace (i - j)%nat with (S (i - S j)) by lia. done.
Qed.

Lemma first_positive_spec (seed : Z) (n size : nat) (p : list R) :
  length p = n ->
  Forall (fun x => 0 <= x) p ->
  Rabs (foldr Rplus 0 p - 1) <= / 2 ^ 26 ->
  (size <= length (filter (fun x => (0 < x)%R) p))%nat ->
  NoDup (first_positive n size p)
  /\ length (first_positive n size p) = size
  /\ Forall (fun i => (i < n)%nat) (first_positive n size p).
Proof.
  intros Hn _ _ Hsize. unfold first_positive. split; [|split].
  - eapply sublist_NoDup; [|apply sublist_take].
    apply NoDup_filter, NoDup_seq.
  - apply length_take_le. subst n.
    rewrite <- (filter_index_length_from (fun x => 0 < x) p 0) in Hsize.
    erewrite filter_ext_elem; [exact Hsize|].
    intros i _. cbv beta. by replace (i - 0)%nat with i by lia.
  - apply Forall_take, Forall_forall. intros i Hi.
    apply list_elem_of_filter in Hi as [_ Hi]. apply elem_of_seq in Hi. lia.
Qed.

Definition W0 : Externals := {|
  randn := fun _ _ => 0;
  multivariate_normal := fun _ _ _ => (0, 0);
  sfr_table_ev := fun _ _ _ => 1;
  freq_to_z := fun nu_rest nu_obs => nu_rest / nu_obs - 1;
  comoving_volume := fun _ z => z;
  choice_draw := fun _ => first_positive;
  choice_draw_spec := first_positive_spec;
|}.

(** ** Writing a catalogue and reading luminosities back *)

(** [a[:i]] for a Python integer [i]: the first [i] entries, and for a
    negative [i] all but the last [-i]. *)
Definition slice_to {A : Type} (i : Z) (a : list A) : list A :=
  if (i <? 0)%Z then take (length a - Z.to_nat (- i)) a
  else take (Z.to_nat i) a.

(** [getattr(self, name)[:i]]: an array, a tuple and a list can be sliced;
    a Python number and the cosmology cannot ([TypeError]). *)
Definition getattr_slice (name : string) (i : Z) : Py hval :=
  h ← get_halos;
  match h !! name with
  | Some (VArr a) => ret (VArr (slice_to i a))
  | Some (VTuple t) => ret (VTuple (slice_to i t))
  | Some (VMatrix l) => ret (VMatrix (slice_to i l))
  | Some (VFloat _) | Some (VInt _) | Some (VCosmo _) => raise TypeError
  | None => raise AttributeError
  end.

(** [len] of a sliced value *)
Definition hval_len (v : hval) : nat :=
  match v with
  | VArr a => length a
  | VTuple t => length t
  | VMatrix l => length l
  | VFloat _ | VInt _ | VCosmo _ => 0
  end.

(** The value that [np.savez] stores for a keyword argument: a tuple is
    stored as the array of its entries. *)
Definition np_asanyarray (v : hval) : hval :=
  match v with
  | VTuple t => VArr t
  | _ => v
  end.

(** [[
      try:
          velocities = self.vbroaden[:i]
      except AttributeError:
          velocities = np.ones(len(self.dec[:i])) * -99
    ]] *)
Definition write_cat_velocities (i : Z) : Py hval :=
  h ← get_halos;
  match h !! "vbroaden" with
  | Some _ => getattr_slice "vbroaden" i
  | None =>
      dec ← getattr_slice "dec" i;
      ret (VArr (repeat (1 * -99) (hval_len dec)))
  end.

(** [write_cat(params, trim, writeall)].  The result is the archive that
    [np.savez] is given, by keyword, for the file [params.cat_output_file]
    (an attribute taken to be set).  [trim] is [None] for the default. *)
Definition write_cat (trim : option Z) (writeall : bool)
  : Py (gmap string hval) :=
  let i :=
    match trim with
    | Some t => if bool_decide (t = 0%Z) then (-1)%Z else t
    | None => (-1)%Z
    end in
  velocities ← write_cat_velocities i;
  if writeall then
    dec ← getattr_slice "dec" i;
    dec' ← getattr_slice "dec" i;
    let nhalo := VInt (Z.of_nat (hval_len dec')) in
    nu ← getattr_slice "nu" i;
    ra ← getattr_slice "ra" i;
    z ← getattr_slice "redshift" i;
    vx ← getattr_slice "vx" i;
    vz ← getattr_slice "vz" i;
    x_pos ← getattr_slice "x_pos" i;
    y_pos ← getattr_slice "y_pos" i;
    z_pos ← getattr_slice "z_pos" i;
    zformation ← getattr_slice "zformation" i;
    Lco ← getattr_slice "Lco" i;
    Lcat ← getattr_slice "Lcat" i;
    M ← getattr_slice "M" i;
    ret (np_asanyarray <$>
           (<["dec" := dec]> (<["nhalo" := nhalo]> (<["nu" := nu]>
           (<["ra" := ra]> (<["z" := z]> (<["vx" := vx]> (<["vz" := vz]>
           (<["x_pos" := x_pos]> (<["y_pos" := y_pos]>
           (<["z_pos" := z_pos]> (<["zformation" := zformation]>
           (<["Lco" := Lco]> (<["Lcat" := Lcat]>
           (<["vhalo" := velocities]> (<["M" := M]> ∅))))))))))))))))
  else
    dec ← getattr_slice "dec" i;
    ra ← getattr_slice "ra" i;
    z ← getattr_slice "redshift" i;
    Lco ← getattr_slice "Lco" i;
    Lcat ← getattr_slice "Lcat" i;
    M ← getattr_slice "M" i;
    ret (np_asanyarray <$>
           (<["dec" := dec]> (<["ra" := ra]> (<["z" := z]>
           (<["Lco" := Lco]> (<["Lcat" := Lcat]>
           (<["vhalo" := velocities]> (<["M" := M]> ∅)))))))).

(** How [load_luminosities] ends when no exception of [exn] is raised: it
    returns, or it stops at its [assert] ([AssertionError]) or at a key
    that the archive does not have ([KeyError]); the memory returned with
    the outcome is the memory at that point. *)
Inductive load_outcome : Type :=
| Loaded
| AssertionFailed
| KeyMissing (key : string).

(** [self.nhalo == len(Lco)] as the [assert] reads it: numbers compare by
    value; an array compares entry by entry and, unless it has one entry,
    has no truth value ([ValueError]); any other object is not equal to an
    integer. *)
Definition nhalo_equals (len : nat) : Py bool :=
  h ← get_halos;
  match h !! "nhalo" with
  | Some (VInt n) => ret (bool_decide (n = Z.of_nat len))
  | Some (VFloat x) => ret (bool_decide (x = INR len))
  | Some (VArr [x]) => ret (bool_decide (x = INR len))
  | Some (VArr _) => raise ValueError
  | Some (VTuple _) | Some (VMatrix _) | Some (VCosmo _) => ret false
  | None => raise AttributeError
  end.

(** [load_luminosities(inputfile, params)] for the archive [file] that
    [np.load(inputfile)] opens, an archive of one-dimensional float
    arrays. *)
Definition load_luminosities (file : gmap string (list R))
  : Py load_outcome :=
  h ← get_halos;
  match h !! "nhalo" with
  | None => raise AttributeError
  | Some _ =>
      match file !! "Lco" with
      | None => ret (KeyMissing "Lco")
      | Some Lco =>
          same ← nhalo_equals (length Lco);
          if negb same then ret AssertionFailed
          else
            setattr "Lco" (VArr Lco);;
            match file !! "Lcat" with
            | None => ret (KeyMissing "Lcat")
            | Some Lcat =>
                setattr "Lcat" (VArr Lcat);;
                match file !! "vhalo" with
                | None => ret (KeyMissing "vhalo")
                | Some [] => raise IndexError
                | Some (v0 :: vhalo) =>
                    if Rltb 0 v0
                    then setattr "vbroaden" (VArr (v0 :: vhalo));; ret Loaded
                    else ret Loaded
                end
            end
      end
  end.

(** The one-dimensional float arrays of an archive *)
Definition float_arrays (archive : gmap string hval)
  : gmap string (list R) :=
  omap (fun v => match v with VArr a => Some a | _ => None end) archive.

(** ** Velocity offsets of the catalogue *)

Section Offsets.
(** Deviate [i] of the standard normal distribution drawn by
    [np.random.default_rng(seed)] *)
Variable standard_normal : Z -> nat -> R.

(** [rng.normal(loc, scale, size)]: a negative [scale] is refused, and a
    draw is [loc + scale * deviate]. *)
Definition Generator_normal (seed : Z) (loc scale : R) (size : nat)
  : Py (list R) :=
  if Rltb scale 0 then raise ValueError
  else ret (map (fun i => loc + scale * standard_normal seed i) (seq 0 size)).

(** [const.c.to(u.km/u.s).value] *)
Definition c_km_s : R := 299792.458.

(** [len(getattr(self, name))] *)
Definition getattr_len (name : string) : Py nat :=
  h ← get_halos;
  match h !! name with
  | Some (VArr a) => ret (length a)
  | Some (VTuple t) => ret (length t)
  | Some (VMatrix l) => ret (length l)
  | Some (VFloat _) | Some (VInt _) | Some (VCosmo _) => raise TypeError
  | None => raise AttributeError
  end.

(** [getattr(self, name)] as an operand of arithmetic with an array: an
    array or a Python number; a tuple, a list and the cosmology are
    refused ([TypeError]). *)
Definition getattr_operand (name : string) : Py ndval :=
  h ← get_halos;
  match h !! name with
  | Some (VArr a) => ret (NdArray a)
  | Some (VFloat x) => ret (NdScalar x)
  | Some (VInt n) => ret (NdScalar (IZR n))
  | Some (VTuple _) | Some (VMatrix _) | Some (VCosmo _) => raise TypeError
  | None => raise AttributeError
  end.

(** An elementwise binary operation of an operand and an array, with
    numpy's broadcasting of a number and of an array of one entry *)
Definition np_broadcast (f : R -> R -> R) (x : ndval) (b : list R)
  : Py (list R) :=
  match x with
  | NdScalar s => ret (map (f s) b)
  | NdArray a =>
      if bool_decide (length a = length b) then ret (zip_with f a b)
      else if bool_decide (length a = 1%nat) then ret (map (f (nth 0 a 0)) b)
      else if bool_decide (length b = 1%nat)
      then ret (map (fun s => f s (nth 0 b 0)) a)
      else raise ValueError
  end.

(** [offset_velocities(params)], with [params.vcat_offset] and
    [params.vcat_scatter] as arguments *)
Definition offset_velocities (vcat_offset vcat_scatter : R) : Py unit :=
  p ← get_params;
  default_rng (vcat_seed p);;
  size ← getattr_len "Lcat";
  dv ← Generator_normal (vcat_seed p) vcat_offset vcat_scatter size;
  let dv_c := map (fun v => v / c_km_s) dv in
  let zpec := map (fun b => sqrt ((1 + b) / (1 - b)) - 1) dv_c in
  redshift ← getattr_operand "redshift";
  zobs ← np_broadcast (fun z zp => (1 + z) * (1 + zp) - 1) redshift zpec;
  setattr "zcat" (VArr zobs).

End Offsets.

(** * Properties *)

(** ** Comparisons *)

Lemma Rltb_true x y : Rltb x y = true <-> x < y.
Proof. unfold Rltb; destruct (Rlt_dec x y); split; intros; try done. Qed.

Lemma Rltb_false x y : Rltb x y = false <-> y <= x.
Proof.
  unfold Rltb; destruct (Rlt_dec x y); split; intros; try done; lra.
Qed.

Lemma Rleb_true x y : Rleb x y = true <-> x <= y.
Proof. unfold Rleb; destruct (Rle_dec x y); split; intros; try done. Qed.

Lemma Rleb_false x y : Rleb x y = false <-> y < x.
Proof.
  unfold Rleb; destruct (Rle_dec x y); split; intros; try done; lra.
Qed.


(** ** Running the monad *)

Lemma bind_Returns {A B} (c : Py A) (k : A -> Py B) (m m1 : Mem) (a : A) :
  c m = (Returns a, m1) -> bind c k m = k a m1.
Proof. unfold bind. by intros ->. Qed.

Lemma bind_Raises {A B} (c : Py A) (k : A -> Py B) (m m1 : Mem) (e : exn) :
  c m = (Raises e, m1) -> bind c k m = (Raises e, m1).
Proof. unfold bind. by intros ->. Qed.

Lemma bind_congr {A B} (c : Py A) (k1 k2 : A -> Py B) (m : Mem) :
  (forall a m', c m = (Returns a, m') -> k1 a m' = k2 a m') ->
  bind c k1 m = bind c k2 m.
Proof. unfold bind. destruct (c m) as [[a|e|msg] m']; auto. Qed.

Lemma bind_Returns_inv {A B} (c : Py A) (k : A -> Py B) (m m' : Mem) (b : B) :
  bind c k m = (Returns b, m') ->
  exists a m1, c m = (Returns a, m1) /\ k a m1 = (Returns b, m').
Proof.
  unfold bind. destruct (c m) as [[a|e|msg] m1]; intros H;
    [eauto | discriminate | discriminate].
Qed.

(** Inversion of a run that returned, one [bind] after the other *)
Ltac py_inv H :=
  repeat
    match type of H with
    | bind _ _ _ = (Returns _, _) =>
        let a := fresh "a" in
        let m1 := fresh "m" in
        let Hc := fresh "Hc" in
        apply bind_Returns_inv in H as (a & m1 & Hc & H);
        match type of a with
        | (_ * _)%type => destruct a
        | _ => idtac
        end;
        cbv beta iota zeta in H
    end.

Lemma getattr_array_Some (name : string) (a : list R) (m : Mem) :
  halos m !! name = Some (VArr a) ->
  getattr_array name m = (Returns a, m).
Proof.
  intros H. unfold getattr_array, bind, get_halos, lift, attr_array.
  by rewrite H.
Qed.

Lemma getattr_array_inv (name : string) (a : list R) (m m' : Mem) :
  getattr_array name m = (Returns a, m') ->
  m' = m /\ halos m !! name = Some (VArr a).
Proof.
  unfold getattr_array, bind, get_halos, lift, attr_array.
  destruct (halos m !! name) as [[]|]; intros H; by simplify_eq.
Qed.

Lemma get_params_inv (p : SimParameters) (m m' : Mem) :
  get_params m = (Returns p, m') -> m' = m /\ p = params m.
Proof. unfold get_params. intros H. by simplify_eq. Qed.

Lemma ret_inv {A} (a b : A) (m m' : Mem) :
  ret a m = (Returns b, m') -> b = a /\ m' = m.
Proof. unfold ret. intros H. by simplify_eq. Qed.

(** ** Concrete inputs *)

(** A parameter object with the given models and coefficients; the other
    attributes are fixed. *)
Definition example_params (model : string) (co_model_coeffs : Coeffs)
  (catalog_model : option string)
  (catalog_coeffs : option (option (list R))) : SimParameters :=
  mkParams model co_model_coeffs catalog_model catalog_coeffs
    0.4 0.5 0.8 (Some 12345%Z) None 1e10 1e15 115.27 34 26 2 2 None None
    0 0 "linear" 12345 false.

(** A catalogue of three halos *)
Definition three_halos : HaloCatalog :=
  <["M" := VArr [1e12; 2e12; 3e12]]>
  (<["redshift" := VArr [2.5; 2.8; 3]]>
  (<["ra" := VArr [0; 0.5; -0.5]]>
  (<["dec" := VArr [0.1; -0.2; 0.3]]>
  (<["nhalo" := VInt 3]>
  (<["cosmo" := VCosmo {| H0 := 70; Om0 := 0.3; Ob0 := 0.05 |}]> ∅))))).

(** [msg] contains [key] *)
Definition mentions (key msg : string) : Prop :=
  exists pre post, msg = pre +:+ key +:+ post.

(** ** Model dispatch *)

Lemma Lco_exit_message_mentions (key : string) :
  mentions key (Lco_exit_message key).
Proof.
  exists (nl +:+ nl +:+ ht +:+ "Your model, ").
  exists (", does not seem to exist" +:+ nl +:+ ht +:+ ht
          +:+ "Please check src/halos_to_luminosity.py to add it"
          +:+ nl +:+ nl).
  reflexivity.
Qed.

Lemma Lcat_exit_message_mentions (key : string) :
  mentions key (Lcat_exit_message key).
Proof.
  exists (nl +:+ nl +:+ ht +:+ "Your catalog model, ").
  exists (", does not seem to exist" +:+ nl +:+ ht +:+ ht
          +:+ "Please check src/halos_to_luminosity.py to add it"
          +:+ nl +:+ nl).
  reflexivity.
Qed.

(** C1. A model name that is not a key of the dictionary of
    [Mhalo_to_Lco], and a catalogue-model name that is not a key of the
    dictionary of [Mhalo_to_Lcatalog], end the call in [sys.exit] with a
    message that contains the name, and the memory (the halo catalogue, the
    parameters, the table) is the one the call started from. *)
Theorem unknown_model_key_is_fatal (W : Externals) (m : Mem)
  (scatter : bool) (key : string) :
  (model (params m) = key -> Lco_dict W !! key = None ->
   Mhalo_to_Lco W scatter m = (SysExit (Lco_exit_message key), m)
   /\ mentions key (Lco_exit_message key))
  /\ (catalog_model (params m) = Some key -> Lcat_dict W !! key = None ->
      Mhalo_to_Lcatalog W m = (SysExit (Lcat_exit_message key), m)
      /\ mentions key (Lcat_exit_message key)).
Proof.
  split; intros Hkey Hnone; (split; [|auto using Lco_exit_message_mentions,
                                       Lcat_exit_message_mentions]).
  - unfold Mhalo_to_Lco, bind, get_params. by rewrite Hkey, Hnone.
  - unfold Mhalo_to_Lcatalog, bind, get_params. by rewrite Hkey, Hnone.
Qed.

Lemma unknown_model_key_is_fatal_witness :
  let m := mkMem three_halos
             (example_params "Tinker" CNone (Some "lya_gronke") (Some None))
             None in
  Mhalo_to_Lco W0 false m = (SysExit (Lco_exit_message "Tinker"), m)
  /\ Mhalo_to_Lcatalog W0 m = (SysExit (Lcat_exit_message "lya_gronke"), m).
Proof.
  intros m.
  split.
  - apply (unknown_model_key_is_fatal W0 m false "Tinker"); reflexivity.
  - apply (unknown_model_key_is_fatal W0 m false "lya_gronke"); reflexivity.
Defined.

(** The keys of the two dictionaries *)
Lemma Lco_dict_keys (W : Externals) :
  dom (Lco_dict W)
  = list_to_set ["Li"; "Li_sc"; "Padmanabhan"; "fiuducial"; "Yang";
                 "arbitrary"].
Proof. unfold Lco_dict. rewrite !dom_insert_L, dom_empty_L. set_solver. Qed.

Lemma Lcat_dict_keys (W : Externals) :
  dom (Lcat_dict W)
  = list_to_set ["lya_chung"; "schechter"; "schechter_amp"; "default";
                 "test2"].
Proof. unfold Lcat_dict. rewrite !dom_insert_L, dom_empty_L. set_solver. Qed.

(** C2, as the code has it.  The key of the double power law in the
    dictionary of [Mhalo_to_Lco] is spelled ["fiuducial"]: that name
    dispatches to [Mhalo_to_Lco_fiuducial], which unpacks
    [(A, B, logC, logM, sigma)] and returns the luminosity array
    [4.9e-5 * C / ((Mh/M)**A + (Mh/M)**B)] over the halo masses, scattered
    with the seed 3 when [scatter] is set; the memory is unchanged. *)
Theorem fiuducial_dispatches_to_double_power_law (W : Externals) (m : Mem)
  (scatter : bool) (A B logC logM sigma : R) (Mh : list R) :
  model (params m) = "fiuducial" ->
  co_model_coeffs (params m) = CTuple [A; B; logC; logM; sigma] ->
  halos m !! "M" = Some (VArr Mh) ->
  Mhalo_to_Lco W scatter m
  = Mhalo_to_Lco_fiuducial W (co_model_coeffs (params m)) scatter m
  /\ Mhalo_to_Lco W scatter m
     = (Returns
          (NdArray
             (let Lco := map (double_power_law A B logC logM) Mh in
              if scatter
              then add_log_normal_scatter W Lco (NdScalar sigma) 3
              else Lco)), m).
Proof.
  intros Hmodel Hcoeffs HM.
  assert (Mhalo_to_Lco W scatter m
          = Mhalo_to_Lco_fiuducial W (co_model_coeffs (params m)) scatter m)
    as Hdispatch.
  { unfold Mhalo_to_Lco, bind, get_params. by rewrite Hmodel. }
  split; [done|].
  rewrite Hdispatch, Hcoeffs.
  unfold Mhalo_to_Lco_fiuducial, unpack_coeffs, getattr_array, get_halos,
    lift, attr_array, bind, ret.
  rewrite bool_decide_eq_true_2 by done.
  rewrite HM. by destruct scatter.
Qed.

Lemma fiuducial_dispatches_to_double_power_law_witness :
  let m := mkMem three_halos
             (example_params "fiuducial"
                (CTuple [-2.85; -0.42; 10.63; 12.3; 0.42]) None None)
             None in
  Mhalo_to_Lco W0 false m
  = (Returns
       (NdArray
          (map (double_power_law (-2.85) (-0.42) 10.63 12.3)
             [1e12; 2e12; 3e12])), m).
Proof.
  intros m.
  apply (fiuducial_dispatches_to_double_power_law W0 m false
           (-2.85) (-0.42) 10.63 12.3 0.42 [1e12; 2e12; 3e12]);
    reflexivity.
Defined.

(** C2, as the claim words it, fails: the name ["fiducial"] is not a key,
    so the call ends in the fatal branch and returns no luminosity. *)
Lemma fiducial_is_an_unknown_model :
  let m := mkMem three_halos
             (example_params "fiducial"
                (CTuple [-2.85; -0.42; 10.63; 12.3; 0.42]) None None)
             None in
  Mhalo_to_Lco W0 false m = (SysExit (Lco_exit_message "fiducial"), m)
  /\ Mhalo_to_Lco W0 false m
     <> Mhalo_to_Lco_fiuducial W0 (co_model_coeffs (params m)) false m.
Proof.
  intros m.
  assert (Mhalo_to_Lco W0 false m
          = (SysExit (Lco_exit_message "fiducial"), m)) as Hexit
    by reflexivity.
  split; [exact Hexit|].
  rewrite Hexit. discriminate.
Qed.

(** C3, at an input where it fails.  The catalogue model registered as
    ["test2"] returns the bare luminosity array and not the tuple
    [(Lcatalog, params)] that its sibling [Mhalo_to_Lcatalog_test1]
    returns; on a catalogue of three halos the unpacking
    [halos.Lcat, params = Mhalo_to_Lcatalog(halos, params)] of
    [Mhalo_to_Ls] then raises [ValueError]. *)
Theorem test2_returns_a_bare_array :
  let p := example_params "fiuducial" CNone (Some "test2") (Some None) in
  let m := mkMem three_halos p None in
  let Lcat := map (double_power_law 0.5 2 11 12) [1e12; 2e12; 3e12] in
  Mhalo_to_Lcatalog W0 m
  = (Returns (RetBare Lcat),
     mkMem (<["catalog_coeffs" := VTuple [0.5; 2; 11; 12; 0.5]]> three_halos)
       (set_catdex 0.5 p) None)
  /\ (Mhalo_to_Ls W0 m).1 = Raises ValueError.
Proof. split; reflexivity. Qed.

(** The registered catalogue models other than ["test2"] return a tuple
    whenever they return. *)
Lemma abundancematch_returns_a_pair (W : Externals)
  (function : list R -> list R -> Py (list R)) (coeffs : list R)
  (m m' : Mem) (r : catret) :
  abundancematch W function coeffs m = (Returns r, m') ->
  exists Lcat, r = RetPair Lcat (params m').
Proof.
  unfold abundancematch. intros H. py_inv H.
  apply ret_inv in H as [-> ->].
  match goal with
  | Hp : get_params _ = _ |- _ => apply get_params_inv in Hp as [-> ->]
  end.
  eauto.
Qed.

Lemma other_catalog_models_return_a_pair (W : Externals) (m m' : Mem)
  (key : string) (r : catret) :
  catalog_model (params m) = Some key -> key <> "test2" ->
  Mhalo_to_Lcatalog W m = (Returns r, m') ->
  exists Lcat, r = RetPair Lcat (params m').
Proof.
  intros Hkey Hne. unfold Mhalo_to_Lcatalog, bind, get_params.
  rewrite Hkey. unfold Lcat_dict.
  destruct (decide (key = "lya_chung")) as [->|];
    [|destruct (decide (key = "schechter")) as [->|];
      [|destruct (decide (key = "schechter_amp")) as [->|];
        [|destruct (decide (key = "default")) as [->|]]]];
    simplify_map_eq; try discriminate; intros H.
  - unfold Mhalo_to_LLya_Chung in H. py_inv H.
    apply ret_inv in H as [-> ->].
    match goal with
    | Hp : get_params _ = _ |- _ => apply get_params_inv in Hp as [-> ->]
    end.
    eauto.
  - unfold Mhalo_to_Lcatalog_schechter in H. py_inv H.
    by eapply abundancematch_returns_a_pair.
  - unfold Mhalo_to_Lcatalog_schechter_amp in H. py_inv H.
    match goal with
    | Hr : match ?r0 with RetPair _ _ => _ | RetBare _ => _ end _ = _ |- _ =>
        destruct r0; [|discriminate]
    end.
    py_inv H. apply ret_inv in H as [-> ->].
    match goal with
    | Hp : get_params _ = _ |- _ => apply get_params_inv in Hp as [-> ->]
    end.
    eauto.
  - unfold Mhalo_to_Lcatalog_test1 in H. py_inv H.
    apply ret_inv in H as [-> ->].
    match goal with
    | Hp : get_params _ = _ |- _ => apply get_params_inv in Hp as [-> ->]
    end.
    eauto.
Qed.

(** ** The mass cut *)

(** C10. [masscut_subset] calls [attrcut_subset] without the required
    [params] argument: for every catalogue, every pair of bounds and both
    modes the call raises [TypeError], and the memory is the one the call
    started from. *)
Theorem masscut_subset_raises_TypeError (m : Mem) (min_mass max_mass : R)
  (in_place : bool) :
  masscut_subset min_mass max_mass in_place m = (Raises TypeError, m).
Proof. by destruct in_place. Qed.

(** ** Scatter *)

(** C7. For a scatter width [dex <= 0], [add_log_normal_scatter] returns
    its input array, whatever the array and the seed. *)
Theorem add_log_normal_scatter_nonpositive_dex (W : Externals)
  (data : list R) (dex : R) (seed : Z) :
  dex <= 0 -> add_log_normal_scatter W data (NdScalar dex) seed = data.
Proof.
  intros Hdex. unfold add_log_normal_scatter, np_any_le0.
  by rewrite (proj2 (Rleb_true dex 0) Hdex).
Qed.

Lemma add_log_normal_scatter_nonpositive_dex_witness :
  add_log_normal_scatter W0 [3; 0; 5e8] (NdScalar (-0.3)) 12345
  = [3; 0; 5e8].
Proof.
  apply (add_log_normal_scatter_nonpositive_dex W0 [3; 0; 5e8] (-0.3) 12345).
  lra.
Defined.

(** What [add_log_normal_scatter] does for a positive width: each positive
    entry is multiplied by [exp(mu + sigma * gauss)] with
    [sigma = dex * 2.302585] and [mu = -0.5 * sigma**2]. *)
Lemma add_log_normal_scatter_positive_dex (W : Externals) (data : list R)
  (dex : R) (seed : Z) :
  0 < dex ->
  let sigma := dex * 2.302585 in
  let mu := -0.5 * sigma ^ 2 in
  add_log_normal_scatter W data (NdScalar dex) seed
  = np_where_pos_scaled data
      (map (fun i => exp (mu + sigma * randn W (seed * 13579) i))
         (seq 0 (length data))).
Proof.
  intros Hdex. unfold add_log_normal_scatter, np_any_le0.
  rewrite (proj2 (Rleb_false dex 0) Hdex). reflexivity.
Qed.

(** C4, at an input where it fails.  For the width [dex = 1] the
    independent scatter works with [sigma = 2.302585], the value of
    [ln(10)] its comment states, while the correlated scatter works with
    [sigma = 2.30285] for both tracers, as the covariance it stores on the
    catalogue shows; the two differ, and so do the offsets
    [-0.5 * sigma**2]. *)
Theorem correlated_scatter_uses_another_sigma :
  let m := mkMem (<["Lco" := VArr [2]]> (<["Lcat" := VArr [3]]> ∅))
             (example_params "Li" CNone (Some "default") None) None in
  add_log_normal_scatter W0 [2] (NdScalar 1) 12345
  = [2 * exp (-0.5 * (1 * 2.302585) ^ 2 + 1 * 2.302585 * 0)]
  /\ halos (add_co_tracer_dependant_scatter W0 0 1 1 12345 m).2 !! "cov"
     = Some (VMatrix [[(1 * 2.30285) ^ 2; 1 * 2.30285 * (1 * 2.30285) * 0];
                      [1 * 2.30285 * (1 * 2.30285) * 0; (1 * 2.30285) ^ 2]])
  /\ 1 * 2.30285 <> 1 * 2.302585
  /\ -0.5 * (1 * 2.30285) ^ 2 <> -0.5 * (1 * 2.302585) ^ 2.
Proof.
  intros m. split; [|split; [|split]].
  - rewrite add_log_normal_scatter_positive_dex by lra.
    unfold np_where_pos_scaled. cbn.
    by rewrite (proj2 (Rltb_true 0 2)) by lra.
  - unfold add_co_tracer_dependant_scatter.
    rewrite (proj2 (Rleb_false 1 0)) by lra. reflexivity.
  - lra.
  - lra.
Qed.

(** ** The cached star formation rate *)

(** A call keeps the catalogue of every memory in which [halos.sfr] is
    set. *)
Definition keeps_halos {A : Type} (c : Py A) : Prop :=
  forall m, is_Some (halos m !! "sfr") -> halos (c m).2 = halos m.

Lemma keeps_halos_bind {A B} (c : Py A) (k : A -> Py B) :
  keeps_halos c -> (forall a, keeps_halos (k a)) -> keeps_halos (bind c k).
Proof.
  intros Hc Hk m Hsfr. specialize (Hc m Hsfr). unfold bind.
  destruct (c m) as [[a|e|msg] m1]; cbn in *; try done.
  rewrite <- Hc. apply Hk. by rewrite Hc.
Qed.

Lemma keeps_halos_const {A} (o : outcome A) : keeps_halos (fun m => (o, m)).
Proof. by intros m _. Qed.

Lemma keeps_halos_getattr_array (name : string) :
  keeps_halos (getattr_array name).
Proof.
  intros m _. unfold getattr_array, bind, get_halos, lift. done.
Qed.

Lemma keeps_halos_np_zip_with (f : R -> R -> R) (a b : list R) :
  keeps_halos (np_zip_with f a b).
Proof. intros m _. unfold np_zip_with. by case_bool_decide. Qed.

Lemma keeps_halos_unpack_coeffs (n : nat) (d : list R) (coeffs : Coeffs) :
  keeps_halos (unpack_coeffs n d coeffs).
Proof.
  intros m _. unfold unpack_coeffs.
  destruct coeffs; try done. by case_bool_decide.
Qed.

Lemma keeps_halos_sfr_if_missing (W : Externals) (sigma_sfr : R) :
  keeps_halos (sfr_if_missing W sigma_sfr).
Proof.
  intros m Hsfr. unfold sfr_if_missing.
  assert (hasattr "sfr" m = (Returns true, m)) as Hhas.
  { unfold hasattr, bind, get_halos, ret. cbv beta iota.
    by rewrite bool_decide_eq_true_2. }
  by rewrite (bind_Returns _ _ _ _ _ Hhas).
Qed.

Lemma keeps_halos_set_params_catdex (v : R) :
  keeps_halos (set_params_catdex v).
Proof. by intros m _. Qed.

Create HintDb keeps.
#[local] Hint Resolve keeps_halos_getattr_array keeps_halos_np_zip_with
  keeps_halos_unpack_coeffs keeps_halos_sfr_if_missing
  keeps_halos_set_params_catdex : keeps.

Ltac keeps :=
  repeat
    match goal with
    | |- keeps_halos (bind _ _) => apply keeps_halos_bind; [|intros ?]
    | |- keeps_halos (if ?b then _ else _) => destruct b
    | |- keeps_halos (ret _) => apply keeps_halos_const
    | |- keeps_halos (raise _) => apply keeps_halos_const
    | |- keeps_halos get_params => by intros ? _
    | |- keeps_halos _ => solve [auto with keeps]
    end.

Lemma Mhalo_to_sfr_Behroozi_run (W : Externals) (m : Mem) (M z : list R)
  (sigma_sfr : R) (bad_extrapolation : bool) :
  halos m !! "M" = Some (VArr M) ->
  halos m !! "redshift" = Some (VArr z) ->
  length M = length z ->
  let table :=
    default (get_sfr_table W bad_extrapolation) (sfr_interp_tab m) in
  let sfr :=
    zip_with (fun m z => table (np_log10 m) (np_log10 (z + 1))) M z in
  Mhalo_to_sfr_Behroozi W sigma_sfr bad_extrapolation m
  = (Returns (if Rltb 0 sigma_sfr
              then add_log_normal_scatter W sfr (NdScalar sigma_sfr) 1
              else sfr),
     mkMem (halos m) (params m) (Some table)).
Proof.
  intros HM Hz Hlen table sfr. destruct m as [h p t]. cbn in *.
  unfold Mhalo_to_sfr_Behroozi.
  assert (global_sfr_interp_tab W bad_extrapolation (mkMem h p t)
          = (Returns table, mkMem h p (Some table))) as Htab
    by (unfold global_sfr_interp_tab, table; by destruct t).
  rewrite (bind_Returns _ _ _ _ _ Htab).
  rewrite (bind_Returns _ _ _ _ M) by by apply getattr_array_Some.
  rewrite (bind_Returns _ _ _ _ z) by by apply getattr_array_Some.
  unfold np_zip_with. rewrite bool_decide_eq_true_2 by done.
  unfold bind, ret. by destruct (Rltb 0 sigma_sfr).
Qed.

(** The rates that [Mhalo_to_sfr_Behroozi] computes from the masses [M]
    and the redshifts [z] in the memory [m] *)
Definition Behroozi_rates (W : Externals) (m : Mem) (M z : list R)
  (sigma_sfr : R) (bad_extrapolation : bool) : list R :=
  let table :=
    default (get_sfr_table W bad_extrapolation) (sfr_interp_tab m) in
  let sfr :=
    zip_with (fun m z => table (np_log10 m) (np_log10 (z + 1))) M z in
  if Rltb 0 sigma_sfr
  then add_log_normal_scatter W sfr (NdScalar sigma_sfr) 1
  else sfr.

Lemma Mhalo_to_Lco_Li_keeps_halos (W : Externals) (coeffs : Coeffs)
  (scatter : bool) : keeps_halos (Mhalo_to_Lco_Li W coeffs scatter).
Proof. unfold Mhalo_to_Lco_Li. keeps. Qed.

Lemma Mhalo_to_Lco_Li_sigmasc_keeps_halos (W : Externals) (coeffs : Coeffs)
  (scatter : bool) : keeps_halos (Mhalo_to_Lco_Li_sigmasc W coeffs scatter).
Proof. unfold Mhalo_to_Lco_Li_sigmasc. keeps. Qed.

Lemma Mhalo_to_LLya_Chung_keeps_halos (W : Externals) :
  keeps_halos (Mhalo_to_LLya_Chung W).
Proof. unfold Mhalo_to_LLya_Chung. keeps. Qed.

Lemma Mhalo_to_Lco_arbitrary_recomputes (W : Externals) (m : Mem)
  (scatter : bool) (lco_func : HaloCatalog -> list R)
  (rest : option (R * option bool)) (M z : list R) :
  halos m !! "M" = Some (VArr M) ->
  halos m !! "redshift" = Some (VArr z) ->
  length M = length z ->
  let sigma_sfr := from_option fst 0.3 rest in
  let bad := from_option (fun r => default false r.2) false rest in
  halos (Mhalo_to_Lco_arbitrary W (CArb lco_func true rest) scatter m).2
  = <["sfr" := VArr (Behroozi_rates W m M z sigma_sfr bad)]> (halos m).
Proof.
  intros HM Hz Hlen sigma_sfr bad.
  unfold Mhalo_to_Lco_arbitrary.
  pose proof (Mhalo_to_sfr_Behroozi_run W m M z sigma_sfr bad HM Hz Hlen)
    as Hrun.
  cbv zeta in Hrun. fold (Behroozi_rates W m M z sigma_sfr bad) in Hrun.
  fold sigma_sfr bad.
  unfold bind at 1. unfold bind at 1. rewrite Hrun. reflexivity.
Qed.

(** C8, as the code has it.  The models that test
    [hasattr(halos,'sfr')] ([Li], [Li_sc], [lya_chung]) leave a catalogue
    that has the attribute as it is, and so does [arbitrary] when its flag
    [sfr_calc] is false; with [sfr_calc] set, [arbitrary] does not test the
    attribute: it computes [Mhalo_to_sfr_Behroozi] with its own
    [sigma_sfr] and stores the result as [halos.sfr]. *)
Theorem cached_sfr_is_reused_by_the_testing_models (W : Externals)
  (m : Mem) (coeffs : Coeffs) (scatter : bool) :
  is_Some (halos m !! "sfr") ->
  halos (Mhalo_to_Lco_Li W coeffs scatter m).2 = halos m
  /\ halos (Mhalo_to_Lco_Li_sigmasc W coeffs scatter m).2 = halos m
  /\ halos (Mhalo_to_LLya_Chung W m).2 = halos m
  /\ (forall lco_func rest,
        halos (Mhalo_to_Lco_arbitrary W (CArb lco_func false rest) scatter m).2
        = halos m)
  /\ (forall lco_func rest M z,
        halos m !! "M" = Some (VArr M) ->
        halos m !! "redshift" = Some (VArr z) ->
        length M = length z ->
        let sigma_sfr := from_option fst 0.3 rest in
        let bad := from_option (fun r => default false r.2) false rest in
        halos (Mhalo_to_Lco_arbitrary W (CArb lco_func true rest) scatter m).2
        = <["sfr" := VArr (Behroozi_rates W m M z sigma_sfr bad)]> (halos m)).
Proof.
  intros Hsfr. split; [|split; [|split; [|split]]].
  - by apply Mhalo_to_Lco_Li_keeps_halos.
  - by apply Mhalo_to_Lco_Li_sigmasc_keeps_halos.
  - by apply Mhalo_to_LLya_Chung_keeps_halos.
  - intros lco_func rest. reflexivity.
  - intros lco_func rest M z. apply Mhalo_to_Lco_arbitrary_recomputes.
Qed.

(** The three halos with the rates that [Li_sc] caches *)
Definition three_halos_with_sfr : HaloCatalog :=
  <["sfr" := VArr [1; 1; 1]]> three_halos.

Lemma cached_sfr_is_reused_by_the_testing_models_witness :
  let m := mkMem three_halos_with_sfr
             (example_params "Li" CNone (Some "lya_chung") None) None in
  halos (Mhalo_to_Lco_Li W0 CNone true m).2 = three_halos_with_sfr
  /\ halos (Mhalo_to_LLya_Chung W0 m).2 = three_halos_with_sfr.
Proof.
  intros m.
  destruct (cached_sfr_is_reused_by_the_testing_models W0 m CNone true)
    as (HLi & _ & HChung & _).
  - by exists (VArr [1; 1; 1]).
  - split; [exact HLi|exact HChung].
Defined.

(** A callable for the model [arbitrary]: the luminosity is the rate *)
Definition lco_of_sfr (h : HaloCatalog) : list R :=
  match h !! "sfr" with
  | Some (VArr sfr) => sfr
  | _ => []
  end.

Lemma exp_negative_lt_1 (x : R) : x < 0 -> exp x < 1.
Proof. intros Hx. rewrite <- exp_0. by apply exp_increasing. Qed.

(** C8, as the claim words it, fails.  [Li_sc] computes the rates of the
    three halos without scatter and caches them; [arbitrary] with
    [sfr_calc] set then computes them again with its default
    [sigma_sfr = 0.3] and overwrites the cached array with another one. *)
Lemma arbitrary_overwrites_the_cached_sfr :
  let m0 := mkMem three_halos (example_params "Li_sc" CNone None None) None in
  let m1 := (Mhalo_to_Lco_Li_sigmasc W0 CNone false m0).2 in
  let m2 := (Mhalo_to_Lco_arbitrary W0 (CArb lco_of_sfr true None) false m1).2 in
  halos m1 !! "sfr" = Some (VArr [1; 1; 1])
  /\ halos m2 !! "sfr" <> halos m1 !! "sfr".
Proof.
  intros m0 m1 m2.
  assert (m1 = mkMem three_halos_with_sfr (params m0)
                 (Some (get_sfr_table W0 false))) as Hm1.
  { unfold m1, Mhalo_to_Lco_Li_sigmasc.
    rewrite (bind_Returns _ _ m0 m0 [0.0; 1.37; -1.74; 0.3]) by reflexivity.
    cbv zeta.
    assert (sfr_if_missing W0 0 m0
            = (Returns tt, mkMem three_halos_with_sfr (params m0)
                             (Some (get_sfr_table W0 false)))) as Hstep.
    { unfold sfr_if_missing.
      rewrite (bind_Returns _ _ m0 m0 false) by reflexivity.
      erewrite bind_Returns.
      2:{ apply (Mhalo_to_sfr_Behroozi_run W0 m0 [1e12; 2e12; 3e12]
                   [2.5; 2.8; 3]); reflexivity. }
      rewrite (proj2 (Rltb_false 0 0)) by lra. reflexivity. }
    rewrite (bind_Returns _ _ _ _ _ Hstep).
    erewrite bind_Returns by (by apply getattr_array_Some).
    reflexivity. }
  clearbody m1. subst m1. split; [reflexivity|].
  unfold m2.
  rewrite (Mhalo_to_Lco_arbitrary_recomputes W0 _ false lco_of_sfr None
             [1e12; 2e12; 3e12] [2.5; 2.8; 3]) by reflexivity.
  cbn [halos]. rewrite lookup_insert_eq.
  unfold Behroozi_rates. cbn [from_option sfr_interp_tab default].
  rewrite (proj2 (Rltb_true 0 0.3)) by lra.
  rewrite add_log_normal_scatter_positive_dex by lra.
  unfold three_halos_with_sfr. rewrite lookup_insert_eq.
  cbn [zip_with length seq map get_sfr_table sfr_table_ev randn W0].
  unfold np_where_pos_scaled. cbn [zip_with]. cbv beta delta [Datatypes.id].
  rewrite (proj2 (Rltb_true 0 1)) by lra.
  intros Heq. injection Heq as Heq _.
  match type of Heq with
  | 1 * exp ?x = 1 =>
      assert (exp x < 1) as Hlt by (apply exp_negative_lt_1; lra)
  end.
  lra.
Qed.

(** ** Cutting a catalogue by an index array *)

(** The entries of [a] at the positions [idx] *)
Definition gather (a : list R) (idx : list nat) : list R :=
  map (fun i => nth i a 0) idx.

(** The effect of a cut on one attribute: an array is gathered, any other
    value is kept. *)
Definition cut_value (idx : list nat) (v : option hval) : option hval :=
  match v with
  | Some (VArr a) => Some (VArr (gather a idx))
  | _ => v
  end.

Lemma np_take_in_range (a : list R) (idx : list nat) :
  Forall (fun i => (i < length a)%nat) idx ->
  np_take a idx = Some (gather a idx).
Proof.
  intros Hidx. unfold np_take, gather. apply mapM_Some.
  induction Hidx as [|i idx Hi _ IH]; cbn [map]; constructor; [|done].
  destruct (nth_lookup_or_length a i 0) as [H|H]; [done|lia].
Qed.

Lemma cut_in_place_spec (idx : list nat) (names : list string)
  (cur : HaloCatalog) :
  NoDup names ->
  (exists M, cur !! "M" = Some (VArr M)) ->
  (forall k a, k ∈ names -> leading_underscore k = false ->
               cur !! k = Some (VArr a) ->
               Forall (fun i => (i < length a)%nat) idx) ->
  exists fin,
    cut_in_place idx names cur = (Returns tt, fin)
    /\ (forall k, k <> "nhalo" ->
          fin !! k
          = if bool_decide (k ∈ names) && negb (leading_underscore k)
            then cut_value idx (cur !! k) else cur !! k)
    /\ (Exists (fun k => leading_underscore k = false) names ->
        exists M', fin !! "M" = Some (VArr M')
                   /\ fin !! "nhalo" = Some (VInt (Z.of_nat (length M')))).
Proof.
  revert cur. induction names as [|i names IH]; intros cur Hnd HM Hvalid.
  { exists cur. split; [done|]. split; [done|]. by intros ?%Exists_nil. }
  apply NoDup_cons in Hnd as [Hi Hnd]. cbn [cut_in_place].
  destruct (leading_underscore i) eqn:Hunder.
  - destruct (IH cur Hnd HM) as (fin & Hrun & Hfin & Hnhalo).
    { intros k a Hk. apply Hvalid. by right. }
    exists fin. split; [done|]. split.
    + intros k Hk. rewrite (Hfin k Hk).
      destruct (decide (k = i)) as [->|Hne].
      * rewrite (bool_decide_eq_false_2 _ Hi), bool_decide_eq_true_2
          by left. by rewrite Hunder.
      * destruct (decide (k ∈ names)) as [Hin|Hin].
        -- by rewrite !bool_decide_eq_true_2 by (done || by right).
        -- rewrite !bool_decide_eq_false_2; [done| |done].
           by intros [?|?]%elem_of_cons.
    + intros [Hx|Hx]%Exists_cons; [congruence|]. by apply Hnhalo.
  - set (cur1 := match cut_value idx (cur !! i) with
                 | Some v => <[i := v]> cur
                 | None => cur
                 end).
    assert (match subscript (cur !! i) idx with
            | Returns v => Returns (<[i:=v]> cur)
            | Raises TypeError => Returns cur
            | Raises e => Raises e
            | SysExit msg => SysExit msg
            end = Returns cur1) as ->.
    { unfold subscript, cur1, cut_value.
      destruct (cur !! i) as [[a| | | | |]|] eqn:Hci; try by rewrite ?insert_id.
      rewrite np_take_in_range; [done|].
      eapply Hvalid; [left|done|done]. }
    assert (forall k, cur1 !! k = if decide (k = i) then cut_value idx (cur !! i)
                                  else cur !! k) as Hcur1.
    { intros k. unfold cur1. destruct (decide (k = i)) as [->|Hne].
      - destruct (cut_value idx (cur !! i)) eqn:Hcv.
        + by rewrite lookup_insert_eq.
        + unfold cut_value in Hcv. by repeat case_match.
      - destruct (cut_value idx (cur !! i)); [|done].
        by rewrite lookup_insert_ne. }
    assert (exists M1, cur1 !! "M" = Some (VArr M1)) as [M1 HM1].
    { destruct HM as [M HM]. rewrite Hcur1.
      destruct (decide ("M" = i)) as [<-|_]; [|by eauto].
      rewrite HM. cbn. eauto. }
    unfold len_M at 1. rewrite HM1.
    set (cur2 := <["nhalo" := VInt (Z.of_nat (length M1))]> cur1).
    destruct (IH cur2 Hnd) as (fin & Hrun & Hfin & Hnhalo).
    { exists M1. unfold cur2. by rewrite lookup_insert_ne. }
    { intros k a Hk Hku Hka. unfold cur2 in Hka.
      destruct (decide (k = "nhalo")) as [->|Hne].
      - by rewrite lookup_insert_eq in Hka.
      - rewrite lookup_insert_ne, Hcur1 in Hka by done.
        destruct (decide (k = i)) as [->|_]; [done|].
        eapply Hvalid; [by right|done|done]. }
    exists fin. split; [done|]. split.
    + intros k Hk. rewrite (Hfin k Hk). unfold cur2.
      rewrite lookup_insert_ne, Hcur1 by done.
      destruct (decide (k = i)) as [->|Hne].
      * rewrite (bool_decide_eq_false_2 _ Hi), bool_decide_eq_true_2
          by left. by rewrite Hunder.
      * destruct (decide (k ∈ names)) as [Hin|Hin].
        -- by rewrite !bool_decide_eq_true_2 by (done || by right).
        -- rewrite !bool_decide_eq_false_2; [done| |done].
           by intros [?|?]%elem_of_cons.
    + intros _. destruct (decide (Exists (fun k => leading_underscore k = false)
                                    names)) as [Hex|Hex]; [by apply Hnhalo|].
      exists M1.
      assert ("M" ∉ names) as HMnames.
      { intros Hin. apply Hex, Exists_exists. by exists "M". }
      assert (forall k, fin !! k = cur2 !! k) as Hsame.
      { clear -Hrun Hex. revert cur2 Hrun.
        induction names as [|j names IHn]; intros cur2 Hrun.
        - cbn in Hrun. by simplify_eq.
        - cbn [cut_in_place] in Hrun.
          destruct (leading_underscore j) eqn:Hj.
          + apply IHn; [|done]. intros Hx. apply Hex. by right.
          + exfalso. apply Hex. by left. }
      rewrite !Hsame. unfold cur2.
      rewrite lookup_insert_eq, lookup_insert_ne by done. done.
Qed.

Lemma NoDup_dir (self : HaloCatalog) : NoDup (dir self).
Proof.
  unfold dir. rewrite merge_sort_Permutation. apply NoDup_remove_dups.
Qed.

Lemma elem_of_dir (self : HaloCatalog) (k : string) :
  k ∈ dir self <-> k ∈ HaloCatalog_methods \/ is_Some (self !! k).
Proof.
  unfold dir. rewrite merge_sort_Permutation, elem_of_remove_dups, elem_of_app.
  apply or_iff_compat_l. rewrite list_elem_of_fmap. split.
  - intros ([k' v] & -> & Hkv). apply elem_of_map_to_list in Hkv. by exists v.
  - intros [v Hv]. exists (k, v). split; [done|]. by apply elem_of_map_to_list.
Qed.

(** The arrays with one entry per halo: the array attributes whose name
    has no leading underscore all have the length [n]. *)
Definition per_halo (n : nat) (h : HaloCatalog) : Prop :=
  forall name a,
    leading_underscore name = false -> h !! name = Some (VArr a) ->
    length a = n.

(** The catalogue [h'] is the catalogue [h] cut to the positions [idx]. *)
Definition cut_result (idx : list nat) (h h' : HaloCatalog) : Prop :=
  (forall k, k <> "nhalo" ->
     h' !! k = if leading_underscore k then h !! k else cut_value idx (h !! k))
  /\ h' !! "nhalo" = Some (VInt (Z.of_nat (length idx))).

Lemma length_gather (a : list R) (idx : list nat) :
  length (gather a idx) = length idx.
Proof. unfold gather. by rewrite length_map. Qed.

Lemma cut_result_per_halo (idx : list nat) (n : nat) (h h' : HaloCatalog) :
  cut_result idx h h' -> per_halo n h -> per_halo (length idx) h'.
Proof.
  intros [Hcut Hnhalo] Hper name a Hname Ha.
  destruct (decide (name = "nhalo")) as [->|Hne]; [congruence|].
  rewrite (Hcut name Hne), Hname in Ha. unfold cut_value in Ha.
  destruct (h !! name) as [[]|]; simplify_eq. apply length_gather.
Qed.

Lemma cut_result_array (idx : list nat) (h h' : HaloCatalog) (name : string)
  (a : list R) :
  cut_result idx h h' -> leading_underscore name = false ->
  name <> "nhalo" -> h !! name = Some (VArr a) ->
  h' !! name = Some (VArr (gather a idx)).
Proof.
  intros [Hcut _] Hname Hne Ha. by rewrite (Hcut name Hne), Hname, Ha.
Qed.

Lemma indexcut_in_place_run (idx : list nat) (m : Mem) (n : nat)
  (M : list R) :
  per_halo n (halos m) ->
  halos m !! "M" = Some (VArr M) ->
  Forall (fun i => (i < n)%nat) idx ->
  exists h',
    indexcut idx true m
    = (Returns None, mkMem h' (params m) (sfr_interp_tab m))
    /\ cut_result idx (halos m) h'.
Proof.
  intros Hper HM Hidx.
  destruct (cut_in_place_spec idx (dir (halos m)) (halos m))
    as (fin & Hrun & Hfin & Hnhalo).
  - apply NoDup_dir.
  - by exists M.
  - intros k a _ Hk Ha. by rewrite (Hper k a Hk Ha).
  - exists fin. split.
    + unfold indexcut, cut. by rewrite Hrun.
    + assert (fin !! "M" = Some (VArr (gather M idx))) as HM'.
      { rewrite Hfin by done. rewrite bool_decide_eq_true_2.
        - cbn. by rewrite HM.
        - apply elem_of_dir. right. by rewrite HM. }
      split.
      * intros k Hk. rewrite (Hfin k Hk).
        destruct (leading_underscore k); [by rewrite andb_false_r|].
        rewrite andb_true_r. case_bool_decide as Hin; [done|].
        rewrite elem_of_dir in Hin.
        destruct (halos m !! k) eqn:Hlk; [|done].
        exfalso. apply Hin. right. by eexists.
      * destruct Hnhalo as (M' & HM1 & ->).
        { apply Exists_exists. exists "M". split; [|done].
          apply elem_of_dir. right. by rewrite HM. }
        rewrite HM' in HM1. simplify_eq. by rewrite length_gather.
Qed.

(** ** Index arrays: [np.where], [np.argsort], composition *)

Lemma elem_of_np_where (n : nat) (mask : nat -> bool) (i : nat) :
  i ∈ np_where n mask <-> (i < n)%nat /\ mask i = true.
Proof.
  unfold np_where. rewrite list_elem_of_filter, elem_of_seq.
  split; intros []; split; (done || lia).
Qed.

Lemma NoDup_np_where (n : nat) (mask : nat -> bool) :
  NoDup (np_where n mask).
Proof. apply NoDup_filter, NoDup_seq. Qed.

#[local] Instance key_le_total (a : list R) :
  Total (fun i j : nat => nth i a 0 <= nth j a 0).
Proof. intros i j. destruct (Rle_dec (nth i a 0) (nth j a 0)); [auto|right; lra]. Qed.

Lemma np_argsort_Permutation (a : list R) :
  np_argsort a ≡ₚ seq 0 (length a).
Proof. apply merge_sort_Permutation. Qed.

Lemma np_argsort_Sorted (a : list R) :
  Sorted (fun i j => nth i a 0 <= nth j a 0) (np_argsort a).
Proof. apply (Sorted_merge_sort _). Qed.

(** The array [a] read in the order of [np.argsort(a)[::-1]] does not
    increase. *)
Lemma gather_reverse_argsort_sorted (a : list R) :
  StronglySorted Rge (gather a (reverse (np_argsort a))).
Proof.
  apply Sorted_StronglySorted; [intros x y z ? ?; lra|].
  unfold gather. change (map ?f ?l) with (f <$> l).
  eapply Sorted_fmap; [|apply Sorted_reverse, np_argsort_Sorted].
  intros i j Hij. unfold flip in Hij. lra.
Qed.

Lemma gather_seq (l : list nat) :
  map (fun j => nth j l 0%nat) (seq 0 (length l)) = l.
Proof.
  induction l as [|x l IH] using rev_ind; [done|].
  rewrite length_app, Nat.add_1_r, seq_S, map_app. cbn [map Nat.add length].
  rewrite app_nth2, Nat.sub_diag by lia. cbn [nth]. f_equal.
  transitivity (map (fun j => nth j l 0%nat) (seq 0 (length l))); [|exact IH].
  apply map_ext_in. intros j Hj%in_seq.
  by rewrite app_nth1 by lia.
Qed.

(** Reading an index array through a permutation of its positions gives a
    permutation of the index array. *)
Lemma compose_Permutation (l pos : list nat) :
  pos ≡ₚ seq 0 (length l) -> map (fun j => nth j l 0%nat) pos ≡ₚ l.
Proof.
  intros Hpos.
  transitivity (map (fun j => nth j l 0%nat) (seq 0 (length l)));
    [|by rewrite gather_seq].
  change (map ?f ?l) with (f <$> l). by rewrite Hpos.
Qed.

Lemma gather_gather (a : list R) (idx1 idx2 : list nat) :
  Forall (fun j => (j < length idx1)%nat) idx2 ->
  gather (gather a idx1) idx2
  = gather a (map (fun j => nth j idx1 0%nat) idx2).
Proof.
  intros Hidx. unfold gather. rewrite map_map.
  apply map_ext_in. intros j Hj.
  rewrite Forall_forall in Hidx. apply list_elem_of_In, Hidx in Hj.
  rewrite (nth_indep _ 0 (nth 0%nat a 0)) by (by rewrite length_map).
  by rewrite (map_nth (fun i => nth i a 0)).
Qed.

Lemma cut_value_compose (idx1 idx2 : list nat) (v : option hval) :
  Forall (fun j => (j < length idx1)%nat) idx2 ->
  cut_value idx2 (cut_value idx1 v)
  = cut_value (map (fun j => nth j idx1 0%nat) idx2) v.
Proof.
  intros Hidx. destruct v as [[]|]; try done.
  cbn. by rewrite gather_gather.
Qed.

(** ** [cull] *)

(** The conditions of [cull] on the halo at position [i] *)
Definition in_survey (p : SimParameters) (z_i z_f : R)
  (M redshift ra dec : list R) (i : nat) : Prop :=
  min_mass p < nth i M 0 < mass_cutoff p
  /\ z_i <= nth i redshift 0 <= z_f
  /\ Rabs (nth i ra 0) <= fov_x p / 2
  /\ Rabs (nth i dec 0) <= fov_y p / 2.

Lemma cull_mask_true (p : SimParameters) (z_i z_f : R)
  (M redshift ra dec : list R) (i : nat) :
  cull_mask p z_i z_f M redshift ra dec i = true
  <-> in_survey p z_i z_f M redshift ra dec i.
Proof.
  unfold cull_mask, in_survey.
  rewrite !andb_true_iff, !Rltb_true, !Rleb_true. tauto.
Qed.

Lemma z_window_ordered (W : Externals) (p : SimParameters) :
  (z_window W p).1 <= (z_window W p).2.
Proof.
  unfold z_window.
  destruct (Rltb _ _) eqn:Hlt; cbn.
  - apply Rltb_true in Hlt. lra.
  - by apply Rltb_false in Hlt.
Qed.

(** C5. [cull] on a catalogue whose per-halo arrays have the length [n]
    returns, and the catalogue it leaves holds, for a list [kept] of
    distinct positions of the catalogue it started from, every per-halo
    array read at those positions.  The retained positions are exactly
    those whose halo has its mass strictly between [min_mass] and
    [mass_cutoff], its redshift in the window [[z_i, z_f]] (the converted
    limits, exchanged when inverted), [|ra| <= fov_x/2] and
    [|dec| <= fov_y/2]; so every removed halo violates one of these.  The
    retained masses are in non-increasing order. *)
Theorem cull_keeps_the_survey_halos_sorted_by_mass (W : Externals)
  (m : Mem) (n : nat) (M redshift ra dec : list R) :
  per_halo n (halos m) ->
  halos m !! "M" = Some (VArr M) ->
  halos m !! "redshift" = Some (VArr redshift) ->
  halos m !! "ra" = Some (VArr ra) ->
  halos m !! "dec" = Some (VArr dec) ->
  let p := params m in
  let z_i := (z_window W p).1 in
  let z_f := (z_window W p).2 in
  exists (kept : list nat) (h' : HaloCatalog),
    cull W m
    = (Returns tt,
       mkMem h' (set_z_window (Some z_i) (Some z_f) p) (sfr_interp_tab m))
    /\ z_i <= z_f
    /\ NoDup kept
    /\ (forall i, i ∈ kept <->
                  (i < n)%nat /\ in_survey p z_i z_f M redshift ra dec i)
    /\ (forall i, (i < n)%nat -> i ∉ kept ->
                  ~ in_survey p z_i z_f M redshift ra dec i)
    /\ (forall name a,
          leading_underscore name = false -> name <> "nhalo" ->
          halos m !! name = Some (VArr a) ->
          h' !! name = Some (VArr (gather a kept)))
    /\ h' !! "nhalo" = Some (VInt (Z.of_nat (length kept)))
    /\ StronglySorted Rge (gather M kept).
Proof.
  intros Hper HM Hz Hra Hdec p z_i z_f.
  pose proof (Hper "M" M eq_refl HM) as HlenM.
  pose proof (Hper "redshift" redshift eq_refl Hz) as Hlenz.
  pose proof (Hper "ra" ra eq_refl Hra) as Hlenra.
  pose proof (Hper "dec" dec eq_refl Hdec) as Hlendec.
  set (goodidx := np_where (length M)
                    (cull_mask p z_i z_f M redshift ra dec)).
  set (m1 := mkMem (halos m) (set_z_window (Some z_i) (Some z_f) p)
               (sfr_interp_tab m)).
  destruct (indexcut_in_place_run goodidx m1 n M) as (h1 & Hrun1 & Hcut1);
    [done|done| |].
  { apply Forall_forall. intros i Hi%elem_of_np_where. lia. }
  pose proof (cut_result_per_halo _ _ _ _ Hcut1 Hper) as Hper1.
  pose proof (cut_result_array _ _ _ "M" M Hcut1 eq_refl ltac:(done) HM)
    as HM1.
  set (M1 := gather M goodidx) in *.
  set (sortidx := reverse (np_argsort M1)).
  set (m2 := mkMem h1 (params m1) (sfr_interp_tab m1)).
  assert (Forall (fun j => (j < length goodidx)%nat) sortidx) as Hsortidx.
  { apply Forall_forall. intros j Hj. unfold sortidx in Hj.
    rewrite elem_of_reverse, np_argsort_Permutation, elem_of_seq in Hj.
    unfold M1 in Hj. rewrite length_gather in Hj. lia. }
  destruct (indexcut_in_place_run sortidx m2 (length goodidx) M1)
    as (h2 & Hrun2 & Hcut2); [done|done|done|].
  set (kept := map (fun j => nth j goodidx 0%nat) sortidx).
  assert (kept ≡ₚ goodidx) as Hkept.
  { apply compose_Permutation. unfold sortidx.
    rewrite reverse_Permutation, np_argsort_Permutation.
    unfold M1. by rewrite length_gather. }
  assert (forall i, i ∈ kept <->
                    (i < n)%nat /\ in_survey p z_i z_f M redshift ra dec i)
    as Hmem.
  { intros i. rewrite Hkept. unfold goodidx.
    by rewrite elem_of_np_where, cull_mask_true, HlenM. }
  exists kept, h2. split; [|split; [|split; [|split; [|split; [|split; [|split]]]]]].
  - unfold cull.
    rewrite (bind_Returns _ _ m m p) by reflexivity.
    fold p. rewrite (surjective_pairing (z_window W p)). fold z_i z_f.
    rewrite (bind_Returns _ _ m m1 tt) by reflexivity.
    rewrite (bind_Returns _ _ m1 m1 M) by by apply getattr_array_Some.
    rewrite (bind_Returns _ _ m1 m1 redshift) by by apply getattr_array_Some.
    rewrite (bind_Returns _ _ m1 m1 ra) by by apply getattr_array_Some.
    rewrite (bind_Returns _ _ m1 m1 dec) by by apply getattr_array_Some.
    rewrite bool_decide_eq_true_2 by (by rewrite HlenM, Hlenz, Hlenra, Hlendec).
    fold goodidx. rewrite (bind_Returns _ _ _ _ _ Hrun1).
    fold m2. rewrite (bind_Returns _ _ m2 m2 M1) by by apply getattr_array_Some.
    fold sortidx. rewrite (bind_Returns _ _ _ _ _ Hrun2). reflexivity.
  - apply z_window_ordered.
  - rewrite Hkept. apply NoDup_np_where.
  - exact Hmem.
  - intros i Hi Hnot Hin. apply Hnot, Hmem. done.
  - intros name a Hname Hne Ha.
    rewrite (cut_result_array sortidx h1 h2 name (gather a goodidx));
      [|done|done|done|].
    + by rewrite gather_gather.
    + by apply (cut_result_array goodidx (halos m) h1).
  - destruct Hcut2 as [_ ->]. unfold kept. by rewrite length_map.
  - unfold kept. rewrite <- gather_gather by done.
    apply gather_reverse_argsort_sorted.
Qed.

Lemma per_halo_three_halos : per_halo 3 three_halos.
Proof.
  intros name a _ Ha. unfold three_halos in Ha.
  repeat (apply lookup_insert_Some in Ha as [[<- Ha]|[? Ha]];
          [by simplify_eq|]).
  by rewrite lookup_empty in Ha.
Qed.

Lemma cull_keeps_the_survey_halos_sorted_by_mass_witness :
  let m := mkMem three_halos (example_params "Li" CNone None None) None in
  exists (kept : list nat) (h' : HaloCatalog),
    (cull W0 m).1 = Returns tt
    /\ halos (cull W0 m).2 = h'
    /\ h' !! "M" = Some (VArr (gather [1e12; 2e12; 3e12] kept))
    /\ StronglySorted Rge (gather [1e12; 2e12; 3e12] kept).
Proof.
  intros m.
  destruct (cull_keeps_the_survey_halos_sorted_by_mass W0 m 3
              [1e12; 2e12; 3e12] [2.5; 2.8; 3] [0; 0.5; -0.5]
              [0.1; -0.2; 0.3])
    as (kept & h' & Hrun & _ & _ & _ & _ & Harr & _ & Hsorted).
  - exact per_halo_three_halos.
  - reflexivity.
  - reflexivity.
  - reflexivity.
  - reflexivity.
  - exists kept, h'. rewrite Hrun. split; [reflexivity|].
    split; [reflexivity|]. split; [|exact Hsorted].
    apply Harr; [reflexivity|discriminate|reflexivity].
Defined.

(** ** [observation_cull] *)

Lemma indexcut_in_place_catalogue (idx : list nat) (m : Mem) (n : nat)
  (M : list R) :
  per_halo n (halos m) ->
  halos m !! "M" = Some (VArr M) ->
  Forall (fun i => (i < n)%nat) idx ->
  let h' := (cut_in_place idx (dir (halos m)) (halos m)).2 in
  cut idx true m = (Returns None, mkMem h' (params m) (sfr_interp_tab m))
  /\ cut_result idx (halos m) h'.
Proof.
  intros Hper HM Hidx h'.
  destruct (indexcut_in_place_run idx m n M Hper HM Hidx)
    as (h1 & Hrun & Hcut).
  assert (h' = h1) as ->; [|done].
  unfold h'. unfold indexcut, cut in Hrun. cbn [negb] in Hrun.
  destruct (cut_in_place idx (dir (halos m)) (halos m)) as [[[]|e|msg] fin];
    by simplify_eq.
Qed.

Lemma list_max_ge (x : R) (l : list R) (y : R) :
  y ∈ x :: l -> y <= list_max x l.
Proof.
  unfold list_max. induction l as [|z l IH]; cbn [foldr].
  - intros ->%list_elem_of_singleton. lra.
  - intros [->|[->|Hy]%elem_of_cons]%elem_of_cons.
    + etrans; [apply IH; left|apply Rmax_r].
    + apply Rmax_l.
    + etrans; [apply IH; by right|apply Rmax_r].
Qed.

Lemma np_where_ext (n : nat) (mask1 mask2 : nat -> bool) :
  (forall i, (i < n)%nat -> mask1 i = mask2 i) ->
  np_where n mask1 = np_where n mask2.
Proof.
  intros Hext. unfold np_where. apply filter_ext_elem.
  intros i Hi%elem_of_seq. rewrite Hext by lia. done.
Qed.

Lemma np_where_all (n : nat) (mask : nat -> bool) :
  (forall i, (i < n)%nat -> mask i = true) -> np_where n mask = seq 0 n.
Proof.
  intros Hall. unfold np_where.
  induction (seq 0 n) as [|i l IH] eqn:Hl in Hall |- *; [done|].
  assert (forall j, j ∈ i :: l -> mask j = true) as Hall'.
  { intros j Hj. apply Hall. rewrite <- Hl in Hj. apply elem_of_seq in Hj. lia. }
  clear Hall Hl. induction l as [|k l IHl] in i, Hall' |- *.
  - rewrite filter_cons_True by (apply Hall'; left). done.
  - rewrite filter_cons_True by (apply Hall'; left). f_equal.
    apply IHl. intros j Hj. apply Hall'. by right.
Qed.

(** The positions whose catalogue luminosity exceeds the cutoff *)
Definition above_cutoff (cutoff : R) (Lcat : list R) : list nat :=
  np_where (length Lcat) (fun i => Rltb cutoff (nth i Lcat 0)).

(** The weights of [observation_cull] for its two settings *)
Definition weights_of (obs_weight : string) (Lcat : list R) : list R :=
  if bool_decide (obs_weight = "linear")
  then map (fun l => l / sum_list Lcat) Lcat
  else map (fun l => np_log10 l / sum_list (map np_log10 Lcat)) Lcat.

Lemma sum_list_zero_total (f : R -> R) (Lcat : list R) :
  sum_list (map (fun l => f l / 0) Lcat) = 0.
Proof.
  induction Lcat as [|l Lcat IH]; [done|].
  cbn [map sum_list foldr]. fold (sum_list (map (fun l => f l / 0) Lcat)).
  rewrite IH. unfold Rdiv. rewrite Rinv_0. lra.
Qed.

Lemma tolerance_lt_1 : / 2 ^ 26 < 1.
Proof.
  rewrite <- Rinv_1. apply Rinv_lt_contravar; [|].
  - assert (0 < 2 ^ 26) by (apply pow_lt; lra). lra.
  - apply Rlt_pow_R1; [lra|lia].
Qed.

(** Weights that sum to one within the tolerance of [rng.choice] were not
    divided by zero. *)
Lemma weights_total_nonzero (f : R -> R) (total : R) (Lcat : list R) :
  Rabs (sum_list (map (fun l => f l / total) Lcat) - 1) <= / 2 ^ 26 ->
  total <> 0.
Proof.
  intros Hsum ->. rewrite sum_list_zero_total in Hsum.
  replace (0 - 1) with (- (1)) in Hsum by lra.
  rewrite Rabs_Ropp, Rabs_R1 in Hsum. pose proof tolerance_lt_1. lra.
Qed.

Lemma existsb_nonpositive_false (Lcat : list R) :
  Forall (fun l => 0 < l) Lcat -> existsb (fun l => Rleb l 0) Lcat = false.
Proof.
  induction 1 as [|x w Hx _ IH]; [done|]. cbn [existsb].
  by rewrite IH, (proj2 (Rleb_false x 0) Hx).
Qed.

Lemma observation_weights_finite (obs_weight : string) (Lcat : list R)
  (m : Mem) :
  halos m !! "Lcat" = Some (VArr Lcat) ->
  (obs_weight = "linear" /\ sum_list Lcat <> 0)
  \/ (obs_weight = "log" /\ Forall (fun l => 0 < l) Lcat
      /\ sum_list (map np_log10 Lcat) <> 0) ->
  observation_weights obs_weight m
  = (Returns (Weights (weights_of obs_weight Lcat)), m).
Proof.
  intros HL Hobs. unfold observation_weights, weights_of.
  destruct Hobs as [[-> Hsum]|(-> & Hpos & Hsum)].
  - rewrite !bool_decide_eq_true_2 by done.
    rewrite (bind_Returns _ _ m m Lcat) by by apply getattr_array_Some.
    by rewrite bool_decide_eq_false_2 by (by intros [_ ?]).
  - rewrite !(bool_decide_eq_false_2 ("log" = "linear")) by done.
    rewrite bool_decide_eq_true_2 by done.
    rewrite (bind_Returns _ _ m m Lcat) by by apply getattr_array_Some.
    rewrite existsb_nonpositive_false by done.
    by rewrite bool_decide_eq_false_2 by (by intros [_ ?]).
Qed.

Lemma observation_weights_run (obs_weight : string) (Lcat : list R)
  (m : Mem) :
  halos m !! "Lcat" = Some (VArr Lcat) ->
  obs_weight = "linear"
  \/ (obs_weight = "log" /\ Forall (fun l => 0 < l) Lcat) ->
  Rabs (sum_list (weights_of obs_weight Lcat) - 1) <= / 2 ^ 26 ->
  observation_weights obs_weight m
  = (Returns (Weights (weights_of obs_weight Lcat)), m).
Proof.
  intros HL Hobs Hsum. apply observation_weights_finite; [done|].
  unfold weights_of in Hsum. destruct Hobs as [->|[-> Hpos]].
  - left. split; [done|].
    rewrite bool_decide_eq_true_2 in Hsum by done.
    by apply (weights_total_nonzero (fun l => l)) in Hsum.
  - right. split; [done|]. split; [done|].
    rewrite bool_decide_eq_false_2 in Hsum by done.
    by apply (weights_total_nonzero np_log10) in Hsum.
Qed.

(** The first half of [observation_cull]: the cut at the luminosity
    threshold, and what remains to run on the catalogue it leaves. *)
Lemma observation_cull_on_self_threshold (W : Externals) (m : Mem)
  (n : nat) (M Lcat : list R) :
  per_halo n (halos m) ->
  halos m !! "M" = Some (VArr M) ->
  halos m !! "Lcat" = Some (VArr Lcat) ->
  Lcat <> [] ->
  let p := params m in
  let survivors := above_cutoff (lcat_cutoff p) Lcat in
  let h1 := (cut_in_place survivors (dir (halos m)) (halos m)).2 in
  let m1 := mkMem h1 p (sfr_interp_tab m) in
  observation_cull_on_self W m
  = (if bool_decide (0 < goal_nobj p)%Z
     then observation_draw W p m1
     else (Returns tt, m1))
  /\ cut_result survivors (halos m) h1.
Proof.
  intros Hper HM HL Hne p survivors h1 m1.
  pose proof (Hper "Lcat" Lcat eq_refl HL) as Hlen.
  destruct (indexcut_in_place_catalogue survivors m n M Hper HM)
    as [Hrun Hcut].
  { apply Forall_forall. intros i Hi%elem_of_np_where. lia. }
  split; [|exact Hcut].
  unfold observation_cull_on_self.
  rewrite (bind_Returns _ _ m m p) by reflexivity.
  rewrite (bind_Returns _ _ m m Lcat) by by apply getattr_array_Some.
  destruct Lcat as [|x l]; [done|].
  rewrite (bind_Returns _ _ m m (list_max x l)) by reflexivity.
  assert (attrcut_subset "Lcat" (lcat_cutoff p) (list_max x l + 10)
            (Some p) true m = (Returns None, m1)) as Hattr.
  { unfold attrcut_subset.
    rewrite (bind_Returns _ _ m m (x :: l)) by by apply getattr_array_Some.
    unfold m1, h1, p. rewrite <- Hrun. f_equal. apply np_where_ext.
    intros i Hi.
    rewrite (proj2 (Rleb_true _ _)); [by rewrite andb_true_r|].
    assert (nth i (x :: l) 0 ∈ x :: l) as Hin
      by (by apply list_elem_of_In, nth_In).
    pose proof (list_max_ge x l _ Hin). lra. }
  rewrite (bind_Returns _ _ _ _ _ Hattr).
  by case_bool_decide.
Qed.

Lemma report_nhalo_run (m : Mem) (z : Z) :
  halos m !! "nhalo" = Some (VInt z) -> report_nhalo m = (Returns tt, m).
Proof.
  intros Hnh.
  unfold report_nhalo, bind, get_params, getattr_nhalo, get_halos, ret.
  cbv beta iota. destruct (verbose (params m)); [|done].
  unfold bind. cbv beta iota. by rewrite Hnh.
Qed.

Lemma existsb_negative_false (w : list R) :
  Forall (fun x => 0 <= x) w -> existsb (fun x => Rltb x 0) w = false.
Proof.
  induction 1 as [|x w Hx _ IH]; [done|]. cbn [existsb].
  by rewrite IH, (proj2 (Rltb_false x 0) Hx).
Qed.

Lemma Generator_choice_run (W : Externals) (seed size : Z) (n : nat)
  (w : list R) (m : Mem) :
  (0 < size)%Z ->
  length w = n ->
  Forall (fun x => 0 <= x) w ->
  Rabs (sum_list w - 1) <= / 2 ^ 26 ->
  (Z.to_nat size <= length (filter (fun x => (0 < x)%R) w))%nat ->
  Generator_choice W seed (Z.of_nat n) size w m
  = (Returns (choice_draw W seed n (Z.to_nat size) w), m).
Proof.
  intros Hsize Hlen Hnonneg Hsum Hcount.
  pose proof (length_filter (fun x => 0 < x) w) as Hfilter.
  unfold Generator_choice. rewrite Nat2Z.id.
  rewrite bool_decide_eq_false_2 by lia.
  rewrite bool_decide_eq_true_2 by done. cbn [negb].
  rewrite existsb_negative_false by done.
  rewrite (proj2 (Rltb_false _ _) Hsum).
  rewrite bool_decide_eq_false_2 by lia.
  rewrite bool_decide_eq_false_2 by lia.
  reflexivity.
Qed.

Lemma NoDup_compose (l idx : list nat) :
  NoDup l -> NoDup idx -> Forall (fun j => (j < length l)%nat) idx ->
  NoDup (map (fun j => nth j l 0%nat) idx).
Proof.
  intros Hl Hidx Hrange. change (map ?f ?l) with (f <$> l).
  apply NoDup_fmap_2_strong; [|done].
  rewrite Forall_forall in Hrange.
  intros i j Hi Hj Heq.
  apply Hrange in Hi. apply Hrange in Hj.
  destruct (nth_lookup_or_length l i 0%nat) as [Hli|]; [|lia].
  destruct (nth_lookup_or_length l j 0%nat) as [Hlj|]; [|lia].
  rewrite Heq in Hli.
  exact (proj1 (NoDup_alt l) Hl i j _ Hli Hlj).
Qed.

(** C9, as the code has it.  Let [survivors] be the halos whose catalogue
    luminosity exceeds [lcat_cutoff], and [weights] the weights that
    [observation_cull] computes from their luminosities for
    [obs_weight = 'linear'] or, when these luminosities are positive, for
    [obs_weight = 'log'].  When [vcat_seed] is not negative, the generator
    accepts these weights (none is negative, they sum to one, at least
    [goal_nobj] of them are positive) and [0 < goal_nobj], the call leaves
    exactly [goal_nobj] distinct halos, all of them survivors: the draw of
    the generator seeded with [vcat_seed].  The catalogue left is the same
    for every run that starts from the same catalogue and parameters. *)
Theorem observation_cull_draws_goal_nobj_distinct_halos (W : Externals)
  (m : Mem) (n : nat) (M Lcat : list R) :
  per_halo n (halos m) ->
  halos m !! "M" = Some (VArr M) ->
  halos m !! "Lcat" = Some (VArr Lcat) ->
  let p := params m in
  let survivors := above_cutoff (lcat_cutoff p) Lcat in
  let weights := weights_of (obs_weight p) (gather Lcat survivors) in
  let k := Z.to_nat (goal_nobj p) in
  (0 <= vcat_seed p)%Z ->
  obs_weight p = "linear"
  \/ (obs_weight p = "log"
      /\ Forall (fun l => 0 < l) (gather Lcat survivors)) ->
  (0 < k <= length survivors)%nat ->
  Forall (fun w => 0 <= w) weights ->
  Rabs (sum_list weights - 1) <= / 2 ^ 26 ->
  (k <= length (filter (fun w => (0 < w)%R) weights))%nat ->
  exists (kept : list nat) (h' : HaloCatalog),
    (forall t, observation_cull W true (mkMem (halos m) p t)
               = (Returns None, mkMem h' p t))
    /\ kept = map (fun j => nth j survivors 0%nat)
                (choice_draw W (vcat_seed p) (length survivors) k weights)
    /\ NoDup kept
    /\ length kept = k
    /\ (forall i, i ∈ kept -> i ∈ survivors)
    /\ (forall name a,
          leading_underscore name = false -> name <> "nhalo" ->
          halos m !! name = Some (VArr a) ->
          h' !! name = Some (VArr (gather a kept)))
    /\ h' !! "nhalo" = Some (VInt (Z.of_nat k)).
Proof.
  intros Hper HM HL p survivors weights k Hseed Hobs Hk Hnonneg Hsum Hcount.
  assert (Lcat <> []) as Hne.
  { intros ->. unfold survivors, above_cutoff, np_where in Hk.
    cbn in Hk. lia. }
  assert (length weights = length survivors) as Hlenw.
  { unfold weights, weights_of.
    case_bool_decide; by rewrite length_map, length_gather. }
  assert (0 < goal_nobj p)%Z as Hgoal by (unfold k in Hk; lia).
  destruct (choice_draw_spec W (vcat_seed p) (length survivors) k weights)
    as (Hnd & Hlen & Hrange); [done..|].
  set (keepidx := choice_draw W (vcat_seed p) (length survivors) k weights)
    in *.
  set (h1 := (cut_in_place survivors (dir (halos m)) (halos m)).2).
  assert (cut_result survivors (halos m) h1) as Hcut1.
  { by destruct (observation_cull_on_self_threshold W m n M Lcat)
      as [_ ?]. }
  pose proof (cut_result_per_halo _ _ _ _ Hcut1 Hper) as Hper1.
  pose proof (cut_result_array _ _ _ "M" M Hcut1 eq_refl ltac:(done) HM)
    as HM1.
  pose proof (cut_result_array _ _ _ "Lcat" Lcat Hcut1 eq_refl ltac:(done) HL)
    as HL1.
  set (h2 := (cut_in_place keepidx (dir h1) h1).2).
  assert (forall t,
            cut keepidx true (mkMem h1 p t) = (Returns None, mkMem h2 p t)
            /\ cut_result keepidx h1 h2) as Hcut2.
  { intros t.
    by apply (indexcut_in_place_catalogue keepidx (mkMem h1 p t)
                (length survivors) (gather M survivors)). }
  exists (map (fun j => nth j survivors 0%nat) keepidx), h2.
  split; [|split; [|split; [|split; [|split; [|split]]]]].
  - intros t. set (mt := mkMem (halos m) p t).
    destruct (observation_cull_on_self_threshold W mt n M Lcat)
      as [Hrun _]; [done..|].
    cbv zeta in Hrun. cbn [halos params sfr_interp_tab mt] in Hrun.
    fold p survivors h1 in Hrun.
    rewrite bool_decide_eq_true_2 in Hrun by done.
    set (m1 := mkMem h1 p t) in *.
    assert (observation_draw W p m1 = (Returns tt, mkMem h2 p t)) as Hdraw.
    { unfold observation_draw.
      rewrite (bind_Returns _ _ m1 m1 tt)
        by (unfold default_rng; by rewrite bool_decide_eq_true_2).
      rewrite (bind_Returns _ _ _ _ _
                 (observation_weights_run _ _ m1 HL1 Hobs Hsum)).
      fold weights.
      rewrite (bind_Returns _ _ m1 m1 (Z.of_nat (length survivors))).
      2:{ destruct Hcut1 as [_ Hnh].
          unfold getattr_nhalo, bind, get_halos, m1. cbn [halos].
          by rewrite Hnh. }
      rewrite (bind_Returns _ _ _ _ _
                 (Generator_choice_run W _ _ _ _ _ Hgoal Hlenw Hnonneg Hsum
                    Hcount)).
      fold k keepidx. unfold indexcut.
      by rewrite (bind_Returns _ _ _ _ _ (proj1 (Hcut2 t))). }
    rewrite Hdraw in Hrun.
    unfold observation_cull.
    rewrite (bind_Returns _ _ _ _ _ Hrun).
    assert (report_nhalo (mkMem h2 p t) = (Returns tt, mkMem h2 p t))
      as Hreport.
    { destruct (Hcut2 t) as [_ [_ Hnh]]. by eapply report_nhalo_run. }
    by rewrite (bind_Returns _ _ _ _ _ Hreport).
  - done.
  - apply NoDup_compose; [apply NoDup_np_where|done|done].
  - by rewrite length_map.
  - intros i (j & -> & Hj)%list_elem_of_fmap.
    rewrite Forall_forall in Hrange. apply Hrange in Hj.
    apply list_elem_of_In, nth_In. done.
  - intros name a Hname Hnh Ha.
    rewrite (cut_result_array keepidx h1 h2 name (gather a survivors));
      [|apply (Hcut2 None)|done|done|].
    + by rewrite gather_gather.
    + by apply (cut_result_array survivors (halos m) h1).
  - destruct (Hcut2 None) as [_ [_ ->]]. by rewrite Hlen.
Qed.

(** A parameter object for [observation_cull] *)
Definition observation_params (lcat_cutoff : R) (goal_nobj : Z)
  (obs_weight : string) : SimParameters :=
  mkParams "Li" CNone (Some "default") None
    0.4 0.5 0.8 (Some 12345%Z) None 1e10 1e15 115.27 34 26 2 2 None None
    lcat_cutoff goal_nobj obs_weight 12345 false.

(** Three halos with catalogue luminosities, and two halos of which one is
    fainter than a solar luminosity *)
Definition three_halos_with_Lcat : HaloCatalog :=
  <["Lcat" := VArr [2; 4; 6]]> three_halos.

Definition two_halos_with_Lcat : HaloCatalog :=
  <["M" := VArr [1e12; 2e12]]>
  (<["Lcat" := VArr [1 / 10; 100]]>
  (<["nhalo" := VInt 2]> ∅)).

Ltac solve_per_halo :=
  let name := fresh "name" in
  let a := fresh "a" in
  let Ha := fresh "Ha" in
  intros name a _ Ha;
  repeat (apply lookup_insert_Some in Ha as [[<- Ha]|[? Ha]];
          [by simplify_eq|]);
  by rewrite lookup_empty in Ha.

Lemma per_halo_three_halos_with_Lcat : per_halo 3 three_halos_with_Lcat.
Proof. unfold three_halos_with_Lcat, three_halos. solve_per_halo. Qed.

Lemma per_halo_two_halos_with_Lcat : per_halo 2 two_halos_with_Lcat.
Proof. unfold two_halos_with_Lcat. solve_per_halo. Qed.

Lemma above_cutoff_2_4_6 : above_cutoff 0 [2; 4; 6] = [0; 1; 2]%nat.
Proof.
  unfold above_cutoff. rewrite np_where_all; [done|].
  intros [|[|[|i]]] Hi; cbn in Hi; try lia; apply Rltb_true; cbn; lra.
Qed.

Lemma observation_cull_draws_goal_nobj_distinct_halos_witness :
  let m := mkMem three_halos_with_Lcat (observation_params 0 2 "linear")
             None in
  exists (kept : list nat) (h' : HaloCatalog),
    observation_cull W0 true m = (Returns None, mkMem h' (params m) None)
    /\ NoDup kept
    /\ length kept = 2%nat
    /\ h' !! "M" = Some (VArr (gather [1e12; 2e12; 3e12] kept))
    /\ h' !! "nhalo" = Some (VInt 2).
Proof.
  intros m.
  assert (weights_of "linear" (gather [2; 4; 6] (above_cutoff 0 [2; 4; 6]))
          = [2 / 12; 4 / 12; 6 / 12]) as Hw.
  { rewrite above_cutoff_2_4_6. unfold weights_of, gather. cbn.
    repeat f_equal; lra. }
  destruct (observation_cull_draws_goal_nobj_distinct_halos W0 m 3
              [1e12; 2e12; 3e12] [2; 4; 6])
    as (kept & h' & Hrun & _ & Hnd & Hlen & _ & Harr & Hnhalo).
  - exact per_halo_three_halos_with_Lcat.
  - reflexivity.
  - reflexivity.
  - cbn. lia.
  - by left.
  - cbn [params m observation_params lcat_cutoff goal_nobj].
    rewrite above_cutoff_2_4_6. cbn. lia.
  - cbn [params m observation_params lcat_cutoff obs_weight]. rewrite Hw.
    repeat constructor; lra.
  - cbn [params m observation_params lcat_cutoff obs_weight]. rewrite Hw.
    cbn. replace (2 / 12 + (4 / 12 + (6 / 12 + 0)) - 1) with 0 by lra.
    rewrite Rabs_R0. apply Rlt_le, Rinv_0_lt_compat. lra.
  - cbn [params m observation_params lcat_cutoff obs_weight goal_nobj].
    rewrite Hw. rewrite !filter_cons_True by lra. cbn. lia.
  - exists kept, h'. split; [exact (Hrun None)|]. split; [exact Hnd|].
    split; [exact Hlen|]. split; [|exact Hnhalo].
    apply Harr; [reflexivity|discriminate|reflexivity].
Defined.

Lemma ln_10_pos : 0 < ln 10.
Proof. rewrite <- ln_1. apply ln_increasing; lra. Qed.

Lemma np_log10_tenth : np_log10 (1 / 10) = -1.
Proof.
  unfold np_log10. replace (1 / 10) with (/ 10) by lra.
  rewrite ln_Rinv by lra. pose proof ln_10_pos. field. lra.
Qed.

Lemma np_log10_hundred : np_log10 100 = 2.
Proof.
  unfold np_log10. replace 100 with (10 * 10) by lra.
  rewrite ln_mult by lra. pose proof ln_10_pos. field. lra.
Qed.

Lemma above_cutoff_tenth_hundred :
  above_cutoff 0 [1 / 10; 100] = [0; 1]%nat.
Proof.
  unfold above_cutoff. rewrite np_where_all; [done|].
  intros [|[|i]] Hi; cbn in Hi; try lia; apply Rltb_true; cbn; lra.
Qed.

(** C9, as the claim words it, fails.  Two halos with the catalogue
    luminosities [0.1] and [100] both survive the cutoff [0]; with
    [obs_weight = 'log'] and [goal_nobj = 1] the weights are
    [log10(L) / sum(log10(L)) = [-1, 2]], which the generator refuses
    ([ValueError]: a probability is negative), and the catalogue is left
    with its two halos. *)
Lemma observation_cull_refuses_negative_log_weights :
  let m := mkMem two_halos_with_Lcat (observation_params 0 1 "log") None in
  above_cutoff (lcat_cutoff (params m)) [1 / 10; 100] = [0; 1]%nat
  /\ (0 < Z.to_nat (goal_nobj (params m)) <= 2)%nat
  /\ weights_of "log" [1 / 10; 100] = [-1; 2]
  /\ (observation_cull W0 true m).1 = Raises ValueError
  /\ halos (observation_cull W0 true m).2 !! "nhalo" = Some (VInt 2).
Proof.
  intros m.
  assert (weights_of "log" [1 / 10; 100] = [-1; 2]) as Hw.
  { unfold weights_of. cbn.
    rewrite np_log10_tenth, np_log10_hundred. repeat f_equal; lra. }
  split; [exact above_cutoff_tenth_hundred|].
  split; [cbn; lia|]. split; [exact Hw|].
  destruct (observation_cull_on_self_threshold W0 m 2 [1e12; 2e12]
              [1 / 10; 100]) as [Hrun Hcut];
    [exact per_halo_two_halos_with_Lcat|reflexivity|reflexivity|done|].
  cbv zeta in Hrun.
  cbn [params m observation_params lcat_cutoff goal_nobj obs_weight
       vcat_seed sfr_interp_tab] in Hrun.
  rewrite above_cutoff_tenth_hundred in Hrun.
  rewrite bool_decide_eq_true_2 in Hrun by lia.
  cbv zeta in Hcut. cbn [params m observation_params lcat_cutoff] in Hcut.
  rewrite above_cutoff_tenth_hundred in Hcut.
  set (h1 := (cut_in_place [0; 1]%nat (dir (halos m)) (halos m)).2) in *.
  set (m1 := mkMem h1 (observation_params 0 1 "log") None) in *.
  assert (h1 !! "Lcat" = Some (VArr [1 / 10; 100])) as HL1.
  { by rewrite (cut_result_array [0; 1]%nat (halos m) h1 "Lcat"
                  [1 / 10; 100] Hcut). }
  assert (observation_draw W0 (observation_params 0 1 "log") m1
          = (Raises ValueError, m1)) as Hdraw.
  { unfold observation_draw.
    rewrite (bind_Returns _ _ m1 m1 tt) by reflexivity.
    rewrite (bind_Returns _ _ m1 m1 (Weights (weights_of "log" [1 / 10; 100]))).
    2:{ apply observation_weights_finite; [done|]. right.
        split; [done|]. split; [repeat constructor; lra|].
        cbn [map sum_list foldr].
        rewrite np_log10_tenth, np_log10_hundred. lra. }
    rewrite Hw.
    rewrite (bind_Returns _ _ m1 m1 2%Z).
    2:{ destruct Hcut as [_ Hnh].
        unfold getattr_nhalo, bind, get_halos, m1. cbn [halos].
        by rewrite Hnh. }
    rewrite (bind_Raises _ _ m1 m1 ValueError); [done|].
    unfold Generator_choice.
    rewrite bool_decide_eq_false_2 by lia.
    rewrite bool_decide_eq_true_2 by reflexivity.
    cbn [negb existsb]. rewrite (proj2 (Rltb_true (-1) 0)) by lra.
    reflexivity. }
  rewrite Hdraw in Hrun.
  unfold observation_cull.
  erewrite bind_Raises by exact Hrun.
  split; [reflexivity|].
  cbn [snd halos m1]. by destruct Hcut as [_ ->].
Qed.

(** ** Interpolation and cumulative sums *)






Lemma Sorted_map_seq {A} (R : relation A) (f : nat -> A) (s n : nat) :
  (forall i, R (f i) (f (S i))) -> Sorted R (map f (seq s n)).
Proof.
  intros Hf. revert s. induction n as [|n IH]; intros s; cbn [seq map].
  - constructor.
  - constructor; [apply IH|].
    destruct n; cbn [seq map]; constructor. apply Hf.
Qed.

Lemma sum_list_drop_S (a : list R) (i : nat) :
  Forall (fun x => 0 <= x) a ->
  sum_list (drop (S i) a) <= sum_list (drop i a).
Proof.
  intros Ha. revert i. induction Ha as [|x a Hx _ IH]; intros i.
  - by rewrite !drop_nil.
  - destruct i as [|i]; [|apply IH].
    rewrite drop_0. cbn [drop sum_list foldr]. rewrite drop_0.
    fold (sum_list a). lra.
Qed.

(** The cumulative sums from each position to the end do not increase
    when every term is non-negative. *)
Lemma tail_sums_Sorted (cents a : list R) :
  Forall (fun x => 0 <= x) a -> Sorted Rge (tail_sums cents a).
Proof.
  intros Ha. unfold tail_sums. apply Sorted_map_seq.
  intros i. apply Rle_ge. by apply sum_list_drop_S.
Qed.

Lemma length_tail_sums (cents a : list R) :
  length (tail_sums cents a) = length cents.
Proof. unfold tail_sums. by rewrite length_map, length_seq. Qed.

(** ** Grids and bin centres *)

(** The values [g a[k] a[k+1]] over the adjacent pairs of [a] *)
Fixpoint adjacent (g : R -> R -> R) (a : list R) : list R :=
  match a with
  | x :: t =>
      match t with
      | y :: _ => g x y :: adjacent g t
      | [] => []
      end
  | [] => []
  end.

Lemma adjacent_step (g : R -> R -> R) (x y : R) (t : list R) :
  adjacent g (x :: y :: t) = g x y :: adjacent g (y :: t).
Proof. reflexivity. Qed.

Lemma np_diff_adjacent (a : list R) :
  np_diff a = adjacent (fun x y => y - x) a.
Proof.
  unfold np_diff. induction a as [|x [|y t] IH]; [done|done|].
  rewrite adjacent_step, <- IH.
  replace (length (x :: y :: t) - 1)%nat with (S (length (y :: t) - 1))
    by (cbn [length]; lia).
  reflexivity.
Qed.

(** [a[:-1] + (a[1:] - a[:-1]) / 2] *)
Definition bin_centres (a : list R) : list R :=
  zip_with (fun e d => e + d / 2) (take (length a - 1) a) (np_diff a).

Lemma bin_centres_adjacent (a : list R) :
  bin_centres a = adjacent (fun x y => x + (y - x) / 2) a.
Proof.
  unfold bin_centres. rewrite np_diff_adjacent.
  induction a as [|x [|y t] IH]; [done|done|].
  rewrite !adjacent_step, <- IH.
  replace (length (x :: y :: t) - 1)%nat with (S (length (y :: t) - 1))
    by (cbn [length]; lia).
  reflexivity.
Qed.

Lemma length_adjacent (g : R -> R -> R) (a : list R) :
  length (adjacent g a) = (length a - 1)%nat.
Proof.
  induction a as [|x [|y t] IH]; [done|done|].
  rewrite adjacent_step. cbn [length] in *. lia.
Qed.

Lemma adjacent_Forall (g : R -> R -> R) (P : R -> Prop) (a : list R) :
  (forall x y, x <= y -> P (g x y)) ->
  Sorted Rle a -> Forall P (adjacent g a).
Proof.
  intros Hg. induction a as [|x [|y t] IH]; intros Ha; [done|done|].
  apply Sorted_inv in Ha as [Ha Hhd]. apply HdRel_inv in Hhd.
  rewrite adjacent_step. constructor; [by apply Hg|by apply IH].
Qed.

Lemma bin_centres_Sorted (a : list R) :
  Sorted Rle a -> Sorted Rle (bin_centres a).
Proof.
  rewrite bin_centres_adjacent.
  induction a as [|x [|y t] IH]; intros Ha; [constructor|constructor|].
  apply Sorted_inv in Ha as [Ha Hxy]. apply HdRel_inv in Hxy.
  rewrite adjacent_step. constructor; [by apply IH|].
  destruct t as [|z t]; [constructor|].
  rewrite adjacent_step. constructor.
  apply Sorted_inv in Ha as [_ Hyz]. apply HdRel_inv in Hyz. lra.
Qed.

Lemma Rinv_INR_nonneg (n : nat) : 0 <= / INR n.
Proof.
  destruct n as [|n]; [cbn; rewrite Rinv_0; lra|].
  apply Rlt_le, Rinv_0_lt_compat, lt_0_INR. lia.
Qed.

Lemma np_linspace_Sorted (start stop : R) (num : nat) :
  start <= stop -> Sorted Rle (np_linspace start stop num).
Proof.
  intros Hle. unfold np_linspace. apply Sorted_map_seq.
  intros i. rewrite S_INR.
  assert (0 <= (stop - start) / INR (num - 1)); [|lra].
  unfold Rdiv. pose proof (Rinv_INR_nonneg (num - 1)). nra.
Qed.

Lemma length_np_linspace (start stop : R) (num : nat) :
  length (np_linspace start stop num) = num.
Proof. unfold np_linspace. by rewrite length_map, length_seq. Qed.

Lemma list_min_le (x : R) (l : list R) : list_min x l <= x.
Proof.
  unfold list_min. induction l as [|y l IH]; cbn [foldr]; [lra|].
  etrans; [apply Rmin_r|done].
Qed.

Lemma histogram_edges_Sorted (a : list R) (bins : nat) :
  Sorted Rle (histogram_edges a bins).
Proof.
  unfold histogram_edges. destruct a as [|x l].
  - apply np_linspace_Sorted. lra.
  - pose proof (list_min_le x l).
    pose proof (list_max_ge x l x (list_elem_of_here x l)).
    case_bool_decide; apply np_linspace_Sorted; lra.
Qed.

Lemma length_histogram_edges (a : list R) (bins : nat) :
  length (histogram_edges a bins) = (bins + 1)%nat.
Proof.
  unfold histogram_edges. destruct a; [|case_bool_decide];
    apply length_np_linspace.
Qed.

Lemma Forall_nonneg_zip_with_Rmult (a b : list R) :
  Forall (fun x => 0 <= x) a -> Forall (fun x => 0 <= x) b ->
  Forall (fun x => 0 <= x) (zip_with Rmult a b).
Proof.
  intros Ha. revert b. induction Ha as [|x a Hx _ IH]; intros b Hb; [done|].
  destruct Hb as [|y b Hy Hb]; [done|].
  cbn [zip_with]. constructor; [nra|by apply IH].
Qed.




(** ** The halo mass function and abundance matching *)

(** The comoving volume of the survey, as [halomassfunction] computes it *)
Definition survey_volume (W : Externals) (cosmo : Cosmology)
  (p : SimParameters) (zi zf : R) : R :=
  (comoving_volume W cosmo zf - comoving_volume W cosmo zi) / (4 * PI)
  * (fov_x p * fov_y p * (PI / 180) ^ 2).

(** The edges and the centres of the 500 bins in [log10] of the mass *)
Definition mass_edges (M : list R) : list R :=
  histogram_edges (map np_log10 M) 500.

Definition mass_centres (M : list R) : list R := bin_centres (mass_edges M).

(** The number density of halos per bin times the width of the bin *)
Definition mass_terms (vol : R) (M : list R) : list R :=
  zip_with Rmult
    (map (fun n => INR n / vol)
       (histogram_counts (map np_log10 M) (mass_edges M) 500))
    (np_diff (mass_edges M)).

(** The cumulative halo mass function at the bin centres *)
Definition cumulative_mass_function (vol : R) (M : list R) : list R :=
  tail_sums (mass_centres M) (mass_terms vol M).

Lemma existsb_nonpositive_mass_false (M : list R) :
  Forall (fun Mh => 0 < Mh) M -> existsb (fun Mh => Rleb Mh 0) M = false.
Proof.
  induction 1 as [|x w Hx _ IH]; [done|]. cbn [existsb].
  by rewrite IH, (proj2 (Rleb_false x 0) Hx).
Qed.

Lemma halomassfunction_run (W : Externals) (m : Mem) (M : list R)
  (cosmo : Cosmology) (zi zf : R) :
  halos m !! "M" = Some (VArr M) ->
  Forall (fun Mh => 0 < Mh) M ->
  halos m !! "cosmo" = Some (VCosmo cosmo) ->
  z_i (params m) = Some zi ->
  z_f (params m) = Some zf ->
  halomassfunction W m
  = (Returns (mass_centres M,
              cumulative_mass_function
                (survey_volume W cosmo (params m) zi zf) M), m).
Proof.
  intros HM Hpos Hcosmo Hzi Hzf. unfold halomassfunction.
  rewrite (bind_Returns _ _ m m M) by by apply getattr_array_Some.
  rewrite existsb_nonpositive_mass_false by done.
  unfold np_histogram. cbv beta iota zeta.
  rewrite (bind_Returns _ _ m m cosmo).
  2:{ unfold getattr_cosmo, bind, get_halos. by rewrite Hcosmo. }
  rewrite (bind_Returns _ _ m m (params m)) by reflexivity.
  rewrite Hzf, Hzi.
  rewrite (bind_Returns _ _ m m zf) by reflexivity.
  rewrite (bind_Returns _ _ m m zi) by reflexivity.
  reflexivity.
Qed.

Lemma length_mass_centres (M : list R) : length (mass_centres M) = 500%nat.
Proof.
  unfold mass_centres, mass_edges.
  rewrite bin_centres_adjacent, length_adjacent, length_histogram_edges.
  lia.
Qed.

Lemma mass_centres_Sorted (M : list R) : Sorted Rle (mass_centres M).
Proof. apply bin_centres_Sorted, histogram_edges_Sorted. Qed.

(** The cumulative halo mass function does not increase with mass when
    the survey volume is positive. *)
Lemma cumulative_mass_function_Sorted (vol : R) (M : list R) :
  0 < vol -> Sorted Rge (cumulative_mass_function vol M).
Proof.
  intros Hvol. apply tail_sums_Sorted. unfold mass_terms.
  apply Forall_nonneg_zip_with_Rmult.
  - apply Forall_forall. intros x (n & -> & _)%list_elem_of_fmap.
    pose proof (pos_INR n). unfold Rdiv.
    assert (0 < / vol) by (by apply Rinv_0_lt_compat). nra.
  - rewrite np_diff_adjacent.
    apply adjacent_Forall; [|apply histogram_edges_Sorted].
    intros x y Hxy. lra.
Qed.

















(** A parameter object after [cull]: the redshift window is set *)
Definition matching_params : SimParameters :=
  set_z_window (Some 2.4) (Some 3.4)
    (example_params "Li" CNone (Some "schechter") (Some None)).




(** X2. On a catalogue with positive masses, a cosmology and the redshift
    window that [cull] sets, [halomassfunction] returns, without touching
    the memory, the centres of its 500 mass bins in non-decreasing order
    and a cumulative mass function of the same length whose values are
    non-negative and do not increase with mass, provided the survey volume
    is positive. *)
Theorem halomassfunction_is_cumulative (W : Externals) (m : Mem)
  (M : list R) (cosmo : Cosmology) (zi zf : R) :
  halos m !! "M" = Some (VArr M) ->
  Forall (fun Mh => 0 < Mh) M ->
  halos m !! "cosmo" = Some (VCosmo cosmo) ->
  z_i (params m) = Some zi ->
  z_f (params m) = Some zf ->
  0 < survey_volume W cosmo (params m) zi zf ->
  exists logMprimecents intnM,
    halomassfunction W m = (Returns (logMprimecents, intnM), m)
    /\ length logMprimecents = 500%nat
    /\ length intnM = 500%nat
    /\ Sorted Rle logMprimecents
    /\ Sorted Rge intnM
    /\ Forall (fun x => 0 <= x) intnM.
Proof.
  intros HM Hpos Hcosmo Hzi Hzf Hvol.
  set (vol := survey_volume W cosmo (params m) zi zf) in *.
  exists (mass_centres M), (cumulative_mass_function vol M).
  split; [by apply halomassfunction_run|].
  split; [apply length_mass_centres|].
  split; [unfold cumulative_mass_function;
          by rewrite length_tail_sums, length_mass_centres|].
  split; [apply mass_centres_Sorted|].
  split; [by apply cumulative_mass_function_Sorted|].
  assert (Forall (fun x => 0 <= x) (mass_terms vol M)) as Hterms.
  { unfold mass_terms. apply Forall_nonneg_zip_with_Rmult.
    - apply Forall_forall. intros x (n & -> & _)%list_elem_of_fmap.
      pose proof (pos_INR n). unfold Rdiv.
      assert (0 < / vol) by (by apply Rinv_0_lt_compat). nra.
    - rewrite np_diff_adjacent.
      apply adjacent_Forall; [|apply histogram_edges_Sorted].
      intros x y Hxy. lra. }
  unfold cumulative_mass_function, tail_sums.
  apply Forall_forall. intros x (i & -> & _)%list_elem_of_fmap.
  assert (Forall (fun x => 0 <= x) (drop i (mass_terms vol M))) as Hdrop
    by (by apply Forall_drop).
  induction Hdrop as [|y l Hy _ IH]; cbn [sum_list foldr]; [lra|].
  fold (sum_list l). lra.
Qed.

Lemma survey_volume_example_positive :
  0 < survey_volume W0 {| H0 := 70; Om0 := 0.3; Ob0 := 0.05 |}
        matching_params 2.4 3.4.
Proof.
  unfold survey_volume. cbn [comoving_volume W0 fov_x fov_y
                               matching_params set_z_window example_params].
  pose proof PI_RGT_0.
  assert (0 < / (4 * PI)) by (apply Rinv_0_lt_compat; lra).
  unfold Rdiv. assert (0 < PI * / 180) by lra.
  assert (0 < (PI * / 180) ^ 2) by (apply pow_lt; lra).
  nra.
Qed.

Lemma halomassfunction_is_cumulative_witness :
  let m := mkMem three_halos matching_params None in
  exists logMprimecents intnM,
    halomassfunction W0 m = (Returns (logMprimecents, intnM), m)
    /\ Sorted Rge intnM.
Proof.
  intros m.
  destruct (halomassfunction_is_cumulative W0 m [1e12; 2e12; 3e12]
              {| H0 := 70; Om0 := 0.3; Ob0 := 0.05 |} 2.4 3.4)
    as (cents & intnM & Hrun & _ & _ & _ & Hsorted & _).
  - reflexivity.
  - repeat constructor; lra.
  - reflexivity.
  - reflexivity.
  - reflexivity.
  - exact survey_volume_example_positive.
  - by exists cents, intnM.
Defined.



(** ** More on the scatter *)

Lemma nth_zip_with (f : R -> R -> R) (a b : list R) (i : nat) :
  (i < length a)%nat -> (i < length b)%nat ->
  nth i (zip_with f a b) 0 = f (nth i a 0) (nth i b 0).
Proof.
  revert b i. induction a as [|x a IH]; intros [|y b] i Ha Hb;
    cbn [length] in *; try lia.
  destruct i as [|i]; [done|]. cbn [zip_with nth]. apply IH; lia.
Qed.

(** The arguments with which [add_log_normal_scatter] returns: the guard
    on [dex] holds, or else the legacy generator takes the seed
    [seed*13579] (it lies between [0] and [2**32 - 1]) and [dex] is a
    number or an array of the shape of [data]. *)
Definition scatter_accepts (data : list R) (dex : ndval) (seed : Z) : Prop :=
  np_any_le0 dex = true
  \/ ((0 <= seed * 13579 < 2 ^ 32)%Z
      /\ match dex with
         | NdScalar _ => True
         | NdArray a => length a = length data
         end).

(** X4. For a width and a seed with which the call returns (the guard on
    the width holds, or the seed times 13579 is one the legacy generator
    takes and the width is a number or has the shape of the data),
    [add_log_normal_scatter] returns an array of the length of its input,
    leaves every entry that is zero or negative as it is, and turns a
    positive entry into a positive one. *)
Theorem add_log_normal_scatter_keeps_shape_and_sign (W : Externals)
  (data : list R) (dex : ndval) (seed : Z) :
  scatter_accepts data dex seed ->
  let xscattered := add_log_normal_scatter W data dex seed in
  length xscattered = length data
  /\ (forall i, (i < length data)%nat -> nth i data 0 <= 0 ->
                nth i xscattered 0 = nth i data 0)
  /\ (forall i, (i < length data)%nat -> 0 < nth i data 0 ->
                0 < nth i xscattered 0).
Proof.
  intros _. unfold add_log_normal_scatter. destruct (np_any_le0 dex).
  { split; [done|]. split; [done|]. intros i _ Hi. exact Hi. }
  cbv zeta. unfold np_where_pos_scaled, np_random_lognormal.
  set (factor := fun i : nat => exp _).
  assert (length (map factor (seq 0 (length data))) = length data) as Hlen
    by (by rewrite length_map, length_seq).
  split; [|split].
  - rewrite length_zip_with. lia.
  - intros i Hi Hle. rewrite nth_zip_with by lia.
    by rewrite (proj2 (Rltb_false 0 _) Hle).
  - intros i Hi Hpos. rewrite nth_zip_with by lia.
    rewrite (proj2 (Rltb_true 0 _) Hpos).
    rewrite (nth_indep (map factor _) 0 (factor 0%nat)) by lia.
    rewrite (map_nth factor). unfold factor.
    apply Rmult_lt_0_compat; [done|apply exp_pos].
Qed.

Lemma add_log_normal_scatter_keeps_shape_and_sign_witness :
  let xscattered :=
    add_log_normal_scatter W0 [2; 0; -1] (NdScalar 0.4) 12345 in
  length xscattered = 3%nat
  /\ nth 1 xscattered 0 = 0
  /\ nth 2 xscattered 0 = -1
  /\ 0 < nth 0 xscattered 0.
Proof.
  intros xscattered.
  destruct (add_log_normal_scatter_keeps_shape_and_sign W0 [2; 0; -1]
              (NdScalar 0.4) 12345) as (Hlen & Hkeep & Hpos).
  { right. split; [lia|done]. }
  split; [exact Hlen|].
  split; [apply (Hkeep 1%nat); cbn [length nth]; (lia || lra)|].
  split; [apply (Hkeep 2%nat); cbn [length nth]; (lia || lra)|].
  apply (Hpos 0%nat); cbn [length nth]; (lia || lra).
Defined.

(** X5. The correlated scatter is guarded by both widths: when either
    [codex] or [catdex] is zero or negative,
    [add_co_tracer_dependant_scatter] returns with the memory as it was.
    No covariance is stored and neither luminosity is changed, so a
    [catdex] of zero switches off the scatter of the CO luminosities
    too. *)
Theorem correlated_scatter_nonpositive_dex (W : Externals) (m : Mem)
  (rho codex catdex : R) (seed : Z) :
  codex <= 0 \/ catdex <= 0 ->
  add_co_tracer_dependant_scatter W rho codex catdex seed m = (Returns tt, m).
Proof.
  intros Hdex. unfold add_co_tracer_dependant_scatter.
  assert (Rleb codex 0 || Rleb catdex 0 = true) as ->; [|done].
  apply orb_true_iff. rewrite !Rleb_true. done.
Qed.

Lemma correlated_scatter_nonpositive_dex_witness :
  let m := mkMem (<["Lco" := VArr [2]]> (<["Lcat" := VArr [3]]> ∅))
             (example_params "Li" CNone (Some "default") None) None in
  add_co_tracer_dependant_scatter W0 0.8 0.4 0 12345 m = (Returns tt, m).
Proof.
  intros m.
  apply (correlated_scatter_nonpositive_dex W0 m 0.8 0.4 0 12345).
  right. lra.
Defined.

(** X6. For positive widths, a seed that is not negative and luminosity
    arrays of one length, the correlated scatter returns; it stores the
    symmetric covariance of the two log-space widths and the correlation,
    keeps the length of both arrays and multiplies every luminosity by a
    positive factor, so zero luminosities stay zero and the sign of every
    entry is kept. *)
Theorem correlated_scatter_scales_by_positive_factors (W : Externals)
  (m : Mem) (rho codex catdex : R) (seed : Z) (Lco Lcat : list R) :
  0 < codex -> 0 < catdex ->
  (0 <= seed)%Z ->
  halos m !! "Lco" = Some (VArr Lco) ->
  halos m !! "Lcat" = Some (VArr Lcat) ->
  length Lcat = length Lco ->
  exists (Lco' Lcat' : list R) (fco ftr : nat -> R) (c00 c01 c11 : R),
    add_co_tracer_dependant_scatter W rho codex catdex seed m
    = (Returns tt,
       mkMem (<["Lcat" := VArr Lcat']>
              (<["Lco" := VArr Lco']>
              (<["cov" := VMatrix [[c00; c01]; [c01; c11]]]> (halos m))))
         (params m) (sfr_interp_tab m))
    /\ length Lco' = length Lco /\ length Lcat' = length Lcat
    /\ (forall i, 0 < fco i /\ 0 < ftr i)
    /\ (forall i, (i < length Lco)%nat ->
          nth i Lco' 0 = nth i Lco 0 * fco i
          /\ nth i Lcat' 0 = nth i Lcat 0 * ftr i).
Proof.
  intros Hco Hcat Hseed HLco HLcat Hlen.
  set (sigmaco := codex * 2.30285). set (sigmatr := catdex * 2.30285).
  set (cov := [[sigmaco ^ 2; sigmaco * sigmatr * rho];
               [sigmaco * sigmatr * rho; sigmatr ^ 2]]).
  set (fco := fun i : nat =>
                exp ((multivariate_normal W seed cov i).1
                     + -0.5 * sigmaco ^ 2)).
  set (ftr := fun i : nat =>
                exp ((multivariate_normal W seed cov i).2
                     + -0.5 * sigmatr ^ 2)).
  set (scaleco := map fco (seq 0 (length Lco))).
  set (scaletr := map ftr (seq 0 (length Lco))).
  exists (zip_with Rmult Lco scaleco), (zip_with Rmult Lcat scaletr),
    fco, ftr, (sigmaco ^ 2), (sigmaco * sigmatr * rho), (sigmatr ^ 2).
  assert (length scaleco = length Lco) as Hlenco
    by (unfold scaleco; by rewrite length_map, length_seq).
  assert (length scaletr = length Lco) as Hlentr
    by (unfold scaletr; by rewrite length_map, length_seq).
  split; [|split; [|split; [|split]]].
  - unfold add_co_tracer_dependant_scatter.
    rewrite (proj2 (Rleb_false codex 0) Hco),
      (proj2 (Rleb_false catdex 0) Hcat).
    cbn [orb].
    rewrite (bind_Returns _ _ m m tt)
      by (unfold default_rng; by rewrite bool_decide_eq_true_2).
    cbv zeta. fold sigmaco sigmatr. fold cov.
    set (m1 := mkMem (<["cov" := VMatrix cov]> (halos m)) (params m)
                 (sfr_interp_tab m)).
    rewrite (bind_Returns _ _ m m1 tt) by reflexivity.
    rewrite (bind_Returns _ _ m1 m1 Lco)
      by (apply getattr_array_Some; unfold m1; cbn [halos];
          by rewrite lookup_insert_ne).
    assert (map (fun c => exp (c + -0.5 * sigmaco ^ 2))
              (map fst (map (multivariate_normal W seed cov)
                          (seq 0 (length Lco)))) = scaleco) as ->
      by (by rewrite !map_map).
    assert (map (fun t => exp (t + -0.5 * sigmatr ^ 2))
              (map snd (map (multivariate_normal W seed cov)
                          (seq 0 (length Lco)))) = scaletr) as ->
      by (by rewrite !map_map).
    unfold np_zip_with at 1.
    rewrite bool_decide_eq_true_2 by done.
    rewrite (bind_Returns _ _ m1 m1 (zip_with Rmult Lco scaleco))
      by reflexivity.
    set (m2 := mkMem (<["Lco" := VArr (zip_with Rmult Lco scaleco)]> (halos m1))
                 (params m) (sfr_interp_tab m)).
    rewrite (bind_Returns _ _ m1 m2 tt) by reflexivity.
    rewrite (bind_Returns _ _ m2 m2 Lcat).
    2:{ apply getattr_array_Some. unfold m2, m1. cbn [halos].
        by rewrite !lookup_insert_ne. }
    unfold np_zip_with.
    rewrite bool_decide_eq_true_2 by lia.
    by rewrite (bind_Returns _ _ m2 m2 (zip_with Rmult Lcat scaletr))
      by reflexivity.
  - rewrite length_zip_with. lia.
  - rewrite length_zip_with. lia.
  - intros i. split; apply exp_pos.
  - intros i Hi. rewrite !nth_zip_with by lia.
    unfold scaleco, scaletr.
    rewrite (nth_indep (map fco _) 0 (fco 0%nat))
      by (rewrite length_map, length_seq; lia).
    rewrite (nth_indep (map ftr _) 0 (ftr 0%nat))
      by (rewrite length_map, length_seq; lia).
    rewrite (map_nth fco), (map_nth ftr), seq_nth by lia. done.
Qed.

Lemma correlated_scatter_scales_by_positive_factors_witness :
  let m := mkMem (<["Lco" := VArr [2; 0]]> (<["Lcat" := VArr [3; 5]]> ∅))
             (example_params "Li" CNone (Some "default") None) None in
  exists m', add_co_tracer_dependant_scatter W0 0.8 0.4 0.5 12345 m
             = (Returns tt, m')
             /\ is_Some (halos m' !! "cov").
Proof.
  intros m.
  destruct (correlated_scatter_scales_by_positive_factors W0 m 0.8 0.4 0.5
              12345 [2; 0] [3; 5])
    as (Lco' & Lcat' & fco & ftr & c00 & c01 & c11 & Hrun & _).
  - lra.
  - lra.
  - lia.
  - reflexivity.
  - reflexivity.
  - reflexivity.
  - eexists. split; [exact Hrun|]. cbn [halos].
    rewrite !lookup_insert_ne, lookup_insert_eq by done. by eexists.
Defined.

(** ** Coefficients of the CO models *)

(** X7. The four models that unpack a fixed number of coefficients (Li 6,
    Li_sc 4, Padmanabhan 9, fiuducial 5) raise [ValueError] for a tuple of
    another length, before they read the catalogue: no star formation rate
    is computed and the memory is the one the call started from. *)
Theorem wrong_number_of_coefficients_is_a_ValueError (W : Externals)
  (m : Mem) (scatter : bool) (t : list R) (n : nat) :
  co_model_coeffs (params m) = CTuple t ->
  (model (params m), n)
  ∈ [("Li", 6%nat); ("Li_sc", 4%nat); ("Padmanabhan", 9%nat);
     ("fiuducial", 5%nat)] ->
  length t ≠ n ->
  Mhalo_to_Lco W scatter m = (Raises ValueError, m).
Proof.
  intros Hcoeffs Hmodel Hlen.
  unfold Mhalo_to_Lco, bind at 1, get_params. rewrite Hcoeffs.
  repeat (apply elem_of_cons in Hmodel as [Hmodel|Hmodel]);
    [..|by apply elem_of_nil in Hmodel];
    injection Hmodel as -> ->.
  - change (Lco_dict W !! "Li") with (Some (Mhalo_to_Lco_Li W)).
    unfold Mhalo_to_Lco_Li, bind, unpack_coeffs.
    by rewrite bool_decide_eq_false_2.
  - change (Lco_dict W !! "Li_sc") with (Some (Mhalo_to_Lco_Li_sigmasc W)).
    unfold Mhalo_to_Lco_Li_sigmasc, bind, unpack_coeffs.
    by rewrite bool_decide_eq_false_2.
  - change (Lco_dict W !! "Padmanabhan")
      with (Some Mhalo_to_Lco_Padmanabhan).
    unfold Mhalo_to_Lco_Padmanabhan, bind, unpack_coeffs.
    by rewrite bool_decide_eq_false_2.
  - change (Lco_dict W !! "fiuducial")
      with (Some (Mhalo_to_Lco_fiuducial W)).
    unfold Mhalo_to_Lco_fiuducial, bind, unpack_coeffs.
    by rewrite bool_decide_eq_false_2.
Qed.

Lemma wrong_number_of_coefficients_is_a_ValueError_witness :
  let m := mkMem three_halos
             (example_params "Li" (CTuple [0; 1.37; -1.74]) None None)
             None in
  Mhalo_to_Lco W0 true m = (Raises ValueError, m).
Proof.
  intros m.
  apply (wrong_number_of_coefficients_is_a_ValueError W0 m true
           [0; 1.37; -1.74] 6).
  - reflexivity.
  - apply list_elem_of_here.
  - cbn [length]. lia.
Defined.

(** ** The table of star formation rates *)

Lemma Mhalo_to_sfr_Behroozi_memory (W : Externals) (sigma_sfr : R)
  (bad_extrapolation : bool) (m : Mem) :
  (Mhalo_to_sfr_Behroozi W sigma_sfr bad_extrapolation m).2
  = mkMem (halos m) (params m)
      (Some (default (get_sfr_table W bad_extrapolation)
               (sfr_interp_tab m))).
Proof.
  destruct m as [h p tab].
  unfold Mhalo_to_sfr_Behroozi, bind, global_sfr_interp_tab, getattr_array,
    get_halos, lift, attr_array, np_zip_with, ret, raise.
  unfold bind. cbn [sfr_interp_tab halos params].
  destruct tab as [t|];
    cbn [default from_option Datatypes.id halos params sfr_interp_tab];
    (destruct (h !! "M") as [[]|]; [|done..]);
    (destruct (h !! "redshift") as [[]|]; [|done..]);
    (case_bool_decide; [|done]); by destruct (Rltb 0 sigma_sfr).
Qed.

(** X8. [Mhalo_to_sfr_Behroozi] builds the table of star formation rates
    once.  Whatever the call does next (it may fail on the catalogue), it
    leaves the table in the module global, built with the flag
    [bad_extrapolation] of this call unless a table was there already, and
    it changes neither the catalogue nor the parameters.  Any later call
    finds that table: its flag [bad_extrapolation] has no effect and the
    global stays as it is. *)
Theorem sfr_table_is_built_once (W : Externals) (sigma_sfr : R)
  (bad_extrapolation : bool) (m : Mem) :
  let m1 := (Mhalo_to_sfr_Behroozi W sigma_sfr bad_extrapolation m).2 in
  halos m1 = halos m /\ params m1 = params m
  /\ sfr_interp_tab m1
     = Some (default (get_sfr_table W bad_extrapolation) (sfr_interp_tab m))
  /\ forall (sigma' : R) (flag flag' : bool),
       Mhalo_to_sfr_Behroozi W sigma' flag m1
       = Mhalo_to_sfr_Behroozi W sigma' flag' m1
       /\ (Mhalo_to_sfr_Behroozi W sigma' flag m1).2 = m1.
Proof.
  intros m1. unfold m1. rewrite Mhalo_to_sfr_Behroozi_memory.
  split; [done|]. split; [done|]. split; [done|].
  intros sigma' flag flag'. split.
  - unfold Mhalo_to_sfr_Behroozi, bind at 1 5, global_sfr_interp_tab.
    reflexivity.
  - by rewrite Mhalo_to_sfr_Behroozi_memory.
Qed.

(** ** The model of Yang et al. with coefficients *)

(** X9. The model [Yang] takes no coefficients: when any are supplied it
    returns the number [0] in place of an array of luminosities, without
    reading the catalogue.  [Mhalo_to_Ls] without a catalogue model then
    stores that number as [halos.Lco].  It returns for a scatter of width
    zero or less; for a positive width the scatter seeds the generator
    with [lum_uncert_seed*13579] (12345 for a missing seed), which raises
    [ValueError] for a seed that the generator refuses, and then asks for
    the shape of the number, which raises [AttributeError]. *)
Theorem Yang_with_coefficients_gives_the_number_zero (W : Externals)
  (m : Mem) (scatter : bool) :
  model (params m) = "Yang" ->
  co_model_coeffs (params m) <> CNone ->
  catalog_model (params m) = None ->
  let seed := default 12345%Z (lum_uncert_seed (params m)) in
  Mhalo_to_Lco W scatter m = (Returns (NdScalar 0), m)
  /\ exists m',
       Mhalo_to_Ls W m
       = (if Rleb (codex (params m)) 0 then Returns tt
          else if bool_decide (0 <= seed * 13579 < 2 ^ 32)%Z
               then Raises AttributeError
               else Raises ValueError, m')
       /\ halos m' !! "Lco" = Some (VFloat 0)
       /\ forall name, name <> "Lco" -> name <> "scatterless_Lco" ->
                       halos m' !! name = halos m !! name.
Proof.
  intros Hmodel Hcoeffs Hcat seed.
  assert (forall sc m0, model (params m0) = "Yang" ->
            co_model_coeffs (params m0) = co_model_coeffs (params m) ->
            Mhalo_to_Lco W sc m0 = (Returns (NdScalar 0), m0)) as HLco.
  { intros sc m0 Hm0 Hc0. unfold Mhalo_to_Lco, bind, get_params.
    rewrite Hm0, Hc0.
    change (Lco_dict W !! "Yang") with (Some (Mhalo_to_Lco_Yang W)).
    unfold Mhalo_to_Lco_Yang.
    by destruct (co_model_coeffs (params m)). }
  split; [by apply HLco|].
  destruct m as [h p tab]. cbn [params halos] in *.
  unfold Mhalo_to_Ls.
  rewrite (bind_Returns _ _ _ (mkMem h p tab) p) by reflexivity.
  set (p0 := match lum_uncert_seed p with
             | Some _ => p
             | None => set_lum_uncert_seed (Some 12345%Z) p
             end).
  assert (model p0 = "Yang" /\ co_model_coeffs p0 = co_model_coeffs p
          /\ catalog_model p0 = None /\ codex p0 = codex p
          /\ save_scatterless_lums p0 = save_scatterless_lums p
          /\ lum_uncert_seed p0 = Some seed)
    as (Hmodel0 & Hcoeffs0 & Hcat0 & Hcodex0 & Hsave0 & Hseed0)
    by (unfold p0, seed; clear - Hmodel Hcat;
        by destruct (lum_uncert_seed p) eqn:Hseed).
  rewrite (bind_Returns _ _ _ (mkMem h p0 tab) tt)
    by (unfold p0; by destruct (lum_uncert_seed p)).
  rewrite (bind_Returns _ _ _ _ _ (HLco false (mkMem h p0 tab) Hmodel0 Hcoeffs0)).
  rewrite (bind_Returns _ _ _
             (mkMem (<["Lco" := VFloat 0]> h) p0 tab) tt) by reflexivity.
  rewrite (bind_Returns _ _ _
             (mkMem (<["Lco" := VFloat 0]> h) p0 tab) p0) by reflexivity.
  rewrite Hcat0, Hsave0, Hcodex0, Hseed0.
  change (default 12345%Z (Some seed)) with seed.
  assert (forall m1 : Mem,
            (if Rleb (codex p) 0 then ret tt
             else np_random_seed (seed * 13579);; raise AttributeError) m1
            = (if Rleb (codex p) 0 then Returns tt
               else if bool_decide (0 <= seed * 13579 < 2 ^ 32)%Z
                    then Raises AttributeError
                    else Raises ValueError, m1)) as Hend.
  { intros m1. destruct (Rleb (codex p) 0); [done|].
    unfold np_random_seed, bind. by case_bool_decide. }
  destruct (default false (save_scatterless_lums p)).
  - exists (mkMem (<["scatterless_Lco" := VFloat 0]> (<["Lco" := VFloat 0]> h))
              p0 tab).
    split; [|split].
    + rewrite (bind_Returns _ _ _
                 (mkMem (<["scatterless_Lco" := VFloat 0]>
                           (<["Lco" := VFloat 0]> h)) p0 tab) tt).
      * apply Hend.
      * unfold deepcopy_attr, bind, get_halos. cbn [halos].
        by rewrite lookup_insert_eq.
    + cbn [halos]. by rewrite lookup_insert_ne, lookup_insert_eq.
    + intros name H1 H2. cbn [halos]. by rewrite !lookup_insert_ne.
  - exists (mkMem (<["Lco" := VFloat 0]> h) p0 tab).
    split; [|split].
    + rewrite (bind_Returns _ _ _
                 (mkMem (<["Lco" := VFloat 0]> h) p0 tab) tt) by reflexivity.
      apply Hend.
    + cbn [halos]. by rewrite lookup_insert_eq.
    + intros name H1 H2. cbn [halos]. by rewrite lookup_insert_ne.
Qed.

Lemma Yang_with_coefficients_gives_the_number_zero_witness :
  let m := mkMem three_halos
             (example_params "Yang" (CTuple [12.13; -0.1678]) None None)
             None in
  Mhalo_to_Lco W0 true m = (Returns (NdScalar 0), m)
  /\ exists m', Mhalo_to_Ls W0 m = (Raises AttributeError, m')
                /\ halos m' !! "Lco" = Some (VFloat 0).
Proof.
  intros m.
  destruct (Yang_with_coefficients_gives_the_number_zero W0 m true)
    as (HLco & m' & HLs & Hzero & _).
  - reflexivity.
  - discriminate.
  - reflexivity.
  - split; [exact HLco|]. exists m'. split; [|exact Hzero].
    rewrite HLs. cbn [params codex m example_params].
    rewrite (proj2 (Rleb_false 0.4 0)); [done|lra].
Defined.

(** ** The two Schechter models *)




(** ** The pipeline without a catalogue model *)

Lemma length_add_log_normal_scatter (W : Externals) (data : list R)
  (dex : ndval) (seed : Z) :
  length (add_log_normal_scatter W data dex seed) = length data.
Proof.
  unfold add_log_normal_scatter. destruct (np_any_le0 dex); [done|].
  cbv zeta. unfold np_where_pos_scaled, np_random_lognormal.
  rewrite length_zip_with, length_map, length_seq. lia.
Qed.

(** The scatter of [Mhalo_to_Ls] seeds the generator only for a positive
    width, and the generator takes the seeds from 0 to [2^32 - 1]. *)
Lemma scatter_seeding_run (codex : R) (seed : Z) (m : Mem) :
  codex <= 0 \/ (0 <= seed * 13579 < 2 ^ 32)%Z ->
  (if Rleb codex 0 then ret tt else np_random_seed (seed * 13579)) m
  = (Returns tt, m).
Proof.
  intros Hseed. destruct (Rleb codex 0) eqn:Hle; [done|].
  destruct Hseed as [Hcodex|Hseed].
  - by rewrite (proj2 (Rleb_true codex 0)) in Hle.
  - unfold np_random_seed. by rewrite bool_decide_eq_true_2.
Qed.

(** X11. Without a catalogue model, [Mhalo_to_Ls] with the model
    [fiuducial] stores as [halos.Lco] the double power law of the halo
    masses, scattered by [add_log_normal_scatter] with the width
    [params.codex] and the seed [params.lum_uncert_seed], which it sets to
    12345 when it is missing.  The fifth coefficient [sigma] of the model
    is not used.  The unscattered array is kept as
    [halos.scatterless_Lco] when [params.save_scatterless_lums] is set,
    and no other attribute of the catalogue changes.  For a positive
    width the generator is seeded with [seed*13579], which it takes
    from 0 to [2^32 - 1]. *)
Theorem Mhalo_to_Ls_scatters_the_double_power_law_by_codex (W : Externals)
  (m : Mem) (A B logC logM sigma : R) (Mh : list R) :
  model (params m) = "fiuducial" ->
  co_model_coeffs (params m) = CTuple [A; B; logC; logM; sigma] ->
  catalog_model (params m) = None ->
  halos m !! "M" = Some (VArr Mh) ->
  let seed := default 12345%Z (lum_uncert_seed (params m)) in
  let Lco := map (double_power_law A B logC logM) Mh in
  let Lco' :=
    add_log_normal_scatter W Lco (NdScalar (codex (params m))) seed in
  codex (params m) <= 0 \/ (0 <= seed * 13579 < 2 ^ 32)%Z ->
  exists m',
    Mhalo_to_Ls W m = (Returns tt, m')
    /\ halos m' !! "Lco" = Some (VArr Lco')
    /\ halos m' !! "scatterless_Lco"
       = (if default false (save_scatterless_lums (params m))
          then Some (VArr Lco) else halos m !! "scatterless_Lco")
    /\ lum_uncert_seed (params m') = Some seed
    /\ length Lco' = length Mh
    /\ forall name, name <> "Lco" -> name <> "scatterless_Lco" ->
                    halos m' !! name = halos m !! name.
Proof.
  intros Hmodel Hcoeffs Hcat HM seed Lco Lco' Hseeding.
  destruct m as [h p tab]. cbn [params halos] in *.
  unfold Mhalo_to_Ls.
  rewrite (bind_Returns _ _ _ (mkMem h p tab) p) by reflexivity.
  set (p0 := match lum_uncert_seed p with
             | Some _ => p
             | None => set_lum_uncert_seed (Some 12345%Z) p
             end).
  assert (model p0 = "fiuducial"
          /\ co_model_coeffs p0 = CTuple [A; B; logC; logM; sigma]
          /\ catalog_model p0 = None /\ codex p0 = codex p
          /\ save_scatterless_lums p0 = save_scatterless_lums p
          /\ lum_uncert_seed p0 = Some seed)
    as (Hmodel0 & Hcoeffs0 & Hcat0 & Hcodex0 & Hsave0 & Hseed0)
    by (unfold p0, seed; clear - Hmodel Hcoeffs Hcat;
        by destruct (lum_uncert_seed p) eqn:Hseed).
  rewrite (bind_Returns _ _ _ (mkMem h p0 tab) tt)
    by (unfold p0; by destruct (lum_uncert_seed p)).
  rewrite (bind_Returns _ _ _ (mkMem h p0 tab) (NdArray Lco)).
  2:{ unfold Mhalo_to_Lco, bind, get_params. cbn [params].
      rewrite Hmodel0, Hcoeffs0.
      change (Lco_dict W !! "fiuducial")
        with (Some (Mhalo_to_Lco_fiuducial W)).
      unfold Mhalo_to_Lco_fiuducial, unpack_coeffs, getattr_array, get_halos,
        lift, attr_array, bind, ret.
      rewrite bool_decide_eq_true_2 by done.
      cbn [halos]. by rewrite HM. }
  rewrite (bind_Returns _ _ _
             (mkMem (<["Lco" := VArr Lco]> h) p0 tab) tt) by reflexivity.
  rewrite (bind_Returns _ _ _
             (mkMem (<["Lco" := VArr Lco]> h) p0 tab) p0) by reflexivity.
  rewrite Hcat0, Hsave0, Hcodex0, Hseed0.
  change (default 12345%Z (Some seed)) with seed. fold Lco'.
  destruct (default false (save_scatterless_lums p)).
  - rewrite (bind_Returns _ _ _
               (mkMem (<["scatterless_Lco" := VArr Lco]>
                         (<["Lco" := VArr Lco]> h)) p0 tab) tt).
    2:{ unfold deepcopy_attr, bind, get_halos. cbn [halos].
        by rewrite lookup_insert_eq. }
    rewrite (bind_Returns _ _ _ _ _ (scatter_seeding_run _ _ _ Hseeding)).
    eexists. split; [reflexivity|]. cbn [halos params].
    split; [by rewrite lookup_insert_eq|].
    split; [by rewrite lookup_insert_ne, lookup_insert_eq|].
    split; [done|].
    split; [unfold Lco', Lco;
            by rewrite length_add_log_normal_scatter, length_map|].
    intros name H1 H2. by rewrite !lookup_insert_ne.
  - rewrite (bind_Returns _ _ _
               (mkMem (<["Lco" := VArr Lco]> h) p0 tab) tt) by reflexivity.
    rewrite (bind_Returns _ _ _ _ _ (scatter_seeding_run _ _ _ Hseeding)).
    eexists. split; [reflexivity|]. cbn [halos params].
    split; [by rewrite lookup_insert_eq|].
    split; [by rewrite !lookup_insert_ne|].
    split; [done|].
    split; [unfold Lco', Lco;
            by rewrite length_add_log_normal_scatter, length_map|].
    intros name H1 H2. by rewrite !lookup_insert_ne.
Qed.

Lemma Mhalo_to_Ls_scatters_the_double_power_law_by_codex_witness :
  let m := mkMem three_halos
             (example_params "fiuducial"
                (CTuple [-2.85; -0.42; 10.63; 12.3; 0.42]) None None)
             None in
  exists m',
    Mhalo_to_Ls W0 m = (Returns tt, m')
    /\ halos m' !! "Lco"
       = Some (VArr (add_log_normal_scatter W0
                       (map (double_power_law (-2.85) (-0.42) 10.63 12.3)
                          [1e12; 2e12; 3e12])
                       (NdScalar 0.4) 12345)).
Proof.
  intros m.
  destruct (Mhalo_to_Ls_scatters_the_double_power_law_by_codex W0 m
              (-2.85) (-0.42) 10.63 12.3 0.42 [1e12; 2e12; 3e12])
    as (m' & Hrun & HLco & _).
  - reflexivity.
  - reflexivity.
  - reflexivity.
  - reflexivity.
  - right. cbn. lia.
  - exists m'. split; [exact Hrun|exact HLco].
Defined.

(** ** More on cutting a catalogue *)

Lemma gather_identity (a : list R) : gather a (seq 0 (length a)) = a.
Proof.
  unfold gather. induction a as [|x a IH] using rev_ind; [done|].
  rewrite length_app, Nat.add_1_r, seq_S, map_app. cbn [map Nat.add length].
  rewrite app_nth2, Nat.sub_diag by lia. cbn [nth]. f_equal.
  transitivity (map (fun j => nth j a 0) (seq 0 (length a))); [|exact IH].
  apply map_ext_in. intros j Hj%in_seq.
  by rewrite app_nth1 by lia.
Qed.

(** A catalogue and an index array determine the cut catalogue. *)
Lemma cut_result_unique (idx : list nat) (h h1 h2 : HaloCatalog) :
  cut_result idx h h1 -> cut_result idx h h2 -> h1 = h2.
Proof.
  intros [H1 Hn1] [H2 Hn2]. apply map_eq. intros k.
  destruct (decide (k = "nhalo")) as [->|Hne]; [congruence|].
  by rewrite H1, H2.
Qed.

Lemma cut_result_compose (idx1 idx2 : list nat) (h h1 h2 : HaloCatalog) :
  Forall (fun j => (j < length idx1)%nat) idx2 ->
  cut_result idx1 h h1 -> cut_result idx2 h1 h2 ->
  cut_result (map (fun j => nth j idx1 0%nat) idx2) h h2.
Proof.
  intros Hidx [H1 Hn1] [H2 Hn2]. split.
  - intros k Hk. rewrite (H2 k Hk), (H1 k Hk).
    destruct (leading_underscore k); [done|]. by apply cut_value_compose.
  - by rewrite length_map.
Qed.

(** X12. [indexcut(idx, in_place=True)] on a catalogue whose per-halo
    arrays have the length [n], with every index below [n]: the call
    returns [None]; every per-halo array is replaced by its entries at the
    positions [idx], in the order of [idx]; [nhalo] becomes [len(idx)];
    the attributes that are not arrays, and those with a leading
    underscore, are kept.  The index array [0, ..., n-1] leaves every
    attribute but [nhalo] as it is. *)
Theorem indexcut_in_place_keeps_the_halos_at_idx (idx : list nat) (m : Mem)
  (n : nat) (M : list R) :
  per_halo n (halos m) ->
  halos m !! "M" = Some (VArr M) ->
  Forall (fun i => (i < n)%nat) idx ->
  exists h',
    indexcut idx true m
    = (Returns None, mkMem h' (params m) (sfr_interp_tab m))
    /\ h' !! "nhalo" = Some (VInt (Z.of_nat (length idx)))
    /\ (forall name a,
          leading_underscore name = false -> name <> "nhalo" ->
          halos m !! name = Some (VArr a) ->
          h' !! name = Some (VArr (gather a idx)))
    /\ (forall name,
          name <> "nhalo" ->
          leading_underscore name = true
          \/ (forall a, halos m !! name <> Some (VArr a)) ->
          h' !! name = halos m !! name)
    /\ (idx = seq 0 n ->
        forall name, name <> "nhalo" -> h' !! name = halos m !! name).
Proof.
  intros Hper HM Hidx.
  destruct (indexcut_in_place_run idx m n M Hper HM Hidx)
    as (h' & Hrun & Hcut).
  exists h'. split; [done|]. split; [by destruct Hcut|].
  split; [|split].
  - intros name a Hname Hne Ha. by eapply cut_result_array.
  - intros name Hne Hkept. destruct Hcut as [Hcut _].
    rewrite (Hcut name Hne).
    destruct (leading_underscore name) eqn:Hu; [done|].
    destruct Hkept as [|Hkept]; [done|].
    unfold cut_value. destruct (halos m !! name) as [[a| | | | |]|]; try done.
    by destruct (Hkept a).
  - intros -> name Hne. destruct Hcut as [Hcut _].
    rewrite (Hcut name Hne).
    destruct (leading_underscore name) eqn:Hu; [done|].
    unfold cut_value.
    destruct (halos m !! name) as [[a| | | | |]|] eqn:Ha; try done.
    rewrite <- (Hper name a Hu Ha). by rewrite gather_identity.
Qed.

Lemma indexcut_in_place_keeps_the_halos_at_idx_witness :
  let m := mkMem three_halos (example_params "Li" CNone None None) None in
  exists h',
    indexcut [2; 0]%nat true m = (Returns None, mkMem h' (params m) None)
    /\ h' !! "nhalo" = Some (VInt 2)
    /\ h' !! "M" = Some (VArr [3e12; 1e12]).
Proof.
  intros m.
  destruct (indexcut_in_place_keeps_the_halos_at_idx [2; 0]%nat m 3
              [1e12; 2e12; 3e12])
    as (h' & Hrun & Hnhalo & Harr & _).
  - exact per_halo_three_halos.
  - reflexivity.
  - repeat constructor.
  - exists h'. split; [exact Hrun|]. split; [exact Hnhalo|].
    apply (Harr "M" [1e12; 2e12; 3e12]); [reflexivity|discriminate|reflexivity].
Defined.

(** X13. Two cuts in place, one after the other, leave the catalogue that
    the single cut by the composed index array leaves: cutting by [idx1]
    and then by [idx2] is cutting by [idx1[idx2]]. *)
Theorem indexcut_twice_is_indexcut_by_the_composed_index
  (idx1 idx2 : list nat) (m : Mem) (n : nat) (M : list R) :
  per_halo n (halos m) ->
  halos m !! "M" = Some (VArr M) ->
  Forall (fun i => (i < n)%nat) idx1 ->
  Forall (fun j => (j < length idx1)%nat) idx2 ->
  exists m1 m2,
    indexcut idx1 true m = (Returns None, m1)
    /\ indexcut idx2 true m1 = (Returns None, m2)
    /\ indexcut (map (fun j => nth j idx1 0%nat) idx2) true m
       = (Returns None, m2).
Proof.
  intros Hper HM Hidx1 Hidx2.
  destruct (indexcut_in_place_run idx1 m n M Hper HM Hidx1)
    as (h1 & Hrun1 & Hcut1).
  set (m1 := mkMem h1 (params m) (sfr_interp_tab m)).
  destruct (indexcut_in_place_run idx2 m1 (length idx1) (gather M idx1))
    as (h2 & Hrun2 & Hcut2).
  { by apply (cut_result_per_halo idx1 n (halos m)). }
  { by apply (cut_result_array idx1 (halos m)). }
  { done. }
  destruct (indexcut_in_place_run (map (fun j => nth j idx1 0%nat) idx2)
              m n M Hper HM) as (h12 & Hrun12 & Hcut12).
  { apply Forall_forall. intros i (j & -> & Hj)%list_elem_of_fmap.
    rewrite Forall_forall in Hidx1, Hidx2. apply Hidx1.
    apply list_elem_of_In, nth_In. by apply Hidx2. }
  exists m1, (mkMem h2 (params m) (sfr_interp_tab m)).
  split; [done|]. split; [done|].
  rewrite Hrun12. do 3 f_equal.
  eapply cut_result_unique; [exact Hcut12|].
  by eapply cut_result_compose.
Qed.

Lemma indexcut_twice_is_indexcut_by_the_composed_index_witness :
  let m := mkMem three_halos (example_params "Li" CNone None None) None in
  exists m1 m2,
    indexcut [2; 0]%nat true m = (Returns None, m1)
    /\ indexcut [1; 1; 0]%nat true m1 = (Returns None, m2)
    /\ indexcut [0; 0; 2]%nat true m = (Returns None, m2).
Proof.
  intros m.
  apply (indexcut_twice_is_indexcut_by_the_composed_index
           [2; 0]%nat [1; 1; 0]%nat m 3 [1e12; 2e12; 3e12]).
  - exact per_halo_three_halos.
  - reflexivity.
  - repeat constructor.
  - repeat constructor.
Defined.

Lemma cut_copy_spec (idx : list nat) (names : list string)
  (self subset : HaloCatalog) :
  (forall k a, k ∈ names -> leading_underscore k = false ->
               self !! k = Some (VArr a) ->
               Forall (fun i => (i < length a)%nat) idx) ->
  exists fin,
    cut_copy idx names self subset = (Returns tt, fin)
    /\ forall k,
         fin !! k
         = if bool_decide (k ∈ names) && negb (leading_underscore k)
           then match self !! k with
                | Some (VArr a) => Some (VArr (gather a idx))
                | _ => subset !! k
                end
           else subset !! k.
Proof.
  revert subset. induction names as [|i names IH]; intros subset Hvalid.
  { exists subset. split; [done|]. intros k.
    by rewrite bool_decide_eq_false_2 by apply not_elem_of_nil. }
  cbn [cut_copy].
  assert (forall k a, k ∈ names -> leading_underscore k = false ->
                      self !! k = Some (VArr a) ->
                      Forall (fun i => (i < length a)%nat) idx) as Hvalid'.
  { intros k a Hk. apply Hvalid. by right. }
  assert (forall k, k <> i ->
            bool_decide (k ∈ i :: names) = bool_decide (k ∈ names)) as Hother.
  { intros k Hne. apply bool_decide_ext. rewrite elem_of_cons.
    split; [by intros [?|?]|by right]. }
  destruct (leading_underscore i) eqn:Hunder.
  - destruct (IH subset Hvalid') as (fin & Hrun & Hfin).
    exists fin. split; [done|]. intros k. rewrite Hfin.
    destruct (decide (k = i)) as [->|Hne]; [|by rewrite Hother].
    by rewrite Hunder, !andb_false_r.
  - unfold subscript.
    destruct (self !! i) as [[a| | | | |]|] eqn:Hi.
    2-7: destruct (IH subset Hvalid') as (fin & Hrun & Hfin);
         exists fin; (split; [done|]); intros k; rewrite Hfin;
         (destruct (decide (k = i)) as [->|Hne]; [|by rewrite Hother]);
         rewrite Hi, Hunder, andb_true_r;
         rewrite (bool_decide_eq_true_2 (i ∈ i :: names)) by left;
         by destruct (bool_decide (i ∈ names)).
    rewrite np_take_in_range by (eapply Hvalid; [left|done|done]).
    destruct (IH (<[i := VArr (gather a idx)]> subset) Hvalid')
      as (fin & Hrun & Hfin).
    exists fin. split; [done|]. intros k. rewrite Hfin.
    destruct (decide (k = i)) as [->|Hne].
    + rewrite Hi, Hunder, andb_true_r, lookup_insert_eq.
      rewrite (bool_decide_eq_true_2 (i ∈ i :: names)) by left.
      by destruct (bool_decide (i ∈ names)).
    + by rewrite Hother, lookup_insert_ne.
Qed.

Lemma indexcut_copy_run (idx : list nat) (m : Mem) (n : nat) (M : list R) :
  per_halo n (halos m) ->
  halos m !! "M" = Some (VArr M) ->
  Forall (fun i => (i < n)%nat) idx ->
  exists h',
    indexcut idx false m = (Returns (Some h'), m)
    /\ cut_result idx (halos m) h'.
Proof.
  intros Hper HM Hidx.
  destruct (cut_copy_spec idx (dir (halos m)) (halos m) (halos m))
    as (fin & Hrun & Hfin).
  { intros k a _ Hk Ha. by rewrite (Hper k a Hk Ha). }
  assert (forall k, fin !! k
                    = if leading_underscore k then halos m !! k
                      else cut_value idx (halos m !! k)) as Hfin'.
  { intros k. rewrite Hfin.
    destruct (leading_underscore k); [by rewrite andb_false_r|].
    rewrite andb_true_r. unfold cut_value. case_bool_decide as Hin.
    - by destruct (halos m !! k) as [[]|].
    - rewrite elem_of_dir in Hin.
      destruct (halos m !! k) eqn:Hk; [|done].
      exfalso. apply Hin. right. by eexists. }
  assert (fin !! "M" = Some (VArr (gather M idx))) as HM'.
  { rewrite Hfin'. cbn. by rewrite HM. }
  exists (<["nhalo" := VInt (Z.of_nat (length (gather M idx)))]> fin).
  split.
  - unfold indexcut, cut. rewrite Hrun. unfold len_M. by rewrite HM'.
  - split.
    + intros k Hk. by rewrite lookup_insert_ne, Hfin'.
    + by rewrite lookup_insert_eq, length_gather.
Qed.

(** X14. [indexcut(idx, in_place=False)] returns the catalogue that the
    call in place leaves, and leaves the catalogue it is called on, the
    parameters and the table as they are. *)
Theorem indexcut_copy_is_the_catalogue_cut_in_place (idx : list nat)
  (m : Mem) (n : nat) (M : list R) :
  per_halo n (halos m) ->
  halos m !! "M" = Some (VArr M) ->
  Forall (fun i => (i < n)%nat) idx ->
  exists subset,
    indexcut idx false m = (Returns (Some subset), m)
    /\ indexcut idx true m
       = (Returns None, mkMem subset (params m) (sfr_interp_tab m))
    /\ subset !! "nhalo" = Some (VInt (Z.of_nat (length idx))).
Proof.
  intros Hper HM Hidx.
  destruct (indexcut_copy_run idx m n M Hper HM Hidx)
    as (subset & Hcopy & Hcut).
  destruct (indexcut_in_place_run idx m n M Hper HM Hidx)
    as (h' & Hrun & Hcut').
  exists subset. split; [done|]. split; [|by destruct Hcut].
  by rewrite Hrun, (cut_result_unique idx (halos m) h' subset).
Qed.

Lemma indexcut_copy_is_the_catalogue_cut_in_place_witness :
  let m := mkMem three_halos (example_params "Li" CNone None None) None in
  exists subset,
    indexcut [1]%nat false m = (Returns (Some subset), m)
    /\ indexcut [1]%nat true m = (Returns None, mkMem subset (params m) None)
    /\ subset !! "nhalo" = Some (VInt 1).
Proof.
  intros m.
  apply (indexcut_copy_is_the_catalogue_cut_in_place [1]%nat m 3
           [1e12; 2e12; 3e12]).
  - exact per_halo_three_halos.
  - reflexivity.
  - repeat constructor.
Defined.

(** ** Cuts on an attribute *)

(** X15. [attrcut_subset(attr, minval, maxval, params, in_place)] on a
    per-halo array [attr] keeps the halos with
    [minval < attr <= maxval], all of them and no other, in the order of
    the catalogue: every per-halo array is read at those positions,
    [nhalo] is their number, and every entry of the cut array [attr] lies
    in the interval.  The copy that [in_place=False] returns is the
    catalogue that [in_place=True] leaves; [params] plays no role in the
    result. *)
Theorem attrcut_subset_keeps_the_half_open_interval (attr : string)
  (minval maxval : R) (p : SimParameters) (m : Mem) (n : nat)
  (M a : list R) :
  per_halo n (halos m) ->
  halos m !! "M" = Some (VArr M) ->
  halos m !! attr = Some (VArr a) ->
  leading_underscore attr = false ->
  attr <> "nhalo" ->
  exists (kept : list nat) (h' : HaloCatalog),
    attrcut_subset attr minval maxval (Some p) true m
    = (Returns None, mkMem h' (params m) (sfr_interp_tab m))
    /\ attrcut_subset attr minval maxval (Some p) false m
       = (Returns (Some h'), m)
    /\ (forall i, i ∈ kept <->
                  (i < n)%nat /\ minval < nth i a 0 <= maxval)
    /\ kept `sublist_of` seq 0 n
    /\ (forall name b,
          leading_underscore name = false -> name <> "nhalo" ->
          halos m !! name = Some (VArr b) ->
          h' !! name = Some (VArr (gather b kept)))
    /\ h' !! "nhalo" = Some (VInt (Z.of_nat (length kept)))
    /\ h' !! attr = Some (VArr (gather a kept))
    /\ Forall (fun x => minval < x <= maxval) (gather a kept).
Proof.
  intros Hper HM Ha Hattr Hne.
  pose proof (Hper attr a Hattr Ha) as Hlen.
  set (kept := np_where (length a)
                 (fun i => Rltb minval (nth i a 0) && Rleb (nth i a 0) maxval)).
  assert (forall i, i ∈ kept <->
                    (i < n)%nat /\ minval < nth i a 0 <= maxval) as Hkept.
  { intros i. unfold kept.
    rewrite elem_of_np_where, andb_true_iff, Rltb_true, Rleb_true, Hlen.
    tauto. }
  assert (Forall (fun i => (i < n)%nat) kept) as Hrange.
  { apply Forall_forall. intros i Hi. by apply Hkept in Hi as [? _]. }
  destruct (indexcut_in_place_run kept m n M Hper HM Hrange)
    as (h' & Hrun & Hcut).
  destruct (indexcut_copy_run kept m n M Hper HM Hrange)
    as (subset & Hcopy & Hcut').
  assert (subset = h') as -> by (by eapply cut_result_unique).
  exists kept, h'.
  split; [|split; [|split; [|split; [|split; [|split; [|split]]]]]].
  - unfold attrcut_subset.
    by rewrite (bind_Returns _ _ m m a) by by apply getattr_array_Some.
  - unfold attrcut_subset.
    by rewrite (bind_Returns _ _ m m a) by by apply getattr_array_Some.
  - exact Hkept.
  - unfold kept, np_where. rewrite Hlen. apply sublist_filter.
  - intros name b Hname Hnh Hb. by eapply cut_result_array.
  - by destruct Hcut.
  - by eapply cut_result_array.
  - apply Forall_forall. intros x (i & -> & Hi)%list_elem_of_fmap.
    by apply Hkept in Hi as [_ ?].
Qed.

Lemma attrcut_subset_keeps_the_half_open_interval_witness :
  let m := mkMem three_halos (example_params "Li" CNone None None) None in
  exists (kept : list nat) (h' : HaloCatalog),
    attrcut_subset "redshift" 2.5 3 (Some (params m)) true m
    = (Returns None, mkMem h' (params m) None)
    /\ (forall i, i ∈ kept <-> i = 1%nat \/ i = 2%nat)
    /\ h' !! "redshift" = Some (VArr (gather [2.5; 2.8; 3] kept)).
Proof.
  intros m.
  destruct (attrcut_subset_keeps_the_half_open_interval "redshift" 2.5 3
              (params m) m 3 [1e12; 2e12; 3e12] [2.5; 2.8; 3])
    as (kept & h' & Hrun & _ & Hkept & _ & _ & _ & Hattr & _).
  - exact per_halo_three_halos.
  - reflexivity.
  - reflexivity.
  - reflexivity.
  - discriminate.
  - exists kept, h'. split; [exact Hrun|]. split; [|exact Hattr].
    intros i. rewrite Hkept. split.
    + intros [Hi Hz]. destruct i as [|[|[|i]]]; cbn [nth] in Hz; [lra|auto|auto|lia].
    + intros [->| ->]; cbn [nth]; split; (lia || lra).
Defined.

(** [attrcut_subset] on an attribute that the catalogue does not have
    raises [AttributeError] in both modes, and the catalogue is left as it
    was. *)
Theorem attrcut_subset_on_a_missing_attribute (attr : string)
  (minval maxval : R) (p : SimParameters) (in_place : bool) (m : Mem) :
  halos m !! attr = None ->
  attrcut_subset attr minval maxval (Some p) in_place m
  = (Raises AttributeError, m).
Proof.
  intros Hattr.
  unfold attrcut_subset, bind, getattr_array, get_halos, lift, attr_array.
  unfold bind. by rewrite Hattr.
Qed.

Lemma attrcut_subset_on_a_missing_attribute_witness :
  let m := mkMem three_halos (example_params "Li" CNone None None) None in
  attrcut_subset "vmax" 100 200 (Some (params m)) false m
  = (Raises AttributeError, m).
Proof.
  intros m.
  by apply (attrcut_subset_on_a_missing_attribute "vmax" 100 200 (params m)
              false m).
Defined.

(** X16. [vmaxcut_subset] calls [attrcut_subset] without the argument
    [params], as [masscut_subset] does: for every catalogue, with or
    without an attribute [vmax], every pair of bounds and both modes, the
    call raises [TypeError] and cuts nothing. *)
Theorem vmaxcut_subset_raises_TypeError (m : Mem) (min_vmax max_vmax : R)
  (in_place : bool) :
  vmaxcut_subset min_vmax max_vmax in_place m = (Raises TypeError, m).
Proof. by destruct in_place. Qed.

(** ** More on [observation_cull] *)

Lemma elem_of_above_cutoff (cutoff : R) (Lcat : list R) (i : nat) :
  i ∈ above_cutoff cutoff Lcat
  <-> (i < length Lcat)%nat /\ cutoff < nth i Lcat 0.
Proof. unfold above_cutoff. by rewrite elem_of_np_where, Rltb_true. Qed.

Lemma on_copy_Returns (c : Py unit) (m : Mem) (h' : HaloCatalog) :
  c m = (Returns tt, mkMem h' (params m) (sfr_interp_tab m)) ->
  on_copy c m = (Returns h', m).
Proof. intros Hc. unfold on_copy. rewrite Hc. by destruct m. Qed.

Lemma on_copy_Raises (c : Py unit) (m : Mem) (e : exn) (h' : HaloCatalog) :
  c m = (Raises e, mkMem h' (params m) (sfr_interp_tab m)) ->
  on_copy c m = (Raises e, m).
Proof. intros Hc. unfold on_copy. rewrite Hc. by destruct m. Qed.

(** X17. With [goal_nobj <= 0], [observation_cull] is the cut at the
    luminosity threshold and draws nothing: it keeps the halos with
    [Lcat > lcat_cutoff], all of them, in the order of the catalogue,
    whatever the seed, the weighting and the generator.  With
    [in_place=False] it returns that catalogue and leaves the one it is
    called on as it was. *)
Theorem observation_cull_without_a_goal_is_the_threshold_cut
  (W : Externals) (m : Mem) (n : nat) (M Lcat : list R) (z : Z) :
  per_halo n (halos m) ->
  halos m !! "M" = Some (VArr M) ->
  halos m !! "Lcat" = Some (VArr Lcat) ->
  halos m !! "nhalo" = Some (VInt z) ->
  Lcat <> [] ->
  (goal_nobj (params m) <= 0)%Z ->
  exists (survivors : list nat) (h' : HaloCatalog),
    (forall W' : Externals,
       observation_cull W' true m
       = (Returns None, mkMem h' (params m) (sfr_interp_tab m))
       /\ observation_cull W' false m = (Returns (Some h'), m))
    /\ (forall i, i ∈ survivors <->
                  (i < n)%nat /\ lcat_cutoff (params m) < nth i Lcat 0)
    /\ survivors `sublist_of` seq 0 n
    /\ (forall name a,
          leading_underscore name = false -> name <> "nhalo" ->
          halos m !! name = Some (VArr a) ->
          h' !! name = Some (VArr (gather a survivors)))
    /\ h' !! "nhalo" = Some (VInt (Z.of_nat (length survivors))).
Proof.
  intros Hper HM HL Hnh Hne Hgoal.
  pose proof (Hper "Lcat" Lcat eq_refl HL) as Hlen.
  set (survivors := above_cutoff (lcat_cutoff (params m)) Lcat).
  set (h1 := (cut_in_place survivors (dir (halos m)) (halos m)).2).
  assert (forall W' : Externals,
            observation_cull_on_self W' m
            = (Returns tt, mkMem h1 (params m) (sfr_interp_tab m))
            /\ cut_result survivors (halos m) h1) as Hself.
  { intros W'.
    destruct (observation_cull_on_self_threshold W' m n M Lcat)
      as [Hrun Hcut]; [done..|].
    cbv zeta in Hrun. rewrite bool_decide_eq_false_2 in Hrun by lia.
    done. }
  destruct (Hself W) as [_ Hcut].
  exists survivors, h1. split; [|split; [|split; [|split]]].
  - intros W'. destruct (Hself W') as [Hrun _]. unfold observation_cull. split.
    + rewrite (bind_Returns _ _ _ _ _ Hrun).
      erewrite bind_Returns; [done|].
      destruct Hcut as [_ Hn1]. by eapply report_nhalo_run.
    + rewrite (bind_Returns _ _ _ _ _ (on_copy_Returns _ _ _ Hrun)).
      by rewrite (bind_Returns _ _ _ _ _ (report_nhalo_run m z Hnh)).
  - intros i. unfold survivors. by rewrite elem_of_above_cutoff, Hlen.
  - unfold survivors, above_cutoff, np_where. rewrite Hlen.
    apply sublist_filter.
  - intros name a Hname Hnhalo Ha. by eapply cut_result_array.
  - by destruct Hcut.
Qed.

Lemma observation_cull_without_a_goal_is_the_threshold_cut_witness :
  let m := mkMem three_halos_with_Lcat (observation_params 3 0 "linear")
             None in
  exists (survivors : list nat) (h' : HaloCatalog),
    observation_cull W0 false m = (Returns (Some h'), m)
    /\ (forall i, i ∈ survivors <-> i = 1%nat \/ i = 2%nat)
    /\ h' !! "Lcat" = Some (VArr (gather [2; 4; 6] survivors)).
Proof.
  intros m.
  destruct (observation_cull_without_a_goal_is_the_threshold_cut W0 m 3
              [1e12; 2e12; 3e12] [2; 4; 6] 3)
    as (survivors & h' & Hrun & Hsurv & _ & Harr & _).
  - exact per_halo_three_halos_with_Lcat.
  - reflexivity.
  - reflexivity.
  - reflexivity.
  - discriminate.
  - cbn. lia.
  - exists survivors, h'. split; [exact (proj2 (Hrun W0))|]. split.
    + intros i. rewrite Hsurv.
      cbn [params m observation_params lcat_cutoff]. split.
      * intros [Hi Hz].
        destruct i as [|[|[|i]]]; cbn [nth] in Hz; [lra|auto|auto|lia].
      * intros [->| ->]; cbn [nth]; split; (lia || lra).
    + apply Harr; [reflexivity|discriminate|reflexivity].
Defined.

(** X18. A setting of [obs_weight] other than ['linear'] and ['log'] with
    [goal_nobj > 0] and a seed [vcat_seed] that is not negative (the
    generator, which is created first, refuses a negative one) ends
    [observation_cull] in [UnboundLocalError], after the cut at the
    luminosity threshold: the call in place leaves the catalogue cut to
    the halos with [Lcat > lcat_cutoff], and the call with
    [in_place=False] leaves the catalogue as it was. *)
Theorem observation_cull_with_an_unknown_weighting (W : Externals)
  (m : Mem) (n : nat) (M Lcat : list R) :
  per_halo n (halos m) ->
  halos m !! "M" = Some (VArr M) ->
  halos m !! "Lcat" = Some (VArr Lcat) ->
  Lcat <> [] ->
  (0 < goal_nobj (params m))%Z ->
  (0 <= vcat_seed (params m))%Z ->
  obs_weight (params m) <> "linear" ->
  obs_weight (params m) <> "log" ->
  let survivors := above_cutoff (lcat_cutoff (params m)) Lcat in
  exists h1,
    observation_cull W true m
    = (Raises UnboundLocalError, mkMem h1 (params m) (sfr_interp_tab m))
    /\ observation_cull W false m = (Raises UnboundLocalError, m)
    /\ (forall name a,
          leading_underscore name = false -> name <> "nhalo" ->
          halos m !! name = Some (VArr a) ->
          h1 !! name = Some (VArr (gather a survivors)))
    /\ h1 !! "nhalo" = Some (VInt (Z.of_nat (length survivors))).
Proof.
  intros Hper HM HL Hne Hgoal Hseed Hlin Hlog survivors.
  destruct (observation_cull_on_self_threshold W m n M Lcat)
    as [Hrun Hcut]; [done..|].
  cbv zeta in Hrun. rewrite bool_decide_eq_true_2 in Hrun by done.
  fold survivors in Hrun, Hcut.
  set (h1 := (cut_in_place survivors (dir (halos m)) (halos m)).2) in *.
  unfold observation_draw in Hrun.
  rewrite (bind_Returns _ _ _ _ tt) in Hrun
    by (unfold default_rng; by rewrite bool_decide_eq_true_2).
  rewrite (bind_Returns _ _ _ _ Unbound) in Hrun
    by (unfold observation_weights;
        by rewrite !bool_decide_eq_false_2 by done).
  erewrite bind_Returns in Hrun.
  2:{ unfold getattr_nhalo, bind, get_halos. cbn [halos].
      by rewrite (proj2 Hcut). }
  cbv beta iota in Hrun.
  exists h1. split; [|split; [|split]].
  - unfold observation_cull. by rewrite (bind_Raises _ _ _ _ _ Hrun).
  - unfold observation_cull.
    by rewrite (bind_Raises _ _ _ _ _ (on_copy_Raises _ _ _ _ Hrun)).
  - intros name a Hname Hnhalo Ha. by eapply cut_result_array.
  - by destruct Hcut.
Qed.

Lemma observation_cull_with_an_unknown_weighting_witness :
  let m := mkMem three_halos_with_Lcat (observation_params 3 1 "uniform")
             None in
  exists h1,
    observation_cull W0 true m
    = (Raises UnboundLocalError, mkMem h1 (params m) None)
    /\ h1 !! "nhalo"
       = Some (VInt (Z.of_nat (length (above_cutoff 3 [2; 4; 6])))).
Proof.
  intros m.
  destruct (observation_cull_with_an_unknown_weighting W0 m 3
              [1e12; 2e12; 3e12] [2; 4; 6])
    as (h1 & Hrun & _ & _ & Hnhalo).
  - exact per_halo_three_halos_with_Lcat.
  - reflexivity.
  - reflexivity.
  - discriminate.
  - cbn. lia.
  - cbn. lia.
  - discriminate.
  - discriminate.
  - exists h1. split; [exact Hrun|exact Hnhalo].
Defined.

(** X19. [observation_cull] needs catalogue luminosities: on a catalogue
    without the attribute [Lcat] it raises [AttributeError], and on one
    whose array [Lcat] is empty (a catalogue with no halo) it raises
    [ValueError], from the maximum of an empty array; in both modes the
    catalogue is left as it was. *)
Theorem observation_cull_needs_catalogue_luminosities (W : Externals)
  (m : Mem) (in_place : bool) :
  (halos m !! "Lcat" = None ->
   observation_cull W in_place m = (Raises AttributeError, m))
  /\ (halos m !! "Lcat" = Some (VArr []) ->
      observation_cull W in_place m = (Raises ValueError, m)).
Proof.
  assert (forall e, observation_cull_on_self W m = (Raises e, m) ->
                    observation_cull W in_place m = (Raises e, m)) as Hlift.
  { intros e Hrun. unfold observation_cull. destruct in_place.
    - by rewrite (bind_Raises _ _ _ _ _ Hrun).
    - rewrite (bind_Raises _ _ m m e); [done|].
      apply (on_copy_Raises _ m e (halos m)).
      rewrite Hrun. by destruct m. }
  split; intros HL; apply Hlift; unfold observation_cull_on_self.
  - rewrite (bind_Returns _ _ m m (params m)) by reflexivity.
    rewrite (bind_Raises _ _ m m AttributeError); [done|].
    unfold getattr_array, bind, get_halos, lift, attr_array. by rewrite HL.
  - rewrite (bind_Returns _ _ m m (params m)) by reflexivity.
    rewrite (bind_Returns _ _ m m []) by by apply getattr_array_Some.
    by rewrite (bind_Raises _ _ m m ValueError).
Qed.

Lemma observation_cull_needs_catalogue_luminosities_witness :
  let m := mkMem three_halos (observation_params 3 1 "linear") None in
  observation_cull W0 true m = (Raises AttributeError, m).
Proof.
  intros m.
  by apply (observation_cull_needs_catalogue_luminosities W0 m true).
Defined.

(** ** An index past the end of the catalogue *)

Lemma np_take_out_of_range (a : list R) (idx : list nat) :
  Exists (fun i => (length a <= i)%nat) idx -> np_take a idx = None.
Proof.
  intros Hidx. unfold np_take. apply mapM_None.
  eapply Exists_impl; [exact Hidx|].
  intros i Hi. by apply lookup_ge_None.
Qed.

Lemma cut_copy_out_of_range (idx : list nat) (names : list string)
  (self subset : HaloCatalog) (n : nat) (M : list R) :
  per_halo n self ->
  self !! "M" = Some (VArr M) ->
  "M" ∈ names ->
  Exists (fun i => (n <= i)%nat) idx ->
  (cut_copy idx names self subset).1 = Raises IndexError.
Proof.
  intros Hper HM Hin Hidx. revert subset.
  induction names as [|i names IH]; intros subset.
  { by apply elem_of_nil in Hin. }
  cbn [cut_copy]. destruct (leading_underscore i) eqn:Hunder.
  - apply IH. apply elem_of_cons in Hin as [<-|Hin]; [done|done].
  - unfold subscript.
    destruct (self !! i) as [[a| | | | |]|] eqn:Hi.
    2-7: apply IH; apply elem_of_cons in Hin as [<-|Hin];
         [congruence|done].
    rewrite np_take_out_of_range; [done|].
    by rewrite (Hper i a Hunder Hi).
Qed.

Lemma cut_in_place_out_of_range (idx : list nat) (names : list string)
  (cur : HaloCatalog) (n : nat) (M : list R) :
  per_halo n cur ->
  cur !! "M" = Some (VArr M) ->
  "M" ∈ names ->
  Exists (fun i => (n <= i)%nat) idx ->
  (cut_in_place idx names cur).1 = Raises IndexError
  /\ forall k, k <> "nhalo" ->
               (cut_in_place idx names cur).2 !! k = cur !! k.
Proof.
  intros Hper HM Hin Hidx. revert cur Hper HM.
  induction names as [|i names IH]; intros cur Hper HM.
  { by apply elem_of_nil in Hin. }
  cbn [cut_in_place]. destruct (leading_underscore i) eqn:Hunder.
  - apply IH; [|done|done]. by apply elem_of_cons in Hin as [<-|Hin].
  - unfold subscript.
    destruct (cur !! i) as [[a| | | | |]|] eqn:Hi.
    2-7: unfold len_M; rewrite HM;
         destruct (IH ltac:(apply elem_of_cons in Hin as [<-|Hin];
                            [congruence|done])
                     (<["nhalo" := VInt (Z.of_nat (length M))]> cur))
           as [Hout Hkeep];
         [intros name b Hname Hb;
          destruct (decide (name = "nhalo")) as [->|Hne];
          [by rewrite lookup_insert_eq in Hb
          |rewrite lookup_insert_ne in Hb by done; by eapply Hper]
         |by rewrite lookup_insert_ne
         |split; [done|];
          intros k Hk; by rewrite Hkeep, lookup_insert_ne].
    rewrite np_take_out_of_range; [done|].
    by rewrite (Hper i a Hunder Hi).
Qed.

(** X20. An index array with an entry at or past the number of halos ends
    [indexcut] in [IndexError].  With [in_place=False] the catalogue is
    left as it was; with [in_place=True] no attribute other than [nhalo]
    has been changed when the error is raised. *)
Theorem indexcut_past_the_end_is_an_IndexError (idx : list nat) (m : Mem)
  (n : nat) (M : list R) :
  per_halo n (halos m) ->
  halos m !! "M" = Some (VArr M) ->
  Exists (fun i => (n <= i)%nat) idx ->
  indexcut idx false m = (Raises IndexError, m)
  /\ (indexcut idx true m).1 = Raises IndexError
  /\ params (indexcut idx true m).2 = params m
  /\ forall name, name <> "nhalo" ->
       halos (indexcut idx true m).2 !! name = halos m !! name.
Proof.
  intros Hper HM Hidx.
  assert ("M" ∈ dir (halos m)) as Hin
    by (apply elem_of_dir; right; by rewrite HM).
  pose proof (cut_copy_out_of_range idx (dir (halos m)) (halos m) (halos m)
                n M Hper HM Hin Hidx) as Hcopy.
  destruct (cut_in_place_out_of_range idx (dir (halos m)) (halos m) n M
              Hper HM Hin Hidx) as [Hplace Hkeep].
  unfold indexcut, cut.
  destruct (cut_copy idx (dir (halos m)) (halos m) (halos m))
    as [o1 subset]; cbn [fst] in Hcopy; subst o1.
  destruct (cut_in_place idx (dir (halos m)) (halos m))
    as [o2 fin]; cbn [fst snd] in Hplace, Hkeep; subst o2.
  done.
Qed.

Lemma indexcut_past_the_end_is_an_IndexError_witness :
  let m := mkMem three_halos (example_params "Li" CNone None None) None in
  indexcut [0; 3]%nat false m = (Raises IndexError, m)
  /\ (indexcut [0; 3]%nat true m).1 = Raises IndexError.
Proof.
  intros m.
  destruct (indexcut_past_the_end_is_an_IndexError [0; 3]%nat m 3
              [1e12; 2e12; 3e12]) as (Hcopy & Hplace & _).
  - exact per_halo_three_halos.
  - reflexivity.
  - apply Exists_cons_tl, Exists_cons_hd. lia.
  - split; [exact Hcopy|exact Hplace].
Defined.

(** ** The redshift window of [cull] *)

Lemma cut_keeps_params (idx : list nat) (in_place : bool) (m : Mem) :
  params (cut idx in_place m).2 = params m
  /\ sfr_interp_tab (cut idx in_place m).2 = sfr_interp_tab m.
Proof.
  unfold cut. destruct in_place.
  - by destruct (cut_in_place idx (dir (halos m)) (halos m)) as [[| |] ?].
  - destruct (cut_copy idx (dir (halos m)) (halos m) (halos m))
      as [[| |] subset]; [|done..].
    by destruct (len_M subset).
Qed.

(** A call that changes neither the parameters nor the table *)
Definition keeps_params {A : Type} (c : Py A) : Prop :=
  forall m, params (c m).2 = params m
            /\ sfr_interp_tab (c m).2 = sfr_interp_tab m.

Lemma keeps_params_bind {A B} (c : Py A) (k : A -> Py B) :
  keeps_params c -> (forall a, keeps_params (k a)) -> keeps_params (bind c k).
Proof.
  intros Hc Hk m. specialize (Hc m). unfold bind.
  destruct (c m) as [[a|e|msg] m1]; cbn [snd] in *; try done.
  destruct (Hk a m1) as [-> ->]. done.
Qed.

Lemma keeps_params_getattr_array (name : string) :
  keeps_params (getattr_array name).
Proof. intros m. unfold getattr_array, bind, get_halos, lift. done. Qed.

Lemma keeps_params_cut (idx : list nat) (in_place : bool) :
  keeps_params (cut idx in_place).
Proof. intros m. apply cut_keeps_params. Qed.

(** X21. Whatever the catalogue, and whether or not the call goes on to
    fail, [cull] leaves in [params] the redshift window of the band: [z_i]
    is the smaller and [z_f] the larger of the redshifts of the two band
    edges [nu_i] and [nu_f], so [z_i <= z_f]; no other parameter and not
    the table of star formation rates is changed. *)
Theorem cull_sets_an_ordered_redshift_window (W : Externals) (m : Mem) :
  let z1 := freq_to_z W (nu_rest (params m)) (nu_i (params m)) in
  let z2 := freq_to_z W (nu_rest (params m)) (nu_f (params m)) in
  let m' := (cull W m).2 in
  params m' = set_z_window (Some (Rmin z1 z2)) (Some (Rmax z1 z2)) (params m)
  /\ z_i (params m') = Some (Rmin z1 z2)
  /\ z_f (params m') = Some (Rmax z1 z2)
  /\ Rmin z1 z2 <= Rmax z1 z2
  /\ sfr_interp_tab m' = sfr_interp_tab m.
Proof.
  intros z1 z2 m'.
  assert (z_window W (params m) = (Rmin z1 z2, Rmax z1 z2)) as Hwin.
  { unfold z_window. fold z1 z2. destruct (Rltb z2 z1) eqn:Hlt.
    - apply Rltb_true in Hlt.
      by rewrite Rmin_right, Rmax_left by lra.
    - apply Rltb_false in Hlt.
      by rewrite Rmin_left, Rmax_right by lra. }
  set (p1 := set_z_window (Some (Rmin z1 z2)) (Some (Rmax z1 z2)) (params m)).
  set (m1 := mkMem (halos m) p1 (sfr_interp_tab m)).
  assert (params m' = p1 /\ sfr_interp_tab m' = sfr_interp_tab m)
    as [Hp Ht].
  { unfold m', cull.
    rewrite (bind_Returns _ _ m m (params m)) by reflexivity.
    rewrite Hwin.
    rewrite (bind_Returns _ _ m m1 tt) by reflexivity.
    change p1 with (params m1).
    change (sfr_interp_tab m) with (sfr_interp_tab m1).
    generalize m1. change (keeps_params
      (M ← getattr_array "M";
       redshift ← getattr_array "redshift";
       ra ← getattr_array "ra";
       dec ← getattr_array "dec";
       if bool_decide (length redshift = length M
                       /\ length ra = length M /\ length dec = length M)
       then
         indexcut
           (np_where (length M)
              (cull_mask (params m) (Rmin z1 z2) (Rmax z1 z2)
                 M redshift ra dec)) true;;
         M ← getattr_array "M";
         indexcut (reverse (np_argsort M)) true;;
         ret tt
       else raise ValueError)).
    repeat (apply keeps_params_bind;
            [first [apply keeps_params_getattr_array
                   |apply keeps_params_cut]|intros ?]).
    case_bool_decide; [|by intros ?].
    repeat (apply keeps_params_bind;
            [first [apply keeps_params_getattr_array
                   |apply keeps_params_cut]|intros ?]).
    by intros ?. }
  rewrite Hp. split; [done|]. split; [done|]. split; [done|].
  split; [|done].
  pose proof (Rmin_l z1 z2). pose proof (Rmax_l z1 z2). lra.
Qed.

(** ** Writing a catalogue *)

Lemma getattr_slice_array (name : string) (i : Z) (a : list R) (m : Mem) :
  halos m !! name = Some (VArr a) ->
  getattr_slice name i m = (Returns (VArr (slice_to i a)), m).
Proof.
  intros Ha. unfold getattr_slice, bind, get_halos. by rewrite Ha.
Qed.

(** The index [i] of the slices [[:i]] that [write_cat] saves *)
Definition trim_index (trim : option Z) : Z :=
  match trim with
  | Some t => if bool_decide (t = 0%Z) then (-1)%Z else t
  | None => (-1)%Z
  end.

(** The velocities that [write_cat] saves *)
Definition saved_velocities (i : Z) (vbroaden : option (list R))
  (dec : list R) : list R :=
  match vbroaden with
  | Some v => slice_to i v
  | None => repeat (1 * -99) (length (slice_to i dec))
  end.

Lemma write_cat_run (trim : option Z) (m : Mem)
  (dec ra z Lco Lcat M : list R) (vbroaden : option (list R)) :
  halos m !! "dec" = Some (VArr dec) ->
  halos m !! "ra" = Some (VArr ra) ->
  halos m !! "redshift" = Some (VArr z) ->
  halos m !! "Lco" = Some (VArr Lco) ->
  halos m !! "Lcat" = Some (VArr Lcat) ->
  halos m !! "M" = Some (VArr M) ->
  halos m !! "vbroaden" = VArr <$> vbroaden ->
  let i := trim_index trim in
  exists archive,
    write_cat trim false m = (Returns archive, m)
    /\ archive !! "dec" = Some (VArr (slice_to i dec))
    /\ archive !! "ra" = Some (VArr (slice_to i ra))
    /\ archive !! "z" = Some (VArr (slice_to i z))
    /\ archive !! "Lco" = Some (VArr (slice_to i Lco))
    /\ archive !! "Lcat" = Some (VArr (slice_to i Lcat))
    /\ archive !! "M" = Some (VArr (slice_to i M))
    /\ archive !! "vhalo" = Some (VArr (saved_velocities i vbroaden dec)).
Proof.
  intros Hdec Hra Hz HLco HLcat HM Hv i.
  assert (write_cat_velocities i m
          = (Returns (VArr (saved_velocities i vbroaden dec)), m)) as Hvel.
  { unfold write_cat_velocities, bind at 1, get_halos. rewrite Hv.
    destruct vbroaden as [v|]; cbn [fmap option_fmap option_map].
    - by apply getattr_slice_array.
    - by rewrite (bind_Returns _ _ _ _ _ (getattr_slice_array _ i _ _ Hdec)). }
  eexists. split.
  - unfold write_cat. fold (trim_index trim). fold i.
    rewrite (bind_Returns _ _ _ _ _ Hvel).
    rewrite (bind_Returns _ _ _ _ _ (getattr_slice_array _ i _ _ Hdec)).
    rewrite (bind_Returns _ _ _ _ _ (getattr_slice_array _ i _ _ Hra)).
    rewrite (bind_Returns _ _ _ _ _ (getattr_slice_array _ i _ _ Hz)).
    rewrite (bind_Returns _ _ _ _ _ (getattr_slice_array _ i _ _ HLco)).
    rewrite (bind_Returns _ _ _ _ _ (getattr_slice_array _ i _ _ HLcat)).
    rewrite (bind_Returns _ _ _ _ _ (getattr_slice_array _ i _ _ HM)).
    reflexivity.
  - repeat split; rewrite lookup_fmap;
      rewrite ?lookup_insert_ne by done; by rewrite lookup_insert_eq.
Qed.

Lemma slice_to_minus_one {A} (a : list A) :
  slice_to (-1) a = take (length a - 1) a.
Proof. reflexivity. Qed.

Lemma slice_to_all {A} (n : nat) (a : list A) :
  (0 < n)%nat -> (length a <= n)%nat -> slice_to (Z.of_nat n) a = a.
Proof.
  intros Hpos Hn. unfold slice_to.
  destruct (Z.ltb_spec (Z.of_nat n) 0); [lia|].
  rewrite Nat2Z.id. by apply take_ge.
Qed.

(** X22. [write_cat] with the default [trim=None] (or [trim=0]) saves
    every array without its last entry, because the arrays are sliced
    [[:-1]]: of a catalogue of [n] halos the file holds the first [n - 1],
    with [-99] as the velocity of each when the catalogue has no
    [vbroaden].  The catalogue itself is not changed. *)
Theorem write_cat_by_default_leaves_out_the_last_halo (trim : option Z)
  (m : Mem) (n : nat) (dec ra z Lco Lcat M : list R)
  (vbroaden : option (list R)) :
  halos m !! "dec" = Some (VArr dec) ->
  halos m !! "ra" = Some (VArr ra) ->
  halos m !! "redshift" = Some (VArr z) ->
  halos m !! "Lco" = Some (VArr Lco) ->
  halos m !! "Lcat" = Some (VArr Lcat) ->
  halos m !! "M" = Some (VArr M) ->
  halos m !! "vbroaden" = VArr <$> vbroaden ->
  Forall (fun a => length a = n) [dec; ra; z; Lco; Lcat; M] ->
  trim = None \/ trim = Some 0%Z ->
  exists archive,
    write_cat trim false m = (Returns archive, m)
    /\ archive !! "dec" = Some (VArr (take (n - 1) dec))
    /\ archive !! "ra" = Some (VArr (take (n - 1) ra))
    /\ archive !! "z" = Some (VArr (take (n - 1) z))
    /\ archive !! "Lco" = Some (VArr (take (n - 1) Lco))
    /\ archive !! "Lcat" = Some (VArr (take (n - 1) Lcat))
    /\ archive !! "M" = Some (VArr (take (n - 1) M))
    /\ archive !! "vhalo"
       = Some (VArr (match vbroaden with
                     | Some v => take (length v - 1) v
                     | None => repeat (-99) (n - 1)
                     end))
    /\ length (take (n - 1) M) = (n - 1)%nat.
Proof.
  intros Hdec Hra Hz HLco HLcat HM Hv Hlen Htrim.
  destruct (write_cat_run trim m dec ra z Lco Lcat M vbroaden)
    as (archive & Hrun & Adec & Ara & Az & ALco & ALcat & AM & Avel);
    [done..|].
  assert (trim_index trim = (-1)%Z) as Hi by (by destruct Htrim as [->| ->]).
  rewrite Hi, !slice_to_minus_one in *.
  assert (length dec = n /\ length ra = n /\ length z = n
          /\ length Lco = n /\ length Lcat = n /\ length M = n)
    as (L1 & L2 & L3 & L4 & L5 & L6).
  { repeat (apply Forall_cons in Hlen as [? Hlen]). done. }
  rewrite L1 in Adec. rewrite L2 in Ara. rewrite L3 in Az.
  rewrite L4 in ALco. rewrite L5 in ALcat. rewrite L6 in AM.
  exists archive. repeat (split; [done|]). split.
  - rewrite Avel. unfold saved_velocities. destruct vbroaden; [done|].
    rewrite slice_to_minus_one, length_take, L1.
    do 3 f_equal; [lra|lia].
  - rewrite length_take. lia.
Qed.

Lemma write_cat_by_default_leaves_out_the_last_halo_witness :
  let m := mkMem (<["Lco" := VArr [7; 8; 9]]> three_halos_with_Lcat)
             (example_params "Li" CNone None None) None in
  exists archive,
    write_cat None false m = (Returns archive, m)
    /\ archive !! "M" = Some (VArr [1e12; 2e12])
    /\ archive !! "vhalo" = Some (VArr [-99; -99]).
Proof.
  intros m.
  destruct (write_cat_by_default_leaves_out_the_last_halo None m 3
              [0.1; -0.2; 0.3] [0; 0.5; -0.5] [2.5; 2.8; 3] [7; 8; 9]
              [2; 4; 6] [1e12; 2e12; 3e12] None)
    as (archive & Hrun & _ & _ & _ & _ & _ & HM & Hvel & _).
  - reflexivity.
  - reflexivity.
  - reflexivity.
  - reflexivity.
  - reflexivity.
  - reflexivity.
  - reflexivity.
  - repeat constructor.
  - by left.
  - exists archive. split; [exact Hrun|]. split; [exact HM|exact Hvel].
Defined.

(** ** Reading luminosities back *)

(** The catalogue after [load_luminosities] has read the three arrays *)
Definition with_luminosities (Lco Lcat vhalo : list R) (h : HaloCatalog)
  : HaloCatalog :=
  let restored := <["Lcat" := VArr Lcat]> (<["Lco" := VArr Lco]> h) in
  if Rltb 0 (nth 0 vhalo 0) then <["vbroaden" := VArr vhalo]> restored
  else restored.

Lemma load_luminosities_run (file : gmap string (list R)) (m : Mem)
  (k : Z) (Lco Lcat vhalo : list R) :
  file !! "Lco" = Some Lco ->
  file !! "Lcat" = Some Lcat ->
  file !! "vhalo" = Some vhalo ->
  halos m !! "nhalo" = Some (VInt k) ->
  load_luminosities file m
  = if bool_decide (k = Z.of_nat (length Lco))
    then match vhalo with
         | [] =>
             (Raises IndexError,
              mkMem (<["Lcat" := VArr Lcat]> (<["Lco" := VArr Lco]> (halos m)))
                (params m) (sfr_interp_tab m))
         | _ :: _ =>
             (Returns Loaded,
              mkMem (with_luminosities Lco Lcat vhalo (halos m))
                (params m) (sfr_interp_tab m))
         end
    else (Returns AssertionFailed, m).
Proof.
  intros HLco HLcat Hv Hnh.
  unfold load_luminosities, bind at 1, get_halos. rewrite Hnh, HLco.
  assert (nhalo_equals (length Lco) m
          = (Returns (bool_decide (k = Z.of_nat (length Lco))), m)) as Heq.
  { unfold nhalo_equals, bind, get_halos. by rewrite Hnh. }
  rewrite (bind_Returns _ _ _ _ _ Heq).
  case_bool_decide; cbn [negb]; [|done].
  set (m1 := mkMem (<["Lco" := VArr Lco]> (halos m)) (params m)
               (sfr_interp_tab m)).
  rewrite (bind_Returns _ _ m m1 tt) by reflexivity.
  rewrite HLcat.
  set (m2 := mkMem (<["Lcat" := VArr Lcat]> (halos m1)) (params m)
               (sfr_interp_tab m)).
  rewrite (bind_Returns _ _ m1 m2 tt) by reflexivity.
  rewrite Hv. destruct vhalo as [|v0 vhalo]; [done|].
  unfold with_luminosities. cbn [nth].
  destruct (Rltb 0 v0); [|done].
  by rewrite (bind_Returns _ _ m2
                (mkMem (<["vbroaden" := VArr (v0 :: vhalo)]> (halos m2))
                   (params m) (sfr_interp_tab m)) tt) by reflexivity.
Qed.

(** X23. Luminosities written by [write_cat] are read back by
    [load_luminosities] into a catalogue of [n] halos only when the file
    was written with [trim] at the number of halos: then [Lco] and [Lcat]
    are restored as they were, and [vbroaden] is set to the saved
    velocities when the first of them is positive (so the filler [-99] of
    a catalogue without velocities sets nothing).  The file that the
    default [trim=None] writes holds [n - 1] halos and fails the [assert]
    on the number of halos, and nothing is loaded. *)
Theorem write_cat_then_load_luminosities (m m2 : Mem) (n : nat)
  (dec ra z Lco Lcat M : list R) (vbroaden : option (list R)) :
  halos m !! "dec" = Some (VArr dec) ->
  halos m !! "ra" = Some (VArr ra) ->
  halos m !! "redshift" = Some (VArr z) ->
  halos m !! "Lco" = Some (VArr Lco) ->
  halos m !! "Lcat" = Some (VArr Lcat) ->
  halos m !! "M" = Some (VArr M) ->
  halos m !! "vbroaden" = VArr <$> vbroaden ->
  Forall (fun a => length a = n)
    ([dec; ra; z; Lco; Lcat; M] ++ option_list vbroaden) ->
  (0 < n)%nat ->
  halos m2 !! "nhalo" = Some (VInt (Z.of_nat n)) ->
  (exists archive,
     write_cat (Some (Z.of_nat n)) false m = (Returns archive, m)
     /\ load_luminosities (float_arrays archive) m2
        = (Returns Loaded,
           mkMem (with_luminosities Lco Lcat
                    (default (repeat (-99) n) vbroaden) (halos m2))
             (params m2) (sfr_interp_tab m2)))
  /\ (exists archive,
        write_cat None false m = (Returns archive, m)
        /\ load_luminosities (float_arrays archive) m2
           = (Returns AssertionFailed, m2)).
Proof.
  intros Hdec Hra Hz HLco HLcat HM Hv Hlen Hn Hnh.
  apply Forall_app in Hlen as [Hlen Hlenv].
  assert (length dec = n /\ length Lco = n /\ length Lcat = n)
    as (L1 & L4 & L5).
  { repeat (apply Forall_cons in Hlen as [? Hlen]). done. }
  assert (forall archive (a : list R) key,
            archive !! key = Some (VArr a) ->
            float_arrays archive !! key = Some a) as Hfloat.
  { intros archive a key Ha. unfold float_arrays.
    by rewrite lookup_omap, Ha. }
  split.
  - destruct (write_cat_run (Some (Z.of_nat n)) m dec ra z Lco Lcat M
                vbroaden)
      as (archive & Hrun & _ & _ & _ & ALco & ALcat & _ & Avel); [done..|].
    assert (trim_index (Some (Z.of_nat n)) = Z.of_nat n) as Hi.
    { unfold trim_index. rewrite bool_decide_eq_false_2; [done|lia]. }
    rewrite Hi in *.
    rewrite slice_to_all in ALco, ALcat by lia.
    assert (saved_velocities (Z.of_nat n) vbroaden dec
            = default (repeat (-99) n) vbroaden) as Hsaved.
    { unfold saved_velocities. destruct vbroaden as [v|]; cbn [default].
      - apply Forall_cons in Hlenv as [Hlv _]. rewrite slice_to_all; [done|lia|lia].
      - rewrite slice_to_all, L1 by lia. f_equal. lra. }
    rewrite Hsaved in Avel.
    exists archive. split; [done|].
    rewrite (load_luminosities_run _ m2 (Z.of_nat n) Lco Lcat
               (default (repeat (-99) n) vbroaden))
      by (done || by apply Hfloat).
    rewrite bool_decide_eq_true_2 by (by rewrite L4).
    destruct (default (repeat (-99) n) vbroaden) as [|v0 vh] eqn:Hd; [|done].
    exfalso. destruct vbroaden as [v|]; simpl in Hd.
    + apply Forall_cons in Hlenv as [Hlv _]. rewrite Hd in Hlv.
      cbn in Hlv. lia.
    + destruct n; [lia|done].
  - destruct (write_cat_run None m dec ra z Lco Lcat M vbroaden)
      as (archive & Hrun & _ & _ & _ & ALco & ALcat & _ & Avel); [done..|].
    exists archive. split; [done|].
    rewrite (load_luminosities_run _ m2 (Z.of_nat n) _ _ _
               (Hfloat _ _ _ ALco) (Hfloat _ _ _ ALcat) (Hfloat _ _ _ Avel)
               Hnh).
    rewrite bool_decide_eq_false_2; [done|].
    cbn [trim_index]. rewrite slice_to_minus_one, length_take. lia.
Qed.

Lemma write_cat_then_load_luminosities_witness :
  let m := mkMem (<["Lco" := VArr [7; 8; 9]]> three_halos_with_Lcat)
             (example_params "Li" CNone None None) None in
  let m2 := mkMem three_halos (example_params "Li" CNone None None) None in
  (exists archive,
     write_cat (Some 3%Z) false m = (Returns archive, m)
     /\ load_luminosities (float_arrays archive) m2
        = (Returns Loaded,
           mkMem (<["Lcat" := VArr [2; 4; 6]]>
                    (<["Lco" := VArr [7; 8; 9]]> three_halos))
             (params m2) None))
  /\ (exists archive,
        write_cat None false m = (Returns archive, m)
        /\ load_luminosities (float_arrays archive) m2
           = (Returns AssertionFailed, m2)).
Proof.
  intros m m2.
  destruct (write_cat_then_load_luminosities m m2 3
              [0.1; -0.2; 0.3] [0; 0.5; -0.5] [2.5; 2.8; 3] [7; 8; 9]
              [2; 4; 6] [1e12; 2e12; 3e12] None)
    as [(archive & Hrun & Hload) Hdefault].
  - reflexivity.
  - reflexivity.
  - reflexivity.
  - reflexivity.
  - reflexivity.
  - reflexivity.
  - reflexivity.
  - repeat constructor.
  - lia.
  - reflexivity.
  - split; [|exact Hdefault].
    exists archive. split; [exact Hrun|]. rewrite Hload.
    unfold with_luminosities. cbn [default repeat nth].
    rewrite (proj2 (Rltb_false 0 (-99))); [done|lra].
Defined.

(** ** Velocity offsets *)

Lemma Doppler_factor (b : R) :
  -1 < b < 1 ->
  (0 < b -> 1 < sqrt ((1 + b) / (1 - b)))
  /\ (b < 0 -> 0 < sqrt ((1 + b) / (1 - b)) < 1)
  /\ (b = 0 -> sqrt ((1 + b) / (1 - b)) = 1).
Proof.
  intros Hb.
  assert (0 < / (1 - b)) as Hinv by (apply Rinv_0_lt_compat; lra).
  assert ((1 + b) / (1 - b) - 1 = 2 * b * / (1 - b)) as Hq
    by (field; lra).
  split; [|split].
  - intros Hpos. apply Rle_lt_trans with (sqrt 1); [rewrite sqrt_1; lra|].
    apply sqrt_lt_1; [lra| |]; nra.
  - intros Hneg. split.
    + apply sqrt_lt_R0. unfold Rdiv. nra.
    + apply Rlt_le_trans with (sqrt 1); [|rewrite sqrt_1; lra].
      apply sqrt_lt_1; [|lra|]; unfold Rdiv in *; nra.
  - intros ->. replace ((1 + 0) / (1 - 0)) with 1 by (field; lra).
    apply sqrt_1.
Qed.

(** X24. With [vcat_scatter = 0], [offset_velocities] draws nothing that
    matters: whatever the generator and the seed [vcat_seed] it is created
    with, which is not negative, every halo gets the
    catalogue redshift [zcat = (1 + z) * sqrt((c + v) / (c - v)) - 1] for
    the offset [v = vcat_offset], below the speed of light in size.  For
    halos with [z > -1], a positive offset moves [zcat] above the
    redshift, a negative one below, and a zero offset leaves
    [zcat = redshift].  Only the attribute [zcat] is written. *)
Theorem offset_velocities_without_scatter (standard_normal : Z -> nat -> R)
  (m : Mem) (v : R) (Lcat redshift : list R) :
  halos m !! "Lcat" = Some (VArr Lcat) ->
  halos m !! "redshift" = Some (VArr redshift) ->
  length Lcat = length redshift ->
  - c_km_s < v < c_km_s ->
  (0 <= vcat_seed (params m))%Z ->
  exists zcat,
    offset_velocities standard_normal v 0 m
    = (Returns tt,
       mkMem (<["zcat" := VArr zcat]> (halos m)) (params m)
         (sfr_interp_tab m))
    /\ length zcat = length redshift
    /\ forall i, (i < length redshift)%nat ->
         let z := nth i redshift 0 in
         let zc := nth i zcat 0 in
         zc = (1 + z) * sqrt ((c_km_s + v) / (c_km_s - v)) - 1
         /\ (-1 < z -> 0 < v -> z < zc)
         /\ (-1 < z -> v < 0 -> zc < z)
         /\ (v = 0 -> zc = z).
Proof.
  intros HL Hz Hlen Hv Hseed.
  set (b := v / c_km_s).
  assert (0 < c_km_s) as Hc by (unfold c_km_s; lra).
  assert (-1 < b < 1) as Hb.
  { unfold b, Rdiv. assert (0 < / c_km_s) by (by apply Rinv_0_lt_compat).
    assert (c_km_s * / c_km_s = 1) by (field; lra). nra. }
  set (zp := sqrt ((1 + b) / (1 - b)) - 1).
  set (zcat := map (fun z => (1 + z) * (1 + zp) - 1) redshift).
  assert ((1 + b) / (1 - b) = (c_km_s + v) / (c_km_s - v)) as Hratio
    by (unfold b; field; lra).
  exists zcat. split; [|split].
  - unfold offset_velocities.
    rewrite (bind_Returns _ _ m m (params m)) by reflexivity.
    rewrite (bind_Returns _ _ m m tt)
      by (unfold default_rng; by rewrite bool_decide_eq_true_2).
    rewrite (bind_Returns _ _ m m (length Lcat))
      by (unfold getattr_len, bind, get_halos; by rewrite HL).
    rewrite (bind_Returns _ _ m m
               (map (fun _ : nat => v) (seq 0 (length Lcat)))).
    2:{ unfold Generator_normal.
        rewrite (proj2 (Rltb_false 0 0)) by lra. unfold ret. do 2 f_equal.
        apply map_ext. intros i. lra. }
    rewrite (bind_Returns _ _ m m (NdArray redshift))
      by (unfold getattr_operand, bind, get_halos; by rewrite Hz).
    rewrite !map_map. fold b. fold zp.
    rewrite (bind_Returns _ _ m m zcat); [reflexivity|].
    unfold np_broadcast.
    rewrite bool_decide_eq_true_2
      by (by rewrite length_map, length_seq).
    unfold ret, zcat. do 2 f_equal.
    rewrite Hlen. clear. generalize 0%nat.
    induction redshift as [|z l IH]; intros s; [done|].
    cbn [length seq map zip_with]. by rewrite IH.
  - unfold zcat. by rewrite length_map.
  - intros i Hi z zc.
    assert (zc = (1 + z) * (1 + zp) - 1) as ->.
    { unfold zc, zcat, z.
      rewrite (nth_indep _ 0 ((fun z => (1 + z) * (1 + zp) - 1) 0))
        by (by rewrite length_map).
      by rewrite (map_nth (fun z => (1 + z) * (1 + zp) - 1)). }
    destruct (Doppler_factor b Hb) as (Hpos & Hneg & Hzero).
    unfold zp. rewrite Hratio in *.
    replace (1 + (sqrt ((c_km_s + v) / (c_km_s - v)) - 1))
      with (sqrt ((c_km_s + v) / (c_km_s - v))) by lra.
    assert (0 < v -> 0 < b) as Hvb.
    { intros ?. unfold b, Rdiv.
      assert (0 < / c_km_s) by (by apply Rinv_0_lt_compat). nra. }
    assert (v < 0 -> b < 0) as Hvb'.
    { intros ?. unfold b, Rdiv.
      assert (0 < / c_km_s) by (by apply Rinv_0_lt_compat). nra. }
    assert (v = 0 -> b = 0) as Hvb0 by (intros ->; unfold b; lra).
    split; [done|]. split; [|split].
    + intros Hz1 Hv1. specialize (Hpos (Hvb Hv1)). nra.
    + intros Hz1 Hv1. specialize (Hneg (Hvb' Hv1)). nra.
    + intros Hv0. rewrite (Hzero (Hvb0 Hv0)). lra.
Qed.

Lemma offset_velocities_without_scatter_witness :
  let m := mkMem three_halos_with_Lcat (example_params "Li" CNone None None)
             None in
  exists zcat,
    offset_velocities (fun _ _ => 1) 300 0 m
    = (Returns tt, mkMem (<["zcat" := VArr zcat]> (halos m)) (params m) None)
    /\ 2.5 < nth 0 zcat 0.
Proof.
  intros m.
  destruct (offset_velocities_without_scatter (fun _ _ => 1) m 300
              [2; 4; 6] [2.5; 2.8; 3])
    as (zcat & Hrun & _ & Hz).
  - reflexivity.
  - reflexivity.
  - reflexivity.
  - unfold c_km_s. lra.
  - cbn. lia.
  - exists zcat. split; [exact Hrun|].
    destruct (Hz 0%nat) as (_ & Hup & _); [cbn [length]; lia|].
    cbn [nth] in Hup. apply Hup; lra.
Defined.

(** ** The pipeline with a catalogue model *)

Lemma correlated_scatter_run (W : Externals) (m : Mem)
  (rho codex catdex : R) (seed : Z) (Lco Lcat : list R) :
  0 < codex -> 0 < catdex ->
  (0 <= seed)%Z ->
  halos m !! "Lco" = Some (VArr Lco) ->
  halos m !! "Lcat" = Some (VArr Lcat) ->
  length Lcat = length Lco ->
  let sigmaco := codex * 2.30285 in
  let sigmatr := catdex * 2.30285 in
  exists Lco' Lcat',
    add_co_tracer_dependant_scatter W rho codex catdex seed m
    = (Returns tt,
       mkMem (<["Lcat" := VArr Lcat']>
              (<["Lco" := VArr Lco']>
              (<["cov" := VMatrix [[sigmaco ^ 2; sigmaco * sigmatr * rho];
                                   [sigmaco * sigmatr * rho; sigmatr ^ 2]]]>
                 (halos m))))
         (params m) (sfr_interp_tab m))
    /\ length Lco' = length Lco /\ length Lcat' = length Lcat.
Proof.
  intros Hco Hcat Hseed HLco HLcat Hlen sigmaco sigmatr.
  set (cov := [[sigmaco ^ 2; sigmaco * sigmatr * rho];
               [sigmaco * sigmatr * rho; sigmatr ^ 2]]).
  set (draws := map (multivariate_normal W seed cov) (seq 0 (length Lco))).
  set (scaleco := map (fun c => exp (c + -0.5 * sigmaco ^ 2)) (map fst draws)).
  set (scaletr := map (fun t => exp (t + -0.5 * sigmatr ^ 2)) (map snd draws)).
  assert (length scaleco = length Lco) as Hlenco
    by (unfold scaleco, draws; by rewrite !length_map, length_seq).
  assert (length scaletr = length Lco) as Hlentr
    by (unfold scaletr, draws; by rewrite !length_map, length_seq).
  exists (zip_with Rmult Lco scaleco), (zip_with Rmult Lcat scaletr).
  split; [|split; rewrite length_zip_with; lia].
  unfold add_co_tracer_dependant_scatter.
  rewrite (proj2 (Rleb_false codex 0) Hco),
    (proj2 (Rleb_false catdex 0) Hcat).
  cbn [orb].
  rewrite (bind_Returns _ _ m m tt)
    by (unfold default_rng; by rewrite bool_decide_eq_true_2).
  cbv zeta. fold sigmaco sigmatr. fold cov.
  set (m1 := mkMem (<["cov" := VMatrix cov]> (halos m)) (params m)
               (sfr_interp_tab m)).
  rewrite (bind_Returns _ _ m m1 tt) by reflexivity.
  rewrite (bind_Returns _ _ m1 m1 Lco)
    by (apply getattr_array_Some; unfold m1; cbn [halos];
        by rewrite lookup_insert_ne).
  fold draws. fold scaleco scaletr.
  unfold np_zip_with at 1.
  rewrite bool_decide_eq_true_2 by done.
  rewrite (bind_Returns _ _ m1 m1 (zip_with Rmult Lco scaleco))
    by reflexivity.
  set (m2 := mkMem (<["Lco" := VArr (zip_with Rmult Lco scaleco)]> (halos m1))
               (params m) (sfr_interp_tab m)).
  rewrite (bind_Returns _ _ m1 m2 tt) by reflexivity.
  rewrite (bind_Returns _ _ m2 m2 Lcat).
  2:{ apply getattr_array_Some. unfold m2, m1. cbn [halos].
      by rewrite !lookup_insert_ne. }
  unfold np_zip_with.
  rewrite bool_decide_eq_true_2 by lia.
  by rewrite (bind_Returns _ _ m2 m2 (zip_with Rmult Lcat scaletr))
    by reflexivity.
Qed.

(** X25. With the catalogue model ['default'] the width of the scatter of
    the catalogue luminosities is the fifth catalogue coefficient [sigma]
    and not the [params.catdex] that the caller set: the model writes
    [sigma] to [params.catdex] before [Mhalo_to_Ls] reads it, so the
    covariance stored as [halos.cov] is built from [codex] and [sigma],
    and [params.catdex] is [sigma] when the call returns.  The catalogue
    luminosities are given to every halo.  The seed is not negative, as
    the generator of the joint scatter needs. *)
Theorem catalogue_model_overrides_catdex (W : Externals) (m : Mem)
  (seed : Z) (A B logC logM sigma : R) (Mh Lco0 : list R) :
  lum_uncert_seed (params m) = Some seed ->
  (0 <= seed)%Z ->
  catalog_model (params m) = Some "default" ->
  catalog_coeffs (params m) = Some (Some [A; B; logC; logM; sigma]) ->
  halos m !! "M" = Some (VArr Mh) ->
  Mhalo_to_Lco W false m = (Returns (NdArray Lco0), m) ->
  length Lco0 = length Mh ->
  0 < codex (params m) ->
  0 < sigma ->
  let sigmaco := codex (params m) * 2.30285 in
  let sigmatr := sigma * 2.30285 in
  exists m' Lco Lcat,
    Mhalo_to_Ls W m = (Returns tt, m')
    /\ params m' = set_catdex sigma (params m)
    /\ halos m' !! "cov"
       = Some (VMatrix
                 [[sigmaco ^ 2; sigmaco * sigmatr * rho (params m)];
                  [sigmaco * sigmatr * rho (params m); sigmatr ^ 2]])
    /\ halos m' !! "Lco" = Some (VArr Lco)
    /\ halos m' !! "Lcat" = Some (VArr Lcat)
    /\ length Lco = length Mh /\ length Lcat = length Mh.
Proof.
  intros Hseed Hseed0 Hmodel Hcoeffs HM HLco Hlen Hcodex Hsigma
    sigmaco sigmatr.
  set (p := params m).
  set (Lcat0 := map (double_power_law A B logC logM) Mh).
  set (h1 := <["Lco" := VArr Lco0]> (halos m)).
  set (m1 := mkMem h1 p (sfr_interp_tab m)).
  set (h2 := <["catalog_coeffs" := VTuple [A; B; logC; logM; sigma]]> h1).
  set (p2 := set_catdex sigma p).
  set (m2 := mkMem h2 p2 (sfr_interp_tab m)).
  set (h3 := <["Lcat" := VArr Lcat0]> h2).
  set (m3 := mkMem h3 p2 (sfr_interp_tab m)).
  set (h4 := if default false (save_scatterless_lums p)
             then <["scatterless_Lcat" := VArr Lcat0]>
                    (<["scatterless_Lco" := VArr Lco0]> h3)
             else h3).
  set (m4 := mkMem h4 p2 (sfr_interp_tab m)).
  assert (h4 !! "Lco" = Some (VArr Lco0)) as HLco4.
  { unfold h4, h3, h2, h1. destruct (default false _);
      by rewrite ?lookup_insert_ne, lookup_insert_eq by done. }
  assert (h4 !! "Lcat" = Some (VArr Lcat0)) as HLcat4.
  { unfold h4, h3. destruct (default false _);
      by rewrite ?lookup_insert_ne, lookup_insert_eq by done. }
  destruct (correlated_scatter_run W m4 (rho p) (codex p) sigma seed
              Lco0 Lcat0 Hcodex Hsigma Hseed0 HLco4 HLcat4)
    as (Lco' & Lcat' & Hscatter & HlenLco & HlenLcat).
  { unfold Lcat0. by rewrite length_map, Hlen. }
  eexists _, Lco', Lcat'. split; [|split; [|split; [|split; [|split; [|split]]]]].
  - unfold Mhalo_to_Ls.
    rewrite (bind_Returns _ _ m m p) by reflexivity.
    fold p in Hseed. rewrite Hseed.
    rewrite (bind_Returns _ _ m m tt) by reflexivity.
    rewrite (bind_Returns _ _ _ _ _ HLco).
    rewrite (bind_Returns _ _ m m1 tt) by reflexivity.
    rewrite (bind_Returns _ _ m1 m1 p) by reflexivity.
    fold p in Hmodel. rewrite Hmodel, Hseed.
    rewrite bool_decide_eq_false_2 by done. cbn [negb].
    rewrite (bind_Returns _ _ m1 m2 (RetPair Lcat0 p2)).
    2:{ unfold Mhalo_to_Lcatalog.
        rewrite (bind_Returns _ _ m1 m1 p) by reflexivity.
        rewrite Hmodel.
        change (Lcat_dict W !! "default") with (Some Mhalo_to_Lcatalog_test1).
        unfold Mhalo_to_Lcatalog_test1.
        rewrite (bind_Returns _ _ m1 (mkMem h2 p (sfr_interp_tab m))
                   [A; B; logC; logM; sigma]).
        2:{ unfold test_model_coeffs.
            rewrite (bind_Returns _ _ m1 m1 p) by reflexivity.
            fold p in Hcoeffs. rewrite Hcoeffs.
            rewrite bool_decide_eq_true_2 by done.
            by rewrite (bind_Returns _ _ m1 (mkMem h2 p (sfr_interp_tab m)) tt)
              by reflexivity. }
        cbn [nth].
        rewrite (bind_Returns _ _ _ (mkMem h2 p (sfr_interp_tab m)) Mh).
        2:{ apply getattr_array_Some. unfold h2, h1. cbn [halos].
            by rewrite !lookup_insert_ne. }
        rewrite (bind_Returns _ _ _ m2 tt) by reflexivity.
        by rewrite (bind_Returns _ _ m2 m2 p2) by reflexivity. }
    rewrite (bind_Returns _ _ m2 m3 tt) by reflexivity.
    rewrite (bind_Returns _ _ m3 m3 p2) by reflexivity.
    change (save_scatterless_lums p2) with (save_scatterless_lums p).
    change (rho p2) with (rho p). change (codex p2) with (codex p).
    change (catdex p2) with sigma.
    change (default 12345%Z (Some seed)) with seed.
    rewrite (bind_Returns _ _ m3 m4 tt).
    + exact Hscatter.
    + unfold m4, h4. destruct (default false (save_scatterless_lums p));
        [|done].
      rewrite (bind_Returns _ _ m3
                 (mkMem (<["scatterless_Lco" := VArr Lco0]> h3) p2
                    (sfr_interp_tab m)) tt).
      * unfold deepcopy_attr, bind, get_halos. cbn [halos]. unfold h3.
        by rewrite lookup_insert_ne, lookup_insert_eq.
      * unfold deepcopy_attr, bind, get_halos. unfold m3, h3, h2, h1.
        cbn [halos].
        rewrite !lookup_insert_ne by done. by rewrite lookup_insert_eq.
  - done.
  - cbn [halos]. rewrite !lookup_insert_ne, lookup_insert_eq by done. done.
  - cbn [halos]. by rewrite lookup_insert_ne, lookup_insert_eq.
  - cbn [halos]. by rewrite lookup_insert_eq.
  - lia.
  - rewrite HlenLcat. unfold Lcat0. by rewrite length_map.
Qed.

Lemma catalogue_model_overrides_catdex_witness :
  let m := mkMem three_halos
             (example_params "fiuducial" CNone (Some "default")
                (Some (Some [-2; -0.5; 11; 13; 0.25])))
             None in
  exists m',
    Mhalo_to_Ls W0 m = (Returns tt, m')
    /\ catdex (params m) = 0.5
    /\ catdex (params m') = 0.25.
Proof.
  intros m.
  destruct (catalogue_model_overrides_catdex W0 m 12345
              (-2) (-0.5) 11 13 0.25 [1e12; 2e12; 3e12]
              (map (double_power_law (-2.85) (-0.42) 10.63 12.3)
                 [1e12; 2e12; 3e12]))
    as (m' & Lco & Lcat & Hrun & Hparams & _).
  - reflexivity.
  - lia.
  - reflexivity.
  - reflexivity.
  - reflexivity.
  - reflexivity.
  - reflexivity.
  - cbn [params m example_params codex]. lra.
  - lra.
  - exists m'. split; [exact Hrun|]. split; [reflexivity|].
    by rewrite Hparams.
Defined.

(** ** The duty fraction of the model of Padmanabhan *)

(** X26. In the model [Padmanabhan] the ninth coefficient [fduty] scales
    the luminosity of every halo: the luminosities for
    [(m10, ..., y11, fduty)] are [fduty] times those for
    [(m10, ..., y11, 1)].  The model has no scatter of its own: the
    argument [scatter] does not change the result, and the memory is
    unchanged. *)
Theorem Padmanabhan_duty_fraction_scales_the_luminosity (m : Mem)
  (scatter scatter' : bool) (m10 m11 n10 n11 b10 b11 y10 y11 fduty : R)
  (hm z : list R) :
  halos m !! "M" = Some (VArr hm) ->
  halos m !! "redshift" = Some (VArr z) ->
  length hm = length z ->
  exists L1,
    Mhalo_to_Lco_Padmanabhan
      (CTuple [m10; m11; n10; n11; b10; b11; y10; y11; 1]) scatter m
    = (Returns (NdArray L1), m)
    /\ Mhalo_to_Lco_Padmanabhan
         (CTuple [m10; m11; n10; n11; b10; b11; y10; y11; fduty]) scatter' m
       = (Returns (NdArray (map (fun l => l * fduty) L1)), m)
    /\ length L1 = length hm.
Proof.
  intros HM Hz Hlen.
  set (Lprime := fun hm z : R =>
         let m1 := np_power 10 (np_log10 m10 + m11 * z / (z + 1)) in
         let n := n10 + n11 * z / (z + 1) in
         let b := b10 + b11 * z / (z + 1) in
         let y := y10 + y11 * z / (z + 1) in
         2 * n * hm / (np_power (hm / m1) (- b) + np_power (hm / m1) y)).
  assert (forall f sc,
            Mhalo_to_Lco_Padmanabhan
              (CTuple [m10; m11; n10; n11; b10; b11; y10; y11; f]) sc m
            = (Returns (NdArray (zip_with (fun hm z => 4.9e-5 * Lprime hm z * f)
                                   hm z)), m)) as Hrun.
  { intros f sc. unfold Mhalo_to_Lco_Padmanabhan.
    rewrite (bind_Returns _ _ m m
               [m10; m11; n10; n11; b10; b11; y10; y11; f])
      by (unfold unpack_coeffs; by rewrite bool_decide_eq_true_2).
    cbn [nth].
    rewrite (bind_Returns _ _ m m z) by by apply getattr_array_Some.
    rewrite (bind_Returns _ _ m m hm) by by apply getattr_array_Some.
    unfold np_zip_with. rewrite bool_decide_eq_true_2 by done.
    reflexivity. }
  exists (zip_with (fun hm z => 4.9e-5 * Lprime hm z * 1) hm z).
  split; [apply Hrun|]. split.
  - rewrite Hrun. apply (f_equal (fun l => (Returns (NdArray l), m))).
    clear. revert z. induction hm as [|x hm IH]; intros [|y z]; try done.
    cbn [zip_with map]. rewrite <- IH. f_equal. lra.
  - rewrite length_zip_with. lia.
Qed.

Lemma Padmanabhan_duty_fraction_scales_the_luminosity_witness :
  let m := mkMem three_halos (example_params "Padmanabhan" CNone None None)
             None in
  exists L1,
    Mhalo_to_Lco_Padmanabhan
      (CTuple [4.17e12; -1.17; 0.0033; 0.04; 0.95; 0.48; 0.66; -0.33; 0.5])
      true m
    = (Returns (NdArray (map (fun l => l * 0.5) L1)), m)
    /\ length L1 = 3%nat.
Proof.
  intros m.
  destruct (Padmanabhan_duty_fraction_scales_the_luminosity m false true
              4.17e12 (-1.17) 0.0033 0.04 0.95 0.48 0.66 (-0.33) 0.5
              [1e12; 2e12; 3e12] [2.5; 2.8; 3])
    as (L1 & _ & Hrun & Hlen).
  - reflexivity.
  - reflexivity.
  - reflexivity.
  - exists L1. split; [exact Hrun|exact Hlen].
Defined.
